(** * Scanned-image cleaner: the artifact-removal pipeline of [imageProcessing.ts]

    A shallow embedding of [processImage] and its helpers ([rgbToHsv],
    [calculateLocalMeanSaturation], [isNearBlackPixelOptimized], [erodeMask],
    [dilateMask], [morphologicalOpenMask]) together with the caller
    [processImageWithParams] of [App.tsx], and the properties of the
    pipeline that follow from the code. Two parts of the user interface
    that feed the pipeline are embedded with it: the parameter controls
    ([handleSliderChange] and [handleTextInputChange] of
    [ParameterControls.tsx], [handleParameterChange] of [App.tsx]) and the
    whitelist brush with its undo history ([ImageDisplay.tsx]).

    Conventions of the embedding:
    - JavaScript numbers that hold colour values, thresholds and means are
      IEEE-754 binary64 and are modelled by Rocq's primitive floats;
    - numbers that are only ever integers (coordinates, sizes, indices,
      counters, 8-bit samples) are modelled by [Z]; [Math.floor (k / 2)] on
      such a number is [k / 2] on [Z], which rounds towards minus infinity;
    - a [Uint8ClampedArray] is a [list Z]; reading outside it gives
      [undefined] ([None]) and writing outside it is ignored;
    - a [boolean[]] is a [list bool]; reading outside it gives [undefined],
      which every use in the source only tests for truthiness ([false]), and
      writing past its end extends it;
    - [for] loops are folds over their index range, loops that are left
      early ([break], [return]) are searches that stop at the first hit;
    - the promise and [setTimeout] wrapper of [processImage] only defers the
      computation: the embedding is the function that computes the value the
      promise resolves to. [ImageData] is the platform's type and is
      modelled as the record of its three fields. *)

From Stdlib Require Import ZArith List Lia Bool.
From Stdlib Require Import Floats.PrimFloat Numbers.Cyclic.Int63.Uint63.
From Stdlib Require Import Floats.SpecFloat Floats.FloatOps Floats.FloatAxioms.
Import ListNotations.

Local Open Scope Z_scope.

(** ** Loops *)

Module Loop.

(** [iter n i step body s] runs [body i], [body (i + step)], ... [n] times. *)
Fixpoint iter {S : Type} (n : nat) (i step : Z) (body : Z -> S -> S) (s : S) : S :=
  match n with
  | O => s
  | Datatypes.S n' => iter n' (i + step) step body (body i s)
  end.

(** [for (let i = lo; i < hi; i += step) body], for a positive [step]:
    the body runs [ceil ((hi - lo) / step)] times. *)
Definition for_step {S : Type} (lo hi step : Z) (body : Z -> S -> S) (s : S) : S :=
  iter (Z.to_nat ((hi - lo + step - 1) / step)) lo step body s.

(** [for (let i = lo; i < hi; i++) body]. *)
Definition for_range {S : Type} (lo hi : Z) (body : Z -> S -> S) (s : S) : S :=
  iter (Z.to_nat (hi - lo)) lo 1 body s.

(** A loop whose body may leave it ([break] after setting a flag, or
    [return]): [body i = Some r] leaves the loop with [r]. *)
Fixpoint search {R : Type} (n : nat) (i : Z) (body : Z -> option R) : option R :=
  match n with
  | O => None
  | Datatypes.S n' =>
      match body i with
      | Some r => Some r
      | None => search n' (i + 1) body
      end
  end.

Definition for_exit {R : Type} (lo hi : Z) (body : Z -> option R) : option R :=
  search (Z.to_nat (hi - lo)) lo body.

End Loop.

Import Loop.

(** ** Arrays *)

(** [Uint8ClampedArray]: fixed length, samples in 0..255. *)
Definition ta_get (a : list Z) (i : Z) : option Z :=
  if i <? 0 then None else nth_error a (Z.to_nat i).

Fixpoint replace_nth {A : Type} (n : nat) (l : list A) (v : A) : list A :=
  match l, n with
  | [], _ => []
  | _ :: t, O => v :: t
  | h :: t, Datatypes.S n' => h :: replace_nth n' t v
  end.

Definition ta_set (a : list Z) (i : Z) (v : Z) : list Z :=
  if i <? 0 then a else replace_nth (Z.to_nat i) a v.

(** [a === 0] and [a > 0] on a sample that may be [undefined]. *)
Definition sample_is_zero (a : option Z) : bool :=
  match a with Some v => v =? 0 | None => false end.

Definition sample_is_pos (a : option Z) : bool :=
  match a with Some v => 0 <? v | None => false end.

(** [boolean[]]: truthiness of [mask[i]]. *)
Definition arr_get (m : list bool) (i : Z) : bool :=
  if i <? 0 then false else nth (Z.to_nat i) m false.

(** [mask[i] = v]; an index past the end extends the array, the holes read
    as [undefined]. *)
Definition arr_set (m : list bool) (i : Z) (v : bool) : list bool :=
  if i <? 0 then m
  else if (Z.to_nat i <? length m)%nat then replace_nth (Z.to_nat i) m v
  else m ++ repeat false (Z.to_nat i - length m) ++ [v].

(** [new Array(n).fill(false)]. *)
Definition new_mask (n : Z) : list bool := repeat false (Z.to_nat n).

(** [new Uint8ClampedArray(n)]. *)
Definition new_samples (n : Z) : list Z := repeat 0 (Z.to_nat n).

Definition len {A : Type} (l : list A) : Z := Z.of_nat (length l).

(** ** Numbers *)

Definition number := float.

(** A JavaScript number that holds a non-negative integer (a sample, a
    count of pixels). *)
Definition num_of_Z (z : Z) : number := PrimFloat.of_uint63 (Uint63.of_Z z).

(** A sample read from a typed array and used as a number; [undefined]
    becomes NaN in arithmetic. *)
Definition num_of_sample (a : option Z) : number :=
  match a with Some v => num_of_Z v | None => PrimFloat.nan end.

(** [Math.max] and [Math.min]: NaN if an argument is NaN. (The order the
    source's functions give to zeros of different sign is not modelled; a
    sample divided by 255 is never a negative zero.) *)
Definition Math_max (a b : number) : number :=
  if PrimFloat.is_nan a || PrimFloat.is_nan b then PrimFloat.nan
  else if (a <? b)%float then b else a.

Definition Math_min (a b : number) : number :=
  if PrimFloat.is_nan a || PrimFloat.is_nan b then PrimFloat.nan
  else if (b <? a)%float then b else a.

Definition HSV : Type := number * number * number.

Definition hsv_h (c : HSV) : number := fst (fst c).
Definition hsv_s (c : HSV) : number := snd (fst c).
Definition hsv_v (c : HSV) : number := snd c.

(** [hsvValues[i]] read outside the array is [undefined] (its components
    cannot be read at all in the source); the embedding gives it NaN
    components, of which no comparison of the source holds. It is never
    read there when [hsvValues] has an entry per pixel. *)
Definition hsv_undefined : HSV := (PrimFloat.nan, PrimFloat.nan, PrimFloat.nan).

Definition hsv_get (hsvValues : list HSV) (i : Z) : HSV :=
  if i <? 0 then hsv_undefined else nth (Z.to_nat i) hsvValues hsv_undefined.

(** ** Colour conversion *)

Definition rgbToHsv (r g b : number) : HSV :=
  let r := (r / 255)%float in
  let g := (g / 255)%float in
  let b := (b / 255)%float in
  let max := Math_max (Math_max r g) b in
  let min := Math_min (Math_min r g) b in
  let d := (max - min)%float in
  let s := if (max =? 0)%float then 0%float else (d / max)%float in
  let v := max in
  let h :=
    if negb (max =? min)%float then
      let h :=
        if (max =? r)%float then ((g - b) / d + (if (g <? b)%float then 6 else 0))%float
        else if (max =? g)%float then ((b - r) / d + 2)%float
        else if (max =? b)%float then ((r - g) / d + 4)%float
        else 0%float in
      (h / 6)%float
    else 0%float in
  ((h * 360)%float, (s * 100)%float, (v * 100)%float).

(** ** Local mean saturation *)

Definition calculateLocalMeanSaturation
    (data : list Z) (hsvValues : list HSV) (width height x y kernelSize : Z) : number :=
  let halfKernel := kernelSize / 2 in
  let '(totalSaturation, count) :=
    for_range (Z.max 0 (y - halfKernel)) (Z.min height (y + halfKernel + 1))
      (fun ky acc =>
        for_range (Z.max 0 (x - halfKernel)) (Z.min width (x + halfKernel + 1))
          (fun kx '(totalSaturation, count) =>
            let idx := (ky * width + kx) * 4 in
            let pixelIndex := idx / 4 in
            let a := ta_get data (idx + 3) in
            let totalSaturation :=
              if sample_is_pos a
              then (totalSaturation + hsv_s (hsv_get hsvValues pixelIndex))%float
              else totalSaturation in
            (totalSaturation, count + 1))
          acc)
      (0%float, 0) in
  if 0 <? count then (totalSaturation / num_of_Z count)%float else 0%float.

(** ** Proximity to black pixels *)

Definition isNearBlackPixelOptimized
    (blackPixelsMask : list bool) (width height x y structureSize : Z) : bool :=
  let halfSize := structureSize / 2 in
  let radiusSquared := halfSize * halfSize in
  match
    for_exit (Z.max 0 (y - halfSize)) (Z.min height (y + halfSize + 1))
      (fun ky =>
        for_exit (Z.max 0 (x - halfSize)) (Z.min width (x + halfSize + 1))
          (fun kx =>
            let dx := kx - x in
            let dy := ky - y in
            let distanceSquared := dx * dx + dy * dy in
            if radiusSquared <? distanceSquared then None
            else
              let checkPixelIndex := ky * width + kx in
              if arr_get blackPixelsMask checkPixelIndex then Some true else None))
  with
  | Some r => r
  | None => false
  end.

(** ** Binary morphology *)

Definition erodeMask (mask : list bool) (width height kernelSize : Z) : list bool :=
  let erodedMask := new_mask (len mask) in
  let halfKernel := kernelSize / 2 in
  for_range 0 height
    (fun y erodedMask =>
      for_range 0 width
        (fun x erodedMask =>
          let allTrue :=
            match
              for_exit (Z.max 0 (y - halfKernel)) (Z.min height (y + halfKernel + 1))
                (fun ky =>
                  for_exit (Z.max 0 (x - halfKernel)) (Z.min width (x + halfKernel + 1))
                    (fun kx =>
                      if negb (arr_get mask (ky * width + kx)) then Some false else None))
            with
            | Some b => b
            | None => true
            end in
          if allTrue then arr_set erodedMask (y * width + x) true else erodedMask)
        erodedMask)
    erodedMask.

Definition dilateMask (mask : list bool) (width height kernelSize : Z) : list bool :=
  let dilatedMask := new_mask (len mask) in
  let halfKernel := kernelSize / 2 in
  for_range 0 height
    (fun y dilatedMask =>
      for_range 0 width
        (fun x dilatedMask =>
          let anyTrue :=
            match
              for_exit (Z.max 0 (y - halfKernel)) (Z.min height (y + halfKernel + 1))
                (fun ky =>
                  for_exit (Z.max 0 (x - halfKernel)) (Z.min width (x + halfKernel + 1))
                    (fun kx =>
                      if arr_get mask (ky * width + kx) then Some true else None))
            with
            | Some b => b
            | None => false
            end in
          if anyTrue then arr_set dilatedMask (y * width + x) true else dilatedMask)
        dilatedMask)
    dilatedMask.

Definition morphologicalOpenMask (mask : list bool) (width height kernelSize : Z) : list bool :=
  let eroded := erodeMask mask width height kernelSize in
  dilateMask eroded width height kernelSize.

(** ** The pipeline *)

Record ProcessingParams := {
  brightnessThreshold : number;
  saturationThreshold : number;
  meanSaturationThreshold : number;
  blackPixelBrightnessThreshold : number;
  blackPixelSaturationThreshold : number;
  structuringElementSize : Z;
  blurKernelSize : Z;
  morphOpeningKernelSize : Z
}.

Definition defaultParams : ProcessingParams := {|
  brightnessThreshold := 78%float;
  saturationThreshold := 16%float;
  meanSaturationThreshold := 16%float;
  blackPixelBrightnessThreshold := 25%float;
  blackPixelSaturationThreshold := 31%float;
  structuringElementSize := 25;
  blurKernelSize := 12;
  morphOpeningKernelSize := 3
|}.

Record ImageData := {
  width : Z;
  height : Z;
  data : list Z
}.

Record Stats := {
  brightPixels : Z;
  lowSaturationPixels : Z;
  candidateArtifacts : Z;
  lowSaturationAreas : Z;
  nearBlackPixels : Z;
  replacedPixels : Z;
  blackPixels : Z;
  thresholds : ProcessingParams
}.

Record ProcessingResult := {
  processedImage : ImageData;
  visualizationImage : ImageData;
  stats : Stats
}.

(** The counters are incremented one field at a time. *)
Definition incr_brightPixels (s : Stats) : Stats :=
  {| brightPixels := brightPixels s + 1;
     lowSaturationPixels := lowSaturationPixels s;
     candidateArtifacts := candidateArtifacts s;
     lowSaturationAreas := lowSaturationAreas s;
     nearBlackPixels := nearBlackPixels s;
     replacedPixels := replacedPixels s;
     blackPixels := blackPixels s;
     thresholds := thresholds s |}.

Definition incr_lowSaturationPixels (s : Stats) : Stats :=
  {| brightPixels := brightPixels s;
     lowSaturationPixels := lowSaturationPixels s + 1;
     candidateArtifacts := candidateArtifacts s;
     lowSaturationAreas := lowSaturationAreas s;
     nearBlackPixels := nearBlackPixels s;
     replacedPixels := replacedPixels s;
     blackPixels := blackPixels s;
     thresholds := thresholds s |}.

Definition incr_candidateArtifacts (s : Stats) : Stats :=
  {| brightPixels := brightPixels s;
     lowSaturationPixels := lowSaturationPixels s;
     candidateArtifacts := candidateArtifacts s + 1;
     lowSaturationAreas := lowSaturationAreas s;
     nearBlackPixels := nearBlackPixels s;
     replacedPixels := replacedPixels s;
     blackPixels := blackPixels s;
     thresholds := thresholds s |}.

Definition incr_lowSaturationAreas (s : Stats) : Stats :=
  {| brightPixels := brightPixels s;
     lowSaturationPixels := lowSaturationPixels s;
     candidateArtifacts := candidateArtifacts s;
     lowSaturationAreas := lowSaturationAreas s + 1;
     nearBlackPixels := nearBlackPixels s;
     replacedPixels := replacedPixels s;
     blackPixels := blackPixels s;
     thresholds := thresholds s |}.

Definition incr_nearBlackPixels (s : Stats) : Stats :=
  {| brightPixels := brightPixels s;
     lowSaturationPixels := lowSaturationPixels s;
     candidateArtifacts := candidateArtifacts s;
     lowSaturationAreas := lowSaturationAreas s;
     nearBlackPixels := nearBlackPixels s + 1;
     replacedPixels := replacedPixels s;
     blackPixels := blackPixels s;
     thresholds := thresholds s |}.

Definition incr_replacedPixels (s : Stats) : Stats :=
  {| brightPixels := brightPixels s;
     lowSaturationPixels := lowSaturationPixels s;
     candidateArtifacts := candidateArtifacts s;
     lowSaturationAreas := lowSaturationAreas s;
     nearBlackPixels := nearBlackPixels s;
     replacedPixels := replacedPixels s + 1;
     blackPixels := blackPixels s;
     thresholds := thresholds s |}.

Definition incr_blackPixels (s : Stats) : Stats :=
  {| brightPixels := brightPixels s;
     lowSaturationPixels := lowSaturationPixels s;
     candidateArtifacts := candidateArtifacts s;
     lowSaturationAreas := lowSaturationAreas s;
     nearBlackPixels := nearBlackPixels s;
     replacedPixels := replacedPixels s;
     blackPixels := blackPixels s + 1;
     thresholds := thresholds s |}.

(** The statistics record as [processImage] creates it. *)
Definition initial_stats (params : ProcessingParams) : Stats :=
  {| brightPixels := 0;
     lowSaturationPixels := 0;
     candidateArtifacts := 0;
     lowSaturationAreas := 0;
     nearBlackPixels := 0;
     replacedPixels := 0;
     blackPixels := 0;
     thresholds :=
       {| brightnessThreshold := brightnessThreshold params;
          saturationThreshold := saturationThreshold params;
          meanSaturationThreshold := meanSaturationThreshold params;
          blackPixelBrightnessThreshold := blackPixelBrightnessThreshold params;
          blackPixelSaturationThreshold := blackPixelSaturationThreshold params;
          structuringElementSize := structuringElementSize params;
          blurKernelSize := blurKernelSize params;
          morphOpeningKernelSize := morphOpeningKernelSize params |} |}.

(** The stages of [processImage], one definition per loop of the source, in
    the order of the source. Each takes the variables its loop reads and
    returns the ones it assigns. *)

(** "Copy the original data first". *)
Definition copy_pass (data : list Z) : list Z * list Z :=
  let result := new_samples (len data) in
  let visualization := new_samples (len data) in
  for_range 0 (len data)
    (fun i '(result, visualization) =>
      match ta_get data i with
      | Some v => (ta_set result i v, ta_set visualization i v)
      | None => (result, visualization)
      end)
    (result, visualization).

(** "Precompute HSV values for all pixels". *)
Definition hsv_pass (data : list Z) : list HSV :=
  for_step 0 (len data) 4
    (fun i hsvValues =>
      let r := num_of_sample (ta_get data i) in
      let g := num_of_sample (ta_get data (i + 1)) in
      let b := num_of_sample (ta_get data (i + 2)) in
      hsvValues ++ [rgbToHsv r g b])
    [].

(** "Find black pixels first for visualization and near-black checks". *)
Definition black_pass (params : ProcessingParams) (data : list Z) (hsvValues : list HSV)
    (width height : Z) (visualization : list Z) (stats : Stats)
    : list bool * list Z * Stats :=
  let blackPixelsMask := new_mask (width * height) in
  for_range 0 (len hsvValues)
    (fun pixelIndex '(blackPixelsMask, visualization, stats) =>
      let idx := pixelIndex * 4 in
      let a := ta_get data (idx + 3) in
      if sample_is_zero a then (blackPixelsMask, visualization, stats)
      else
        let hsv := hsv_get hsvValues pixelIndex in
        let v := hsv_v hsv in
        let s := hsv_s hsv in
        let isBlack :=
          (v <? blackPixelBrightnessThreshold params)%float &&
          (s <? blackPixelSaturationThreshold params)%float in
        let blackPixelsMask := arr_set blackPixelsMask pixelIndex isBlack in
        if isBlack then
          let stats := incr_blackPixels stats in
          let visualization := ta_set visualization idx 255 in
          let visualization := ta_set visualization (idx + 1) 0 in
          let visualization := ta_set visualization (idx + 2) 0 in
          (blackPixelsMask, visualization, stats)
        else (blackPixelsMask, visualization, stats))
    (blackPixelsMask, visualization, stats).

(** "Create intermediate mask (before near-black filtering and morphology)". *)
Definition initial_pass (params : ProcessingParams) (data : list Z) (hsvValues : list HSV)
    (width height : Z) (stats : Stats) : list bool * Stats :=
  let initialMask := new_mask (width * height) in
  for_range 0 height
    (fun y st =>
      for_range 0 width
        (fun x '(initialMask, stats) =>
          let idx := (y * width + x) * 4 in
          let pixelIndex := idx / 4 in
          let a := ta_get data (idx + 3) in
          if sample_is_zero a then (initialMask, stats)
          else
            let hsv := hsv_get hsvValues pixelIndex in
            let s := hsv_s hsv in
            let v := hsv_v hsv in
            let isBright := (brightnessThreshold params <? v)%float in
            let stats := if isBright then incr_brightPixels stats else stats in
            let isLowSaturation := (s <? saturationThreshold params)%float in
            let stats := if isLowSaturation then incr_lowSaturationPixels stats else stats in
            let isCandidateArtifact := isBright && isLowSaturation in
            if isCandidateArtifact then
              let stats := incr_candidateArtifacts stats in
              let meanSat :=
                calculateLocalMeanSaturation data hsvValues width height x y
                  (blurKernelSize params) in
              if (meanSat <? meanSaturationThreshold params)%float then
                let stats := incr_lowSaturationAreas stats in
                let initialMask := arr_set initialMask pixelIndex true in
                (initialMask, stats)
              else (initialMask, stats)
            else (initialMask, stats))
        st)
    (initialMask, stats).

(** "Now, filter the initialMask based on proximity to black pixels". *)
Definition final_pass (params : ProcessingParams) (width height : Z)
    (initialMask blackPixelsMask : list bool) (visualization : list Z) (stats : Stats)
    : list bool * list Z * Stats :=
  let finalMask := new_mask (width * height) in
  for_range 0 height
    (fun y st =>
      for_range 0 width
        (fun x '(finalMask, visualization, stats) =>
          let pixelIndex := y * width + x in
          if negb (arr_get initialMask pixelIndex) then (finalMask, visualization, stats)
          else
            let isNearBlack :=
              isNearBlackPixelOptimized blackPixelsMask width height x y
                (structuringElementSize params) in
            if isNearBlack then
              let stats := incr_nearBlackPixels stats in
              let idx := pixelIndex * 4 in
              let visualization := ta_set visualization idx 0 in
              let visualization := ta_set visualization (idx + 1) 0 in
              let visualization := ta_set visualization (idx + 2) 255 in
              (finalMask, visualization, stats)
            else
              let finalMask := arr_set finalMask pixelIndex true in
              let stats := incr_replacedPixels stats in
              (finalMask, visualization, stats))
        st)
    (finalMask, visualization, stats).

(** "Apply the *opened* mask to the result image". *)
Definition apply_pass (openedMask : list bool) (result visualization : list Z)
    : list Z * list Z :=
  for_range 0 (len openedMask)
    (fun pixelIndex '(result, visualization) =>
      if arr_get openedMask pixelIndex then
        let idx := pixelIndex * 4 in
        let result := ta_set result idx 0 in
        let result := ta_set result (idx + 1) 0 in
        let result := ta_set result (idx + 2) 0 in
        let result := ta_set result (idx + 3) 0 in
        let visualization := ta_set visualization idx 0 in
        let visualization := ta_set visualization (idx + 1) 255 in
        let visualization := ta_set visualization (idx + 2) 0 in
        (result, visualization)
      else (result, visualization))
    (result, visualization).

(** The local variables of [processImage] that the properties below talk
    about, as functions of its two arguments. *)
Section Intermediate.
Variable imageData : ImageData.
Variable params : ProcessingParams.

Let w := width imageData.
Let h := height imageData.
Let d := data imageData.

Definition hsvValues_of : list HSV := hsv_pass d.

Definition black_stage : list bool * list Z * Stats :=
  black_pass params d hsvValues_of w h (snd (copy_pass d)) (initial_stats params).

Definition blackPixelsMask_of : list bool := fst (fst black_stage).

Definition initial_stage : list bool * Stats :=
  initial_pass params d hsvValues_of w h (snd black_stage).

Definition initialMask_of : list bool := fst initial_stage.

Definition final_stage : list bool * list Z * Stats :=
  final_pass params w h initialMask_of blackPixelsMask_of
    (snd (fst black_stage)) (snd initial_stage).

Definition finalMask_of : list bool := fst (fst final_stage).

Definition openedMask_of : list bool :=
  morphologicalOpenMask finalMask_of w h (morphOpeningKernelSize params).

Definition apply_stage : list Z * list Z :=
  apply_pass openedMask_of (fst (copy_pass d)) (snd (fst final_stage)).

Definition processImage : ProcessingResult :=
  {| processedImage := {| width := w; height := h; data := fst apply_stage |};
     visualizationImage := {| width := w; height := h; data := snd apply_stage |};
     stats := snd final_stage |}.
End Intermediate.

(** ** The caller ([App.tsx]) *)

(** The object [processImageWithParams] passes as [params]: the eight
    parameters spread, and the manual whitelist mask of the brush. *)
Record ParamsWithWhitelist := {
  parameters : ProcessingParams;
  manualWhitelistMask : option (list bool)
}.

(** [processImage] is compiled against [ProcessingParams] and reads the
    eight parameter fields of the object it is given, nothing else. *)
Definition processImageWithParams (originalImageData : ImageData)
    (paramsWithWhitelist : ParamsWithWhitelist) : ProcessingResult :=
  processImage originalImageData (parameters paramsWithWhitelist).


(** ** Vocabulary of the properties *)

(** A raster as the platform hands it over: four samples per pixel. *)
Definition well_formed (img : ImageData) : Prop :=
  0 <= width img /\ 0 <= height img /\
  len (data img) = 4 * (width img * height img).

(** Number of [true] entries of a mask. *)
Fixpoint count_true (m : list bool) : Z :=
  match m with
  | [] => 0
  | b :: t => (if b then 1 else 0) + count_true t
  end.

(** Number of indices below [n] at which [f] holds. *)
Fixpoint count_upto (f : Z -> bool) (n : nat) : Z :=
  match n with
  | O => 0
  | Datatypes.S k => count_upto f k + (if f (Z.of_nat k) then 1 else 0)
  end.

(** The alpha sample of pixel [p] of a raster is 0. *)
Definition transparent_at (d : list Z) (p : Z) : bool :=
  sample_is_zero (ta_get d (p * 4 + 3)).

(** Number of pixels with alpha 0 among the [n] pixels of a raster. *)
Definition count_transparent (d : list Z) (n : Z) : Z :=
  count_upto (transparent_at d) (Z.to_nat n).

(** The cells of the window of half-size [r] around [(x, y)], clipped to a
    [w] by [h] raster: the ranges of the two window loops of the source. *)
Definition in_window (w h x y r kx ky : Z) : Prop :=
  Z.max 0 (y - r) <= ky < Z.min h (y + r + 1) /\
  Z.max 0 (x - r) <= kx < Z.min w (x + r + 1).

(** The loop nest shared by [erodeMask] and [dilateMask]: every pixel whose
    window test [test y x] succeeds is set in the output mask. *)
Definition fill_mask (w h : Z) (test : Z -> Z -> bool) (out : list bool) : list bool :=
  for_range 0 h
    (fun y out =>
      for_range 0 w
        (fun x out => if test y x then arr_set out (y * w + x) true else out)
        out)
    out.

(** The window tests of [erodeMask] ([allTrue]) and [dilateMask] ([anyTrue]). *)
Definition erode_test (mask : list bool) (w h r y x : Z) : bool :=
  match
    for_exit (Z.max 0 (y - r)) (Z.min h (y + r + 1))
      (fun ky =>
        for_exit (Z.max 0 (x - r)) (Z.min w (x + r + 1))
          (fun kx => if negb (arr_get mask (ky * w + kx)) then Some false else None))
  with
  | Some b => b
  | None => true
  end.

Definition dilate_test (mask : list bool) (w h r y x : Z) : bool :=
  match
    for_exit (Z.max 0 (y - r)) (Z.min h (y + r + 1))
      (fun ky =>
        for_exit (Z.max 0 (x - r)) (Z.min w (x + r + 1))
          (fun kx => if arr_get mask (ky * w + kx) then Some true else None))
  with
  | Some b => b
  | None => false
  end.

(** The colour of pixel [p] of a raster, converted. *)
Definition pixel_hsv (d : list Z) (p : Z) : HSV :=
  rgbToHsv (num_of_sample (ta_get d (p * 4)))
           (num_of_sample (ta_get d (p * 4 + 1)))
           (num_of_sample (ta_get d (p * 4 + 2))).

(** What the loops of [processImage] decide for one pixel, read off their
    bodies: the entry of the black-pixel mask of pixel [p], ... *)
Definition is_black (params : ProcessingParams) (d : list Z) (hsvValues : list HSV)
    (p : Z) : bool :=
  negb (transparent_at d p) &&
  ((hsv_v (hsv_get hsvValues p) <? blackPixelBrightnessThreshold params)%float &&
   (hsv_s (hsv_get hsvValues p) <? blackPixelSaturationThreshold params)%float).

(** ... the brightness and saturation tests of a candidate artifact, ... *)
Definition is_bright (params : ProcessingParams) (hsvValues : list HSV) (p : Z) : bool :=
  (brightnessThreshold params <? hsv_v (hsv_get hsvValues p))%float.

Definition is_low_saturation (params : ProcessingParams) (hsvValues : list HSV)
    (p : Z) : bool :=
  (hsv_s (hsv_get hsvValues p) <? saturationThreshold params)%float.

(** ... the local-mean-saturation test, ... *)
Definition is_low_saturation_area (params : ProcessingParams) (d : list Z)
    (hsvValues : list HSV) (w h x y : Z) : bool :=
  (calculateLocalMeanSaturation d hsvValues w h x y (blurKernelSize params)
     <? meanSaturationThreshold params)%float.

(** ... and the entry of the initial mask of pixel [(x, y)]. *)
Definition is_initial (params : ProcessingParams) (d : list Z) (hsvValues : list HSV)
    (w h x y : Z) : bool :=
  negb (transparent_at d (y * w + x)) &&
  (is_bright params hsvValues (y * w + x) &&
   is_low_saturation params hsvValues (y * w + x) &&
   is_low_saturation_area params d hsvValues w h x y).

(** The proximity test of pixel [(x, y)] as the final pass runs it. *)
Definition is_near_black (params : ProcessingParams) (blackPixelsMask : list bool)
    (w h x y : Z) : bool :=
  isNearBlackPixelOptimized blackPixelsMask w h x y (structuringElementSize params).

(** The entry of the final mask of pixel [(x, y)], and the test that colours
    it blue in the visualization. *)
Definition is_final (params : ProcessingParams) (initialMask blackPixelsMask : list bool)
    (w h x y : Z) : bool :=
  arr_get initialMask (y * w + x) && negb (is_near_black params blackPixelsMask w h x y).

Definition is_whitelisted (params : ProcessingParams) (initialMask blackPixelsMask : list bool)
    (w h x y : Z) : bool :=
  arr_get initialMask (y * w + x) && is_near_black params blackPixelsMask w h x y.

(** The three colours of the visualization, by channel [c] = 0, 1, 2. *)
Definition channel_of (r g b c : Z) : Z :=
  if c =? 0 then r else if c =? 1 then g else b.

Definition red : Z -> Z := channel_of 255 0 0.
Definition green : Z -> Z := channel_of 0 255 0.
Definition blue : Z -> Z := channel_of 0 0 255.

(** The integers from [lo] up to, not including, [hi], in increasing order. *)
Definition Zrange (lo hi : Z) : list Z :=
  map (fun i => lo + Z.of_nat i) (seq 0 (Z.to_nat (hi - lo))).

(** The cells [(kx, ky)] of the clipped window, row by row. *)
Definition window_cells (w h x y r : Z) : list (Z * Z) :=
  flat_map
    (fun ky => map (fun kx => (kx, ky)) (Zrange (Z.max 0 (x - r)) (Z.min w (x + r + 1))))
    (Zrange (Z.max 0 (y - r)) (Z.min h (y + r + 1))).

(** The saturations of the non-transparent cells of a list, added up in the
    order of the list. *)
Definition saturation_sum (d : list Z) (hsvValues : list HSV) (w : Z)
    (cells : list (Z * Z)) : number :=
  fold_left
    (fun acc '(kx, ky) =>
       if sample_is_pos (ta_get d ((ky * w + kx) * 4 + 3))
       then (acc + hsv_s (hsv_get hsvValues (ky * w + kx)))%float
       else acc)
    cells 0%float.

(** The local mean with the denominator of a zero-padded average: the sum
    over the cells inside the raster, divided by the number of cells of the
    whole, unclipped window; 0 when that window is empty. *)
Definition zero_padded_mean (d : list Z) (hsvValues : list HSV)
    (w h x y kernelSize : Z) : number :=
  let r := kernelSize / 2 in
  let full := Z.max 0 (2 * r + 1) * Z.max 0 (2 * r + 1) in
  if 0 <? full
  then (saturation_sum d hsvValues w (window_cells w h x y r) / num_of_Z full)%float
  else 0%float.

(** The local mean over the clipped window: the same sum, divided by the
    number of cells of the window that lie inside the raster. *)
Definition clipped_mean (d : list Z) (hsvValues : list HSV)
    (w h x y kernelSize : Z) : number :=
  let cells := window_cells w h x y (kernelSize / 2) in
  if 0 <? len cells
  then (saturation_sum d hsvValues w cells / num_of_Z (len cells))%float
  else 0%float.

(** The guards of the three colouring rules of the visualization: the
    conditions under which the loops write red, blue and green. *)
Definition red_rule (img : ImageData) (params : ProcessingParams) (x y : Z) : bool :=
  arr_get (blackPixelsMask_of img params) (y * width img + x).

Definition blue_rule (img : ImageData) (params : ProcessingParams) (x y : Z) : bool :=
  is_whitelisted params (initialMask_of img params) (blackPixelsMask_of img params)
    (width img) (height img) x y.

Definition green_rule (img : ImageData) (params : ProcessingParams) (x y : Z) : bool :=
  arr_get (openedMask_of img params) (y * width img + x).

(** Pixel [p] of a raster has the colour [colour] in its three colour
    channels. *)
Definition shows (d : list Z) (p : Z) (colour : Z -> Z) : Prop :=
  forall c, 0 <= c < 3 -> ta_get d (p * 4 + c) = Some (colour c).

(** Pixel [(x, y)] is transparent in the cleaned raster and was not in the
    source. *)
Definition made_transparent (img : ImageData) (params : ProcessingParams) (x y : Z) : Prop :=
  transparent_at (data (processedImage (processImage img params))) (y * width img + x) = true /\
  transparent_at (data img) (y * width img + x) = false.

(** The statistic-consistency property with the count of transparent pixels
    of the cleaned raster equal to the count of the opened mask. *)
Definition statistic_consistency (img : ImageData) (params : ProcessingParams) : Prop :=
  let r := processImage img params in
  blackPixels (stats r) = count_true (blackPixelsMask_of img params) /\
  replacedPixels (stats r) = count_true (finalMask_of img params) /\
  count_transparent (data (processedImage r)) (width img * height img) =
  count_true (openedMask_of img params).

(** The colour-coding property: green exactly on the pixels made
    transparent, red on the black pixels that green does not override, and
    never two rules on one pixel. *)
Definition color_coding (img : ImageData) (params : ProcessingParams) : Prop :=
  forall x y, 0 <= x < width img -> 0 <= y < height img ->
    (green_rule img params x y = true <-> made_transparent img params x y) /\
    (red_rule img params x y = true -> green_rule img params x y = false ->
     shows (data (visualizationImage (processImage img params))) (y * width img + x) red) /\
    (red_rule img params x y && blue_rule img params x y = false) /\
    (red_rule img params x y && green_rule img params x y = false) /\
    (blue_rule img params x y && green_rule img params x y = false).

(** ** Small rasters and parameter records *)

Definition white_1x1 : ImageData :=
  {| width := 1; height := 1; data := [255; 255; 255; 255] |}.

Definition red_1x1 : ImageData :=
  {| width := 1; height := 1; data := [255; 0; 0; 255] |}.

Definition grey_1x1 : ImageData :=
  {| width := 1; height := 1; data := [51; 51; 51; 255] |}.

Definition transparent_1x1 : ImageData :=
  {| width := 1; height := 1; data := [0; 0; 0; 0] |}.

Definition black_white_2x1 : ImageData :=
  {| width := 2; height := 1; data := [0; 0; 0; 255; 255; 255; 255; 255] |}.

(** A 5 by 5 raster of opaque white pixels, and an empty raster. *)
Definition white_5x5 : ImageData :=
  {| width := 5; height := 5; data := concat (repeat [255; 255; 255; 255] 25) |}.

Definition empty_raster : ImageData := {| width := 0; height := 0; data := [] |}.

(** The default parameters with the brightness threshold lowered below the
    black-pixel brightness threshold. *)
Definition overlapping_params : ProcessingParams := {|
  brightnessThreshold := 10%float;
  saturationThreshold := 16%float;
  meanSaturationThreshold := 16%float;
  blackPixelBrightnessThreshold := 25%float;
  blackPixelSaturationThreshold := 31%float;
  structuringElementSize := 25;
  blurKernelSize := 12;
  morphOpeningKernelSize := 3
|}.

(** The default parameters with the blur kernel size made odd, as the text
    input of the parameter controls would return it, and with a structuring
    element of size 3. *)
Definition odd_blur_params : ProcessingParams := {|
  brightnessThreshold := 78%float;
  saturationThreshold := 16%float;
  meanSaturationThreshold := 16%float;
  blackPixelBrightnessThreshold := 25%float;
  blackPixelSaturationThreshold := 31%float;
  structuringElementSize := 25;
  blurKernelSize := 13;
  morphOpeningKernelSize := 3
|}.

Definition small_element_params : ProcessingParams := {|
  brightnessThreshold := 78%float;
  saturationThreshold := 16%float;
  meanSaturationThreshold := 16%float;
  blackPixelBrightnessThreshold := 25%float;
  blackPixelSaturationThreshold := 31%float;
  structuringElementSize := 3;
  blurKernelSize := 12;
  morphOpeningKernelSize := 3
|}.

(** The white pixel painted over with the whitelist brush. *)
Definition whitelisted_params : ParamsWithWhitelist :=
  {| parameters := defaultParams; manualWhitelistMask := Some [true] |}.

(** A 4 by 3 mask with a 3 by 3 block and a stray pixel. *)
Definition block_mask : list bool :=
  [true; true; true; false;
   true; true; true; false;
   true; true; true; true].

(** The tests behind the first three counters of the statistics: pixel [p]
    is not transparent and is bright, is of low saturation, is both (a
    candidate artifact). *)
Definition opaque_bright (params : ProcessingParams) (d : list Z) (hsvValues : list HSV)
    (p : Z) : bool :=
  negb (transparent_at d p) && is_bright params hsvValues p.

Definition opaque_low_saturation (params : ProcessingParams) (d : list Z)
    (hsvValues : list HSV) (p : Z) : bool :=
  negb (transparent_at d p) && is_low_saturation params hsvValues p.

Definition is_candidate (params : ProcessingParams) (d : list Z) (hsvValues : list HSV)
    (p : Z) : bool :=
  negb (transparent_at d p) &&
  (is_bright params hsvValues p && is_low_saturation params hsvValues p).

(** Two parameter records with the same five thresholds. *)
Definition same_thresholds (p q : ProcessingParams) : Prop :=
  brightnessThreshold p = brightnessThreshold q /\
  saturationThreshold p = saturationThreshold q /\
  meanSaturationThreshold p = meanSaturationThreshold q /\
  blackPixelBrightnessThreshold p = blackPixelBrightnessThreshold q /\
  blackPixelSaturationThreshold p = blackPixelSaturationThreshold q.

(** The seven counters of a statistics record. *)
Definition counters (s : Stats) : list Z :=
  [brightPixels s; lowSaturationPixels s; candidateArtifacts s; lowSaturationAreas s;
   nearBlackPixels s; replacedPixels s; blackPixels s].

(** Case analysis on the integer comparisons of a goal. *)
Ltac ltb_cases :=
  repeat match goal with
    | |- context [Z.ltb ?a ?b] => destruct (Z.ltb_spec a b)
    | |- context [Z.eqb ?a ?b] => destruct (Z.eqb_spec a b)
    end; cbn [andb orb negb]; try reflexivity; try lia.

(** Case analysis on the comparison of two numbers given by sign, mantissa
    and exponent. *)
Ltac sf_compare :=
  intros;
  repeat match goal with
  | b : bool |- _ => destruct b
  end;
  cbn [CompOpp] in *;
  repeat match goal with
  | H : context [PosDef.Pos.compare_cont Eq ?x ?y] |- _ =>
      change (PosDef.Pos.compare_cont Eq x y) with (Pos.compare x y) in H
  | |- context [PosDef.Pos.compare_cont Eq ?x ?y] =>
      change (PosDef.Pos.compare_cont Eq x y) with (Pos.compare x y)
  end;
  repeat match goal with
  | H : context [Z.compare ?x ?y] |- _ => destruct (Z.compare_spec x y)
  | |- context [Z.compare ?x ?y] => destruct (Z.compare_spec x y)
  | H : context [Pos.compare ?x ?y] |- _ => destruct (Pos.compare_spec x y)
  | |- context [Pos.compare ?x ?y] => destruct (Pos.compare_spec x y)
  end;
  cbn [CompOpp] in *; subst; try discriminate; try reflexivity; try lia.

(** [all_below n f]: [f] holds of 0, ..., [n - 1]; for properties of the
    256 values of a sample that are checked by running the code. *)
Fixpoint all_below (n : nat) (f : Z -> bool) : bool :=
  match n with
  | O => true
  | Datatypes.S k => f (Z.of_nat k) && all_below k f
  end.

(** A colour channel as [rgbToHsv] scales it, and the saturation and value
    it computes from the largest and the smallest channel. *)
Definition unit_channel (z : Z) : number := (num_of_Z z / 255)%float.

Definition saturation_of (hi lo : Z) : number :=
  let max := unit_channel hi in
  let min := unit_channel lo in
  ((if (max =? 0)%float then 0%float else ((max - min) / max)%float) * 100)%float.

Definition value_of (hi : Z) : number := (unit_channel hi * 100)%float.

(** The facts about [saturation_of] and [value_of] checked for each pair of
    8-bit samples. *)
Definition saturation_value_ok (hi lo : Z) : bool :=
  negb (lo <=? hi) ||
  ((0 <=? saturation_of hi lo)%float && (saturation_of hi lo <=? 100)%float &&
   (0 <=? value_of hi)%float && (value_of hi <=? 100)%float &&
   Bool.eqb (saturation_of hi lo =? 0)%float (hi =? lo) &&
   Bool.eqb (value_of hi =? 0)%float (hi =? 0)).

(** Two rasters of one size that show the same: every pixel has the same
    alpha in both, and a pixel that is not transparent has the same colour. *)
Definition same_visible (a b : ImageData) : Prop :=
  width a = width b /\ height a = height b /\
  forall p, 0 <= p < height a * width a ->
    ta_get (data a) (p * 4 + 3) = ta_get (data b) (p * 4 + 3) /\
    (transparent_at (data a) p = false ->
     forall c, 0 <= c < 3 -> ta_get (data a) (p * 4 + c) = ta_get (data b) (p * 4 + c)).

(** A transparent pixel beside a white one, with black and with red under
    the transparent pixel. *)
Definition veiled_black_2x1 : ImageData :=
  {| width := 2; height := 1; data := [0; 0; 0; 0; 255; 255; 255; 255] |}.

Definition veiled_red_2x1 : ImageData :=
  {| width := 2; height := 1; data := [255; 0; 0; 0; 255; 255; 255; 255] |}.

(** * The parameter controls: [ParameterControls.tsx] and [App.tsx] *)

(** [Math.max] and [Math.min] on any two numbers: NaN if an argument is
    NaN, and of the two zeros the one of positive sign is the larger. *)
Definition Math_max_zeros (a b : number) : number :=
  if PrimFloat.is_nan a || PrimFloat.is_nan b then PrimFloat.nan
  else if (a <? b)%float then b
  else if (b <? a)%float then a
  else match PrimFloat.classify a with FloatClass.NZero => b | _ => a end.

Definition Math_min_zeros (a b : number) : number :=
  if PrimFloat.is_nan a || PrimFloat.is_nan b then PrimFloat.nan
  else if (a <? b)%float then a
  else if (b <? a)%float then b
  else match PrimFloat.classify a with FloatClass.PZero => b | _ => a end.

(** The keys of [defaultParams]: the five thresholds and the three sizes. *)
Inductive ThresholdName :=
  | BrightnessThreshold
  | SaturationThreshold
  | MeanSaturationThreshold
  | BlackPixelBrightnessThreshold
  | BlackPixelSaturationThreshold.

Inductive SizeName :=
  | StructuringElementSize
  | BlurKernelSize
  | MorphOpeningKernelSize.

(** What a control passes to [onChange]: the name of a parameter and a
    number, [numValue]. A threshold is any number; a size is a whole number,
    as [processImage] is embedded. ([numValue] is the number the handlers
    make of the string of the input element, 0 for the empty string of a text
    input; the conversion itself is the platform's.) *)
Inductive ParameterChange :=
  | ThresholdChange (name : ThresholdName) (numValue : number)
  | SizeChange (name : SizeName) (numValue : Z).


(** The text input applies "min/max constraints based on the parameter":
    thresholds are brought into 0..100, sizes are raised to 3 and
    "odd values for kernel sizes" are ensured. On the whole numbers below
    2^53 the binary64 arithmetic of the size branch ([Math.max], [%],
    [+= 1]) is the arithmetic of [Z] written here. From 2^53 on every
    binary64 number is even and the source's [numValue += 1] is rounded back
    to an even number, which the sum on [Z] does not do: what is proved of
    the sizes passed on is proved below 2^53. *)
Definition handleTextInputChange (c : ParameterChange) : ParameterChange :=
  match c with
  | ThresholdChange name numValue =>
      let numValue := Math_min_zeros (Math_max_zeros numValue 0%float) 100%float in
      ThresholdChange name numValue
  | SizeChange name numValue =>
      let numValue := Z.max numValue 3 in
      let numValue := if Z.rem numValue 2 =? 0 then numValue + 1 else numValue in
      SizeChange name numValue
  end.

(** [handleParameterChange] of [App.tsx]: [{...prev, [name]: value}]. *)
Definition handleParameterChange (c : ParameterChange) (prev : ProcessingParams)
    : ProcessingParams :=
  let set (b t m bb bs : number) (s k o : Z) :=
    {| brightnessThreshold := b; saturationThreshold := t;
       meanSaturationThreshold := m; blackPixelBrightnessThreshold := bb;
       blackPixelSaturationThreshold := bs; structuringElementSize := s;
       blurKernelSize := k; morphOpeningKernelSize := o |} in
  let '{| brightnessThreshold := b; saturationThreshold := t;
          meanSaturationThreshold := m; blackPixelBrightnessThreshold := bb;
          blackPixelSaturationThreshold := bs; structuringElementSize := s;
          blurKernelSize := k; morphOpeningKernelSize := o |} := prev in
  match c with
  | ThresholdChange BrightnessThreshold value => set value t m bb bs s k o
  | ThresholdChange SaturationThreshold value => set b value m bb bs s k o
  | ThresholdChange MeanSaturationThreshold value => set b t value bb bs s k o
  | ThresholdChange BlackPixelBrightnessThreshold value => set b t m value bs s k o
  | ThresholdChange BlackPixelSaturationThreshold value => set b t m bb value s k o
  | SizeChange StructuringElementSize value => set b t m bb bs value k o
  | SizeChange BlurKernelSize value => set b t m bb bs s value o
  | SizeChange MorphOpeningKernelSize value => set b t m bb bs s k value
  end.

(** The number a change carries, for the two kinds of parameter. *)
Definition threshold_value (c : ParameterChange) : number :=
  match c with ThresholdChange _ v => v | SizeChange _ _ => PrimFloat.nan end.

Definition size_value (c : ParameterChange) : Z :=
  match c with SizeChange _ v => v | ThresholdChange _ _ => 0 end.

(** * The whitelist brush and its history: [ImageDisplay.tsx] *)

Module ImageDisplay.

(** The state of the component that the handlers of the brush read and set.
    A handler reads the state of the render it was created in and queues its
    updates; the embedding passes both states along. The masks are never
    updated in place (the brush is given a copy, the history is sliced), so
    that lists stand for the arrays. *)
Record State := {
  imageDimensions : Z * Z;
  isWhitelistBrushActive : bool;
  manualWhitelistMask : list bool;
  isDrawing : bool;
  history : list (list bool);
  historyIndex : Z;
  hasUnsavedChanges : bool
}.

(** The properties of the component that the handlers read:
    [isProcessing], and whether [onManualWhitelist] is given. *)
Record Props := {
  isProcessing : bool;
  onManualWhitelist : bool
}.

(** The state of the first render. *)
Definition initialState : State := {|
  imageDimensions := (0, 0);
  isWhitelistBrushActive := false;
  manualWhitelistMask := [];
  isDrawing := false;
  history := [];
  historyIndex := -1;
  hasUnsavedChanges := false
|}.

Definition setImageDimensions (v : Z * Z) (s : State) : State :=
  {| imageDimensions := v;
     isWhitelistBrushActive := isWhitelistBrushActive s;
     manualWhitelistMask := manualWhitelistMask s;
     isDrawing := isDrawing s;
     history := history s;
     historyIndex := historyIndex s;
     hasUnsavedChanges := hasUnsavedChanges s |}.

Definition setIsWhitelistBrushActive (v : bool) (s : State) : State :=
  {| imageDimensions := imageDimensions s;
     isWhitelistBrushActive := v;
     manualWhitelistMask := manualWhitelistMask s;
     isDrawing := isDrawing s;
     history := history s;
     historyIndex := historyIndex s;
     hasUnsavedChanges := hasUnsavedChanges s |}.

Definition setManualWhitelistMask (v : list bool) (s : State) : State :=
  {| imageDimensions := imageDimensions s;
     isWhitelistBrushActive := isWhitelistBrushActive s;
     manualWhitelistMask := v;
     isDrawing := isDrawing s;
     history := history s;
     historyIndex := historyIndex s;
     hasUnsavedChanges := hasUnsavedChanges s |}.

Definition setIsDrawing (v : bool) (s : State) : State :=
  {| imageDimensions := imageDimensions s;
     isWhitelistBrushActive := isWhitelistBrushActive s;
     manualWhitelistMask := manualWhitelistMask s;
     isDrawing := v;
     history := history s;
     historyIndex := historyIndex s;
     hasUnsavedChanges := hasUnsavedChanges s |}.

Definition setHistory (v : list (list bool)) (s : State) : State :=
  {| imageDimensions := imageDimensions s;
     isWhitelistBrushActive := isWhitelistBrushActive s;
     manualWhitelistMask := manualWhitelistMask s;
     isDrawing := isDrawing s;
     history := v;
     historyIndex := historyIndex s;
     hasUnsavedChanges := hasUnsavedChanges s |}.

Definition setHistoryIndex (v : Z) (s : State) : State :=
  {| imageDimensions := imageDimensions s;
     isWhitelistBrushActive := isWhitelistBrushActive s;
     manualWhitelistMask := manualWhitelistMask s;
     isDrawing := isDrawing s;
     history := history s;
     historyIndex := v;
     hasUnsavedChanges := hasUnsavedChanges s |}.

Definition setHasUnsavedChanges (v : bool) (s : State) : State :=
  {| imageDimensions := imageDimensions s;
     isWhitelistBrushActive := isWhitelistBrushActive s;
     manualWhitelistMask := manualWhitelistMask s;
     isDrawing := isDrawing s;
     history := history s;
     historyIndex := historyIndex s;
     hasUnsavedChanges := v |}.

(** [a[i]]: [undefined] outside the array. *)
Definition item {A : Type} (a : list A) (i : Z) : option A :=
  if i <? 0 then None else nth_error a (Z.to_nat i).

(** [a.slice(0, e)]: a negative [e] counts from the end. *)
Definition slice0 {A : Type} (a : list A) (e : Z) : list A :=
  firstn (Z.to_nat (if e <? 0 then len a + e else e)) a.

(** The calls of [onManualWhitelist] a handler makes: with mask [m], if the
    callback is given. *)
Definition notify (p : Props) (m : list bool) : list (list bool) :=
  if onManualWhitelist p then [m] else [].

(** "Initialize the whitelist mask when image dimensions change". *)
Definition initializeMask (s : State) : State :=
  let '(w, h) := imageDimensions s in
  if (0 <? w) && (0 <? h) then
    let emptyMask := new_mask (w * h) in
    setHasUnsavedChanges false
      (setHistoryIndex 0 (setHistory [emptyMask] (setManualWhitelistMask emptyMask s)))
  else s.

(** "Save changes to history when drawing is complete". *)
Definition saveChanges (p : Props) (s : State) : State * list (list bool) :=
  if hasUnsavedChanges s && negb (isDrawing s) && onManualWhitelist p then
    let updatedHistory :=
      slice0 (history s) (historyIndex s + 1) ++ [manualWhitelistMask s] in
    (setHasUnsavedChanges false
       (setHistoryIndex (len updatedHistory - 1) (setHistory updatedHistory s)),
     [manualWhitelistMask s])
  else (s, []).

(** [handleUndo] and [handleRedo]; [None] is the [TypeError] of spreading
    an entry that the history does not have. *)
Definition handleUndo (p : Props) (s : State) : option (State * list (list bool)) :=
  if (0 <? historyIndex s) && negb (isDrawing s) && negb (isProcessing p) then
    let newIndex := historyIndex s - 1 in
    match item (history s) newIndex with
    | Some previousState =>
        Some (setHistoryIndex newIndex (setManualWhitelistMask previousState s),
              notify p previousState)
    | None => None
    end
  else Some (s, []).

Definition handleRedo (p : Props) (s : State) : option (State * list (list bool)) :=
  if (historyIndex s <? len (history s) - 1) && negb (isDrawing s) && negb (isProcessing p)
  then
    let newIndex := historyIndex s + 1 in
    match item (history s) newIndex with
    | Some nextState =>
        Some (setHistoryIndex newIndex (setManualWhitelistMask nextState s),
              notify p nextState)
    | None => None
    end
  else Some (s, []).

(** [applyBrushAtPosition]: [brush] is the mask that
    [createCircularWhitelistMask] returns at the position of the call for a
    copy of the mask it is given (that function is not among the sources).
    The mask read is the one of the render, [s]; the update is queued on
    [s']. *)
Definition applyBrushAtPosition (brush : list bool -> list bool) (s s' : State) : State :=
  let '(w, h) := imageDimensions s in
  if (w =? 0) || (h =? 0) then s'
  else
    let updatedMask := brush (manualWhitelistMask s) in
    setManualWhitelistMask updatedMask s'.

Definition handleCanvasMouseDown (p : Props) (brush : list bool -> list bool) (s : State)
    : State :=
  if negb (isWhitelistBrushActive s) || isProcessing p then s
  else
    let s' := setIsDrawing true s in
    let s' := setHasUnsavedChanges true s' in
    applyBrushAtPosition brush s s'.

(** [handleCanvasMouseMove]: [steps] are the brush applications of its
    loop, in order. (The handler stores the position of the mouse before it
    tests whether one is stored, so that the loop is the branch taken.) *)
Definition handleCanvasMouseMove (p : Props) (steps : list (list bool -> list bool))
    (s : State) : State :=
  if negb (isDrawing s) || negb (isWhitelistBrushActive s) || isProcessing p then s
  else fold_left (fun s' brush => applyBrushAtPosition brush s s') steps s.

Definition handleCanvasMouseUp (s : State) : State :=
  if isDrawing s then setIsDrawing false s else s.

Definition handleCanvasMouseLeave (s : State) : State := handleCanvasMouseUp s.

Definition handleWhitelistBrushToggle (s : State) : State :=
  setIsWhitelistBrushActive (negb (isWhitelistBrushActive s)) s.

Definition handleClearWhitelist (p : Props) (s : State) : State * list (list bool) :=
  let '(w, h) := imageDimensions s in
  if (0 <? w) && (0 <? h) && negb (isProcessing p) then
    let clearMask := new_mask (w * h) in
    let updatedHistory := slice0 (history s) (historyIndex s + 1) ++ [clearMask] in
    (setHistoryIndex (len updatedHistory - 1)
       (setHistory updatedHistory (setManualWhitelistMask clearMask s)),
     notify p clearMask)
  else (s, []).

(** What happens to the component through the page: an image of some size
    is loaded, or an element calls its handler. The elements are given the
    handlers of each render anew, so that [Undo] and [Redo], the clicks on
    the undo and redo buttons, call [handleUndo] and [handleRedo] of the
    render they happen in. (The keyboard shortcuts go through a listener
    that is not renewed with every render; they are [KeyDown] below.) *)
Inductive Event :=
  | ImageLoaded (w h : Z)
  | BrushToggle
  | MouseDown (brush : list bool -> list bool)
  | MouseMove (steps : list (list bool -> list bool))
  | MouseUp
  | MouseLeave
  | Undo
  | Redo
  | Clear.

(** The handler of such an event. *)
Definition handle (p : Props) (e : Event) (s : State) : option (State * list (list bool)) :=
  match e with
  | ImageLoaded w h => Some (initializeMask (setImageDimensions (w, h) s), [])
  | BrushToggle => Some (handleWhitelistBrushToggle s, [])
  | MouseDown brush => Some (handleCanvasMouseDown p brush s, [])
  | MouseMove steps => Some (handleCanvasMouseMove p steps s, [])
  | MouseUp => Some (handleCanvasMouseUp s, [])
  | MouseLeave => Some (handleCanvasMouseLeave s, [])
  | Undo => handleUndo p s
  | Redo => handleRedo p s
  | Clear => Some (handleClearWhitelist p s)
  end.

(** One event: its handler, then the effect that saves the changes, which
    runs on the state the handler leaves. The result is the new state and
    the masks passed to [onManualWhitelist], in order. *)
Definition step (p : Props) (e : Event) (s : State) : option (State * list (list bool)) :=
  match handle p e s with
  | Some (s', out) =>
      let '(s'', out') := saveChanges p s' in
      Some (s'', out ++ out')
  | None => None
  end.

Fixpoint run (p : Props) (es : list Event) (s : State) : option (State * list (list bool)) :=
  match es with
  | [] => Some (s, [])
  | e :: es =>
      match step p e s with
      | Some (s', out) =>
          match run p es s' with
          | Some (s'', out') => Some (s'', out ++ out')
          | None => None
          end
      | None => None
      end
  end.

(** The keys that the keydown listener tells apart: [e.key] is ['z'], ['y']
    or another string (['Z'] among them). *)
Inductive Key := Key_z | Key_y | Key_other.

Record KeyboardEvent := {
  ctrlKey : bool;
  shiftKey : bool;
  key : Key
}.

Definition is_z (k : Key) : bool := match k with Key_z => true | _ => false end.
Definition is_y (k : Key) : bool := match k with Key_y => true | _ => false end.

(** [handleUndo] and [handleRedo] as the keydown listener calls them. The
    effect that adds the listener depends on [isWhitelistBrushActive],
    [isProcessing], [history] and [historyIndex]: the listener and the two
    handlers it calls are those of the last render in which one of these
    changed. They read these four as they are now, in [s], and [isDrawing]
    as it was in that render, [drawing], which need not be [isDrawing s]
    (the callback they read there too; the parent gives it in every
    render). Their updates are queued on [s']. *)
Definition handleUndoOf (p : Props) (drawing : bool) (s s' : State)
    : option (State * list (list bool)) :=
  if (0 <? historyIndex s) && negb drawing && negb (isProcessing p) then
    let newIndex := historyIndex s - 1 in
    match item (history s) newIndex with
    | Some previousState =>
        Some (setHistoryIndex newIndex (setManualWhitelistMask previousState s'),
              notify p previousState)
    | None => None
    end
  else Some (s', []).

Definition handleRedoOf (p : Props) (drawing : bool) (s s' : State)
    : option (State * list (list bool)) :=
  if (historyIndex s <? len (history s) - 1) && negb drawing && negb (isProcessing p)
  then
    let newIndex := historyIndex s + 1 in
    match item (history s) newIndex with
    | Some nextState =>
        Some (setHistoryIndex newIndex (setManualWhitelistMask nextState s'),
              notify p nextState)
    | None => None
    end
  else Some (s', []).

(** [handleKeyDown], the listener. Its two tests are not exclusive: with
    [ctrlKey], [shiftKey] and the key ['z'] it calls [handleUndo] and then
    [handleRedo], both of one render. An exception of the first leaves the
    listener before the second. *)
Definition handleKeyDown (p : Props) (drawing : bool) (e : KeyboardEvent) (s : State)
    : option (State * list (list bool)) :=
  if negb (isWhitelistBrushActive s) || isProcessing p then Some (s, [])
  else
    let undo := ctrlKey e && is_z (key e) in
    let redo := (ctrlKey e && is_y (key e)) || (ctrlKey e && shiftKey e && is_z (key e)) in
    match (if undo then handleUndoOf p drawing s s else Some (s, [])) with
    | Some (s', out) =>
        match (if redo then handleRedoOf p drawing s s' else Some (s', [])) with
        | Some (s'', out') => Some (s'', out ++ out')
        | None => None
        end
    | None => None
    end.

(** All that happens to the component: an event of the page, or a key
    pressed while the listener is the one of a render with [isDrawing] equal
    to [drawing]. *)
Inductive Input :=
  | Pointer (e : Event)
  | KeyDown (drawing : bool) (e : KeyboardEvent).

Definition handleInput (p : Props) (i : Input) (s : State)
    : option (State * list (list bool)) :=
  match i with
  | Pointer e => handle p e s
  | KeyDown drawing e => handleKeyDown p drawing e s
  end.

(** One input: its handler, then the effect that saves the changes. *)
Definition stepInput (p : Props) (i : Input) (s : State)
    : option (State * list (list bool)) :=
  match handleInput p i s with
  | Some (s', out) =>
      let '(s'', out') := saveChanges p s' in
      Some (s'', out ++ out')
  | None => None
  end.

(** The one input on which the listener calls both handlers. *)
Definition callsBoth (i : Input) : bool :=
  match i with
  | Pointer _ => false
  | KeyDown _ e => ctrlKey e && shiftKey e && is_z (key e)
  end.

(** The history and the mask fit together: the index is the index of an
    entry, or -1 when there is none; drawing goes with unsaved changes, and
    without unsaved changes the mask is the entry at the index. *)
Definition history_ok (s : State) : Prop :=
  -1 <= historyIndex s < len (history s) /\
  (0 < len (history s) -> 0 <= historyIndex s) /\
  (isDrawing s = true -> hasUnsavedChanges s = true) /\
  (hasUnsavedChanges s = false -> 0 <= historyIndex s ->
   item (history s) (historyIndex s) = Some (manualWhitelistMask s)).

(** Of the masks passed to [onManualWhitelist], in order: each is the mask
    [x]; the last one, if there is one, is the mask [x]. *)
Definition all_are (x : list bool) (out : list (list bool)) : Prop :=
  forall m, In m out -> m = x.

Definition last_is (x : list bool) (out : list (list bool)) : Prop :=
  out = [] \/ exists pre, out = pre ++ [x].

(** The component at rest: no stroke going on and nothing to save. *)
Definition at_rest (s : State) : Prop :=
  isDrawing s = false /\ hasUnsavedChanges s = false.

(** The properties of a component that is not processing and has its
    callback. *)
Definition idle : Props := {| isProcessing := false; onManualWhitelist := true |}.

(** A 2 by 1 image after one stroke over its first pixel, and the brush of
    that stroke. *)
Definition first_pixel (m : list bool) : list bool := arr_set m 0 true.

Definition one_stroke : State := {|
  imageDimensions := (2, 1);
  isWhitelistBrushActive := true;
  manualWhitelistMask := [true; false];
  isDrawing := false;
  history := [[false; false]; [true; false]];
  historyIndex := 1;
  hasUnsavedChanges := false
|}.

(** That image after a second stroke over its second pixel and an undo:
    the history has an entry to go back to and one to go forward to. *)
Definition one_undone : State := {|
  imageDimensions := (2, 1);
  isWhitelistBrushActive := true;
  manualWhitelistMask := [true; false];
  isDrawing := false;
  history := [[false; false]; [true; false]; [true; true]];
  historyIndex := 1;
  hasUnsavedChanges := false
|}.

(** Ctrl+Z, and Ctrl+Shift+Z with the key reported as ['z']. *)
Definition ctrl_z : KeyboardEvent := {| ctrlKey := true; shiftKey := false; key := Key_z |}.

Definition ctrl_shift_z : KeyboardEvent :=
  {| ctrlKey := true; shiftKey := true; key := Key_z |}.

End ImageDisplay.

(** * Properties *)

(** ** Loop invariants *)

Section LoopFacts.
Context {S : Type}.

Lemma iter_ind (P : nat -> S -> Prop) (body : Z -> S -> S) (lo step : Z) :
  forall (n k : nat) (s : S),
    P k s ->
    (forall (j : nat) (t : S), (k <= j < k + n)%nat -> P j t ->
       P (Datatypes.S j) (body (lo + Z.of_nat j * step) t)) ->
    P (k + n)%nat (iter n (lo + Z.of_nat k * step) step body s).
Proof.
  induction n as [|n IH]; intros k s Hk Hstep; simpl.
  - now rewrite Nat.add_0_r.
  - replace (lo + Z.of_nat k * step + step)
      with (lo + Z.of_nat (Datatypes.S k) * step) by lia.
    replace (k + Datatypes.S n)%nat with (Datatypes.S k + n)%nat by lia.
    apply IH.
    + apply Hstep; [lia | exact Hk].
    + intros j t Hj. apply Hstep. lia.
Qed.

Lemma for_range_ind (P : Z -> S -> Prop) (lo hi : Z) (body : Z -> S -> S) (s : S) :
  lo <= hi ->
  P lo s ->
  (forall i t, lo <= i < hi -> P i t -> P (i + 1) (body i t)) ->
  P hi (for_range lo hi body s).
Proof.
  intros Hle H0 Hstep. unfold for_range.
  pose proof (iter_ind (fun j t => P (lo + Z.of_nat j) t) body lo 1
                (Z.to_nat (hi - lo)) 0 s) as H.
  simpl in H. rewrite Z.add_0_r in H.
  replace (lo + Z.of_nat (Z.to_nat (hi - lo))) with hi in H by lia.
  apply H; [exact H0|].
  intros j t Hj Hp.
  replace (lo + Z.pos (Pos.of_succ_nat j)) with (lo + Z.of_nat j + 1) by lia.
  replace (lo + Z.of_nat j * 1) with (lo + Z.of_nat j) by lia.
  apply Hstep; [lia | exact Hp].
Qed.

Lemma for_range_empty (lo hi : Z) (body : Z -> S -> S) (s : S) :
  hi <= lo -> for_range lo hi body s = s.
Proof.
  intros H. unfold for_range. replace (Z.to_nat (hi - lo)) with O by lia. reflexivity.
Qed.

(** A loop whose body changes nothing on its range changes nothing. *)
Lemma for_range_skip (lo hi : Z) (body : Z -> S -> S) (s : S) :
  (forall i, lo <= i < hi -> body i s = s) ->
  for_range lo hi body s = s.
Proof.
  intros H. destruct (Z_le_gt_dec lo hi) as [Hle|Hgt].
  - apply (for_range_ind (fun _ t => t = s)); auto.
    intros i t Hi ->. now apply H.
  - apply for_range_empty. lia.
Qed.

(** The two nested loops over the rows and columns of a raster visit the
    pixels in the order of their index [y * w + x]. *)
Lemma raster_ind (P : Z -> S -> Prop) (w h : Z) (body : Z -> Z -> S -> S) (s : S) :
  0 <= w -> 0 <= h ->
  P 0 s ->
  (forall x y t, 0 <= x < w -> 0 <= y < h ->
     P (y * w + x) t -> P (y * w + x + 1) (body y x t)) ->
  P (h * w) (for_range 0 h (fun y t => for_range 0 w (fun x u => body y x u) t) s).
Proof.
  intros Hw Hh H0 Hstep.
  apply (for_range_ind (fun y t => P (y * w) t)); [exact Hh | exact H0 |].
  intros y t Hy Hp.
  replace ((y + 1) * w) with (y * w + w) by lia.
  apply (for_range_ind (fun x u => P (y * w + x) u)); [exact Hw | |].
  - now rewrite Z.add_0_r.
  - intros x u Hx Hq. rewrite Z.add_assoc. now apply Hstep.
Qed.

End LoopFacts.

Section ExitFacts.
Context {R : Type}.

Lemma search_none (body : Z -> option R) :
  forall n i, search n i body = None <->
              (forall j, i <= j < i + Z.of_nat n -> body j = None).
Proof.
  induction n as [|n IH]; intros i; simpl.
  - split; [intros _ j Hj; lia | reflexivity].
  - destruct (body i) as [r|] eqn:E.
    + split; [discriminate|]. intros H. rewrite H in E by lia. discriminate.
    + rewrite IH. split; intros H j Hj.
      * destruct (Z.eq_dec j i) as [->|Hne]; [exact E | apply H; lia].
      * apply H. lia.
Qed.

Lemma search_some (body : Z -> option R) (r : R) :
  forall n i, search n i body = Some r ->
              exists j, i <= j < i + Z.of_nat n /\ body j = Some r.
Proof.
  induction n as [|n IH]; intros i; simpl; [discriminate|].
  destruct (body i) as [r'|] eqn:E.
  - intros [= ->]. exists i. split; [lia | exact E].
  - intros H. destruct (IH _ H) as (j & Hj & Hb). exists j. split; [lia | exact Hb].
Qed.

Lemma for_exit_none (lo hi : Z) (body : Z -> option R) :
  for_exit lo hi body = None <-> (forall i, lo <= i < hi -> body i = None).
Proof.
  unfold for_exit. rewrite search_none. split; intros H i Hi; apply H; lia.
Qed.

Lemma for_exit_some (lo hi : Z) (body : Z -> option R) (r : R) :
  for_exit lo hi body = Some r -> exists i, lo <= i < hi /\ body i = Some r.
Proof.
  unfold for_exit. intros H. destruct (search_some _ _ _ _ H) as (j & Hj & Hb).
  exists j. split; [lia | exact Hb].
Qed.

Lemma for_exit2_none (a b c d : Z) (body : Z -> Z -> option R) :
  for_exit a b (fun ky => for_exit c d (fun kx => body ky kx)) = None <->
  (forall ky kx, a <= ky < b -> c <= kx < d -> body ky kx = None).
Proof.
  rewrite for_exit_none. split.
  - intros H ky kx Hy Hx. specialize (H ky Hy). rewrite for_exit_none in H. now apply H.
  - intros H ky Hy. rewrite for_exit_none. intros kx Hx. now apply H.
Qed.

Lemma for_exit2_some (a b c d : Z) (body : Z -> Z -> option R) (r : R) :
  for_exit a b (fun ky => for_exit c d (fun kx => body ky kx)) = Some r ->
  exists ky kx, a <= ky < b /\ c <= kx < d /\ body ky kx = Some r.
Proof.
  intros H. apply for_exit_some in H. destruct H as (ky & Hy & H).
  apply for_exit_some in H. destruct H as (kx & Hx & H).
  exists ky, kx. auto.
Qed.

End ExitFacts.

(** ** Arrays *)

Lemma replace_nth_length {A : Type} (v : A) :
  forall (l : list A) (n : nat), length (replace_nth n l v) = length l.
Proof.
  induction l as [|a l IH]; intros [|n]; simpl; auto.
Qed.

Lemma nth_error_replace_same {A : Type} (v : A) :
  forall (l : list A) (n : nat),
    (n < length l)%nat -> nth_error (replace_nth n l v) n = Some v.
Proof.
  induction l as [|a l IH]; intros [|n] H; simpl in *; try lia; auto.
  apply IH. lia.
Qed.

Lemma nth_error_replace_other {A : Type} (v : A) :
  forall (l : list A) (n m : nat),
    n <> m -> nth_error (replace_nth n l v) m = nth_error l m.
Proof.
  induction l as [|a l IH]; intros [|n] [|m] H; simpl; auto; try congruence.
Qed.

Lemma nth_replace_same {A : Type} (v d : A) (l : list A) (n : nat) :
  (n < length l)%nat -> nth n (replace_nth n l v) d = v.
Proof.
  intros H. apply nth_error_nth. now apply nth_error_replace_same.
Qed.

Lemma nth_replace_other {A : Type} (v d : A) :
  forall (l : list A) (n m : nat),
    n <> m -> nth m (replace_nth n l v) d = nth m l d.
Proof.
  induction l as [|a l IH]; intros [|n] [|m] H; simpl; auto; try congruence.
Qed.

Lemma len_nonneg {A : Type} (l : list A) : 0 <= len l.
Proof. unfold len. lia. Qed.

Lemma ta_set_length (a : list Z) (i v : Z) : length (ta_set a i v) = length a.
Proof.
  unfold ta_set. destruct (i <? 0); [reflexivity | apply replace_nth_length].
Qed.

Lemma ta_set_len (a : list Z) (i v : Z) : len (ta_set a i v) = len a.
Proof. unfold len. now rewrite ta_set_length. Qed.

Lemma ta_get_set_same (a : list Z) (i v : Z) :
  0 <= i < len a -> ta_get (ta_set a i v) i = Some v.
Proof.
  unfold ta_get, ta_set, len. intros H.
  destruct (Z.ltb_spec i 0); [lia|]. apply nth_error_replace_same. lia.
Qed.

Lemma ta_get_set_other (a : list Z) (i j v : Z) :
  i <> j -> ta_get (ta_set a i v) j = ta_get a j.
Proof.
  unfold ta_get, ta_set. intros H.
  destruct (Z.ltb_spec j 0); [reflexivity|].
  destruct (Z.ltb_spec i 0); [reflexivity|].
  apply nth_error_replace_other. lia.
Qed.

Lemma ta_get_in_range (a : list Z) (i : Z) :
  0 <= i < len a -> exists v, ta_get a i = Some v.
Proof.
  unfold ta_get, len. intros H. destruct (Z.ltb_spec i 0); [lia|].
  destruct (nth_error a (Z.to_nat i)) as [v|] eqn:E; [now exists v|].
  apply nth_error_None in E. lia.
Qed.

Lemma ta_get_out_of_range (a : list Z) (i : Z) :
  len a <= i -> ta_get a i = None.
Proof.
  unfold ta_get, len. intros H. destruct (Z.ltb_spec i 0); [reflexivity|].
  apply nth_error_None. lia.
Qed.

(** Two typed arrays of one length with the same samples are equal. *)
Lemma ta_ext (a b : list Z) :
  length a = length b -> (forall i, 0 <= i < len a -> ta_get a i = ta_get b i) -> a = b.
Proof.
  intros Hl H. apply nth_error_ext. intros n.
  destruct (Nat.lt_ge_cases n (length a)) as [Hlt|Hge].
  - specialize (H (Z.of_nat n)). unfold ta_get, len in H.
    destruct (Z.ltb_spec (Z.of_nat n) 0); [lia|].
    rewrite Nat2Z.id in H. apply H. lia.
  - transitivity (@None Z); [|symmetry]; apply nth_error_None; lia.
Qed.

Lemma arr_set_length (m : list bool) (i : Z) (v : bool) :
  0 <= i < len m -> length (arr_set m i v) = length m.
Proof.
  unfold arr_set, len. intros H. destruct (Z.ltb_spec i 0); [lia|].
  destruct (Nat.ltb_spec (Z.to_nat i) (length m)); [|lia].
  apply replace_nth_length.
Qed.

Lemma arr_get_set_same (m : list bool) (i : Z) (v : bool) :
  0 <= i < len m -> arr_get (arr_set m i v) i = v.
Proof.
  unfold arr_get, arr_set, len. intros H. destruct (Z.ltb_spec i 0); [lia|].
  destruct (Nat.ltb_spec (Z.to_nat i) (length m)); [|lia].
  apply nth_replace_same. lia.
Qed.

Lemma arr_get_set_other (m : list bool) (i j : Z) (v : bool) :
  0 <= i < len m -> i <> j -> arr_get (arr_set m i v) j = arr_get m j.
Proof.
  unfold arr_get, arr_set, len. intros H Hne. destruct (Z.ltb_spec i 0); [lia|].
  destruct (Nat.ltb_spec (Z.to_nat i) (length m)); [|lia].
  destruct (Z.ltb_spec j 0); [reflexivity|].
  apply nth_replace_other. lia.
Qed.

Lemma arr_get_out_of_range (m : list bool) (i : Z) :
  len m <= i -> arr_get m i = false.
Proof.
  unfold arr_get, len. intros H. destruct (Z.ltb_spec i 0); [reflexivity|].
  apply nth_overflow. lia.
Qed.

Lemma new_mask_length (n : Z) : length (new_mask n) = Z.to_nat n.
Proof. apply repeat_length. Qed.

Lemma arr_get_new_mask (n i : Z) : arr_get (new_mask n) i = false.
Proof.
  unfold arr_get, new_mask. destruct (i <? 0); [reflexivity|].
  destruct (Nat.lt_ge_cases (Z.to_nat i) (Z.to_nat n)) as [Hlt|Hge].
  - apply nth_repeat_lt. exact Hlt.
  - apply nth_overflow. now rewrite repeat_length.
Qed.

(** Two masks of one length with the same entries are equal. *)
Lemma arr_ext (a b : list bool) :
  length a = length b -> (forall i, 0 <= i < len a -> arr_get a i = arr_get b i) -> a = b.
Proof.
  intros Hl H. apply (nth_ext a b false false Hl). intros n Hn.
  specialize (H (Z.of_nat n)). unfold arr_get, len in H.
  destruct (Z.ltb_spec (Z.of_nat n) 0); [lia|].
  rewrite Nat2Z.id in H. apply H. lia.
Qed.

(** ** Raster indices *)

Lemma raster_index_inj (w x y x' y' : Z) :
  0 <= x < w -> 0 <= x' < w -> y * w + x = y' * w + x' -> x = x' /\ y = y'.
Proof.
  intros Hx Hx' E.
  assert (y = y') by nia. subst. lia.
Qed.

Lemma raster_index_bound (w h x y : Z) :
  0 <= x < w -> 0 <= y < h -> 0 <= y * w + x < h * w.
Proof. intros Hx Hy. nia. Qed.

Lemma raster_index_split (w h i : Z) :
  0 <= i < h * w -> 0 <= w ->
  0 <= i mod w < w /\ 0 <= i / w < h /\ i = i / w * w + i mod w.
Proof.
  intros Hi Hw.
  assert (0 < w).
  { destruct (Z.eq_dec w 0) as [->|]; [rewrite Z.mul_0_r in Hi|]; lia. }
  pose proof (Z.mod_pos_bound i w ltac:(lia)).
  pose proof (Z.div_mod i w ltac:(lia)).
  assert (0 <= i / w) by (apply Z.div_pos; lia).
  assert (i / w < h) by (apply Z.div_lt_upper_bound; lia).
  lia.
Qed.

(** ** Binary morphology *)

Lemma erodeMask_fill (mask : list bool) (w h k : Z) :
  erodeMask mask w h k = fill_mask w h (erode_test mask w h (k / 2)) (new_mask (len mask)).
Proof. reflexivity. Qed.

Lemma dilateMask_fill (mask : list bool) (w h k : Z) :
  dilateMask mask w h k = fill_mask w h (dilate_test mask w h (k / 2)) (new_mask (len mask)).
Proof. reflexivity. Qed.

Lemma fill_mask_spec (w h : Z) (test : Z -> Z -> bool) (n : Z) :
  0 <= w -> 0 <= h -> n = h * w ->
  length (fill_mask w h test (new_mask n)) = Z.to_nat n /\
  (forall x y, 0 <= x < w -> 0 <= y < h ->
     arr_get (fill_mask w h test (new_mask n)) (y * w + x) = test y x).
Proof.
  intros Hw Hh Hn.
  set (P := fun (k : Z) (m : list bool) =>
    length m = Z.to_nat n /\
    (forall x y, 0 <= x < w -> 0 <= y < h ->
       arr_get m (y * w + x) = if y * w + x <? k then test y x else false)).
  assert (HP : P (h * w) (fill_mask w h test (new_mask n))).
  { unfold fill_mask.
    apply (raster_ind P w h
             (fun y x out => if test y x then arr_set out (y * w + x) true else out));
      try assumption.
    - split; [apply new_mask_length|]. intros x y Hx Hy.
      rewrite arr_get_new_mask.
      pose proof (raster_index_bound w h x y Hx Hy).
      destruct (Z.ltb_spec (y * w + x) 0); [lia | reflexivity].
    - intros x0 y0 m Hx0 Hy0 [Hlen Hm].
      pose proof (raster_index_bound w h x0 y0 Hx0 Hy0) as Hb.
      assert (Hr : 0 <= y0 * w + x0 < len m) by (unfold len; lia).
      split.
      + destruct (test y0 x0); [rewrite arr_set_length|]; assumption.
      + intros x y Hx Hy.
        destruct (Z.eq_dec (y * w + x) (y0 * w + x0)) as [E|Hne].
        * destruct (raster_index_inj w x y x0 y0 Hx Hx0 E) as [-> ->].
          destruct (Z.ltb_spec (y0 * w + x0) (y0 * w + x0 + 1)); [|lia].
          destruct (test y0 x0) eqn:T.
          -- now apply arr_get_set_same.
          -- rewrite Hm by assumption.
             destruct (Z.ltb_spec (y0 * w + x0) (y0 * w + x0)); [lia | reflexivity].
        * replace (arr_get (if test y0 x0 then arr_set m (y0 * w + x0) true else m) (y * w + x))
            with (arr_get m (y * w + x))
            by (destruct (test y0 x0); [symmetry; apply arr_get_set_other; auto | reflexivity]).
          rewrite Hm by assumption.
          destruct (Z.ltb_spec (y * w + x) (y0 * w + x0));
            destruct (Z.ltb_spec (y * w + x) (y0 * w + x0 + 1)); try reflexivity; lia. }
  destruct HP as [Hlen Hm]. split; [exact Hlen|].
  intros x y Hx Hy. rewrite Hm by assumption.
  pose proof (raster_index_bound w h x y Hx Hy).
  destruct (Z.ltb_spec (y * w + x) (h * w)); [reflexivity | lia].
Qed.

Lemma erode_test_true (mask : list bool) (w h r y x : Z) :
  erode_test mask w h r y x = true <->
  (forall kx ky, in_window w h x y r kx ky -> arr_get mask (ky * w + kx) = true).
Proof.
  unfold erode_test, in_window.
  match goal with |- context [for_exit ?a ?b (fun ky => for_exit ?c ?d (fun kx => @?f ky kx))] =>
    pose proof (for_exit2_none a b c d f) as HN;
    pose proof (for_exit2_some a b c d f) as HS;
    cbv beta in HN, HS;
    destruct (for_exit a b (fun ky => for_exit c d (fun kx => f ky kx))) as [b0|] eqn:E
  end; cbv beta in E; try rewrite E.
  - destruct (HS b0 eq_refl) as (ky & kx & Hy & Hx & Hb).
    destruct (arr_get mask (ky * w + kx)) eqn:G; simpl in Hb; [discriminate|].
    injection Hb as <-. split; [discriminate|].
    intros H. rewrite H in G by auto. discriminate.
  - split; [|reflexivity]. intros _ kx ky [Hy Hx].
    destruct HN as [HN _]. specialize (HN eq_refl ky kx Hy Hx).
    destruct (arr_get mask (ky * w + kx)); [reflexivity | discriminate].
Qed.

Lemma dilate_test_true (mask : list bool) (w h r y x : Z) :
  dilate_test mask w h r y x = true <->
  (exists kx ky, in_window w h x y r kx ky /\ arr_get mask (ky * w + kx) = true).
Proof.
  unfold dilate_test, in_window.
  match goal with |- context [for_exit ?a ?b (fun ky => for_exit ?c ?d (fun kx => @?f ky kx))] =>
    pose proof (for_exit2_none a b c d f) as HN;
    pose proof (for_exit2_some a b c d f) as HS;
    cbv beta in HN, HS;
    destruct (for_exit a b (fun ky => for_exit c d (fun kx => f ky kx))) as [b0|] eqn:E
  end; cbv beta in E; try rewrite E.
  - destruct (HS b0 eq_refl) as (ky & kx & Hy & Hx & Hb).
    destruct (arr_get mask (ky * w + kx)) eqn:G; [|discriminate].
    injection Hb as <-. split; [|reflexivity]. intros _. exists kx, ky. auto.
  - split; [discriminate|]. intros (kx & ky & [Hy Hx] & G).
    destruct HN as [HN _]. specialize (HN eq_refl ky kx Hy Hx).
    rewrite G in HN. discriminate.
Qed.

Lemma in_window_bounds (w h x y r kx ky : Z) :
  in_window w h x y r kx ky -> 0 <= kx < w /\ 0 <= ky < h.
Proof. unfold in_window. lia. Qed.

Lemma in_window_sym (w h x y r kx ky : Z) :
  0 <= x < w -> 0 <= y < h ->
  in_window w h x y r kx ky -> in_window w h kx ky r x y.
Proof. unfold in_window. lia. Qed.

Lemma in_window_center (w h x y r : Z) :
  0 <= x < w -> 0 <= y < h -> 0 <= r -> in_window w h x y r x y.
Proof. unfold in_window. lia. Qed.

Section Morphology.
Variables (mask : list bool) (w h k : Z).
Hypothesis Hw : 0 <= w.
Hypothesis Hh : 0 <= h.
Hypothesis Hlen : len mask = h * w.

Lemma erodeMask_length : length (erodeMask mask w h k) = length mask.
Proof.
  rewrite erodeMask_fill.
  destruct (fill_mask_spec w h (erode_test mask w h (k / 2)) (len mask) Hw Hh Hlen) as [E _].
  rewrite E. unfold len. lia.
Qed.

Lemma erodeMask_get (x y : Z) :
  0 <= x < w -> 0 <= y < h ->
  arr_get (erodeMask mask w h k) (y * w + x) = erode_test mask w h (k / 2) y x.
Proof.
  rewrite erodeMask_fill.
  destruct (fill_mask_spec w h (erode_test mask w h (k / 2)) (len mask) Hw Hh Hlen) as [_ E].
  apply E.
Qed.

Lemma dilateMask_length : length (dilateMask mask w h k) = length mask.
Proof.
  rewrite dilateMask_fill.
  destruct (fill_mask_spec w h (dilate_test mask w h (k / 2)) (len mask) Hw Hh Hlen) as [E _].
  rewrite E. unfold len. lia.
Qed.

Lemma dilateMask_get (x y : Z) :
  0 <= x < w -> 0 <= y < h ->
  arr_get (dilateMask mask w h k) (y * w + x) = dilate_test mask w h (k / 2) y x.
Proof.
  rewrite dilateMask_fill.
  destruct (fill_mask_spec w h (dilate_test mask w h (k / 2)) (len mask) Hw Hh Hlen) as [_ E].
  apply E.
Qed.

End Morphology.

Section Opening.
Variables (mask : list bool) (w h k : Z).
Hypothesis Hw : 0 <= w.
Hypothesis Hh : 0 <= h.
Hypothesis Hlen : len mask = h * w.

Lemma erodeMask_len : len (erodeMask mask w h k) = h * w.
Proof. unfold len. rewrite erodeMask_length by assumption. exact Hlen. Qed.

Lemma morphologicalOpenMask_length :
  length (morphologicalOpenMask mask w h k) = length mask.
Proof.
  unfold morphologicalOpenMask.
  rewrite dilateMask_length; auto using erodeMask_len. now apply erodeMask_length.
Qed.

Lemma morphologicalOpenMask_len : len (morphologicalOpenMask mask w h k) = h * w.
Proof. unfold len. rewrite morphologicalOpenMask_length. exact Hlen. Qed.

(** A pixel survives the opening when some window that contains it lies
    inside the mask (as far as the window lies inside the raster). *)
Lemma morphologicalOpenMask_get_true (x y : Z) :
  0 <= x < w -> 0 <= y < h ->
  (arr_get (morphologicalOpenMask mask w h k) (y * w + x) = true <->
   exists qx qy, in_window w h x y (k / 2) qx qy /\
     forall kx ky, in_window w h qx qy (k / 2) kx ky -> arr_get mask (ky * w + kx) = true).
Proof.
  intros Hx Hy. unfold morphologicalOpenMask.
  rewrite dilateMask_get by auto using erodeMask_len.
  rewrite dilate_test_true. split.
  - intros (qx & qy & Hq & E). exists qx, qy. split; [exact Hq|].
    destruct (in_window_bounds _ _ _ _ _ _ _ Hq) as [Hqx Hqy].
    rewrite erodeMask_get in E by assumption. now apply erode_test_true.
  - intros (qx & qy & Hq & E). exists qx, qy. split; [exact Hq|].
    destruct (in_window_bounds _ _ _ _ _ _ _ Hq) as [Hqx Hqy].
    rewrite erodeMask_get by assumption. now apply erode_test_true.
Qed.

(** Opening only removes pixels. *)
Lemma morphologicalOpenMask_subset (x y : Z) :
  0 <= x < w -> 0 <= y < h ->
  arr_get (morphologicalOpenMask mask w h k) (y * w + x) = true ->
  arr_get mask (y * w + x) = true.
Proof.
  intros Hx Hy H. apply morphologicalOpenMask_get_true in H; try assumption.
  destruct H as (qx & qy & Hq & E). apply E. now apply in_window_sym.
Qed.

End Opening.

Lemma morphologicalOpenMask_idem (mask : list bool) (w h k : Z) :
  0 <= w -> 0 <= h -> len mask = h * w ->
  morphologicalOpenMask (morphologicalOpenMask mask w h k) w h k =
  morphologicalOpenMask mask w h k.
Proof.
  intros Hw Hh Hlen.
  pose proof (morphologicalOpenMask_len mask w h k Hw Hh Hlen) as Hlen1.
  apply arr_ext.
  - now apply morphologicalOpenMask_length.
  - intros i Hi. rewrite (morphologicalOpenMask_len _ w h k Hw Hh Hlen1) in Hi.
    destruct (raster_index_split w h i Hi Hw) as (Hx & Hy & ->).
    set (x := i mod w) in *. set (y := i / w) in *.
    apply eq_true_iff_eq. split.
    + now apply morphologicalOpenMask_subset.
    + intros H. apply morphologicalOpenMask_get_true; try assumption.
      apply morphologicalOpenMask_get_true in H; try assumption.
      destruct H as (qx & qy & Hq & E). exists qx, qy. split; [exact Hq|].
      destruct (in_window_bounds _ _ _ _ _ _ _ Hq) as [Hqx Hqy].
      intros kx ky Hk.
      destruct (in_window_bounds _ _ _ _ _ _ _ Hk) as [Hkx Hky].
      apply morphologicalOpenMask_get_true; try assumption.
      exists qx, qy. split; [now apply in_window_sym | exact E].
Qed.

(** ** Proximity test *)

Lemma isNearBlackPixelOptimized_true (blackPixelsMask : list bool) (w h x y s : Z) :
  isNearBlackPixelOptimized blackPixelsMask w h x y s = true <->
  exists kx ky, in_window w h x y (s / 2) kx ky /\
    (kx - x) * (kx - x) + (ky - y) * (ky - y) <= (s / 2) * (s / 2) /\
    arr_get blackPixelsMask (ky * w + kx) = true.
Proof.
  unfold isNearBlackPixelOptimized, in_window. cbv zeta.
  match goal with |- context [for_exit ?a ?b (fun ky => for_exit ?c ?d (fun kx => @?f ky kx))] =>
    pose proof (for_exit2_none a b c d f) as HN;
    pose proof (for_exit2_some a b c d f) as HS;
    cbv beta in HN, HS;
    destruct (for_exit a b (fun ky => for_exit c d (fun kx => f ky kx))) as [b0|] eqn:E
  end; cbv beta in E; try rewrite E.
  - destruct (HS b0 eq_refl) as (ky & kx & Hy & Hx & Hb).
    destruct (Z.ltb_spec (s / 2 * (s / 2)) ((kx - x) * (kx - x) + (ky - y) * (ky - y)));
      [discriminate|].
    destruct (arr_get blackPixelsMask (ky * w + kx)) eqn:G; [|discriminate].
    injection Hb as <-. split; [|reflexivity]. intros _. exists kx, ky. auto.
  - split; [discriminate|]. intros (kx & ky & [Hy Hx] & Hd & G).
    destruct HN as [HN _]. specialize (HN eq_refl ky kx Hy Hx).
    destruct (Z.ltb_spec (s / 2 * (s / 2)) ((kx - x) * (kx - x) + (ky - y) * (ky - y)));
      [lia|].
    rewrite G in HN. discriminate.
Qed.

(** ** Counting *)

Lemma count_true_nonneg (m : list bool) : 0 <= count_true m.
Proof. induction m as [|[] m IH]; cbn [count_true]; lia. Qed.

Lemma count_true_repeat_false (n : nat) : count_true (repeat false n) = 0.
Proof. induction n as [|n IH]; cbn [count_true repeat]; lia. Qed.

Lemma count_true_replace_nth (v : bool) :
  forall (l : list bool) (n : nat),
    (n < length l)%nat ->
    count_true (replace_nth n l v) + (if nth n l false then 1 else 0) =
    count_true l + (if v then 1 else 0).
Proof.
  induction l as [|a l IH]; intros [|n] H; cbn [count_true replace_nth nth length] in *; try lia.
  specialize (IH n ltac:(lia)). lia.
Qed.

Lemma count_true_arr_set (m : list bool) (i : Z) (v : bool) :
  0 <= i < len m -> arr_get m i = false ->
  count_true (arr_set m i v) = count_true m + (if v then 1 else 0).
Proof.
  unfold arr_get, arr_set, len. intros H G.
  destruct (Z.ltb_spec i 0); [lia|].
  destruct (Nat.ltb_spec (Z.to_nat i) (length m)); [|lia].
  pose proof (count_true_replace_nth v m (Z.to_nat i) ltac:(lia)) as E.
  rewrite G in E. lia.
Qed.

Lemma count_upto_ext (f g : Z -> bool) :
  forall n, (forall i, 0 <= i < Z.of_nat n -> f i = g i) -> count_upto f n = count_upto g n.
Proof.
  induction n as [|n IH]; intros H; cbn [count_upto]; [reflexivity|].
  rewrite IH by (intros; apply H; lia). rewrite (H (Z.of_nat n)) by lia. reflexivity.
Qed.

Lemma count_upto_zero (f : Z -> bool) :
  forall n, (forall i, 0 <= i < Z.of_nat n -> f i = false) -> count_upto f n = 0.
Proof.
  induction n as [|n IH]; intros H; cbn [count_upto]; [reflexivity|].
  rewrite IH by (intros; apply H; lia). rewrite (H (Z.of_nat n)) by lia. reflexivity.
Qed.

(** Counting a disjunction of two tests that never hold together. *)
Lemma count_upto_disjoint (f g : Z -> bool) :
  forall n, (forall i, 0 <= i < Z.of_nat n -> f i = true -> g i = false) ->
            count_upto (fun i => f i || g i) n = count_upto f n + count_upto g n.
Proof.
  induction n as [|n IH]; intros H; cbn [count_upto]; [reflexivity|].
  rewrite IH by (intros; apply H; [lia | assumption]).
  specialize (H (Z.of_nat n) ltac:(lia)).
  destruct (f (Z.of_nat n)); [rewrite H by reflexivity|]; cbn [orb]; destruct (g (Z.of_nat n)); lia.
Qed.

Lemma count_true_app (a b : list bool) : count_true (a ++ b) = count_true a + count_true b.
Proof. induction a as [|x a IH]; cbn [count_true app]; lia. Qed.

(** The two ways of counting the entries of a mask agree. *)
Lemma count_true_upto (m : list bool) : count_true m = count_upto (arr_get m) (length m).
Proof.
  induction m as [|b m IH] using rev_ind; [reflexivity|].
  rewrite count_true_app, length_app. simpl length.
  replace (length m + 1)%nat with (Datatypes.S (length m)) by lia.
  cbn [count_upto count_true]. rewrite IH, Z.add_0_r. f_equal.
  - apply count_upto_ext. intros i Hi. unfold arr_get.
    destruct (Z.ltb_spec i 0); [reflexivity|]. rewrite app_nth1 by lia. reflexivity.
  - unfold arr_get. destruct (Z.ltb_spec (Z.of_nat (length m)) 0); [lia|].
    rewrite Nat2Z.id, nth_middle. reflexivity.
Qed.

(** ** The stages of the pipeline *)

Lemma paint3_get (a : list Z) (p r g b q c : Z) :
  0 <= p -> p * 4 + 3 < len a -> 0 <= c < 4 ->
  ta_get (ta_set (ta_set (ta_set a (p * 4) r) (p * 4 + 1) g) (p * 4 + 2) b) (q * 4 + c) =
  if (q =? p) && (c <? 3) then Some (channel_of r g b c) else ta_get a (q * 4 + c).
Proof.
  intros Hp Hlen Hc. unfold channel_of.
  destruct (Z.eqb_spec q p) as [->|Hne]; cbn [andb].
  - assert (Hcases : c = 0 \/ c = 1 \/ c = 2 \/ c = 3) by lia.
    destruct Hcases as [-> | [-> | [-> | ->]]]; cbn.
    + rewrite !ta_get_set_other by lia. rewrite Z.add_0_r. apply ta_get_set_same. lia.
    + rewrite ta_get_set_other by lia. apply ta_get_set_same. rewrite ta_set_len. lia.
    + apply ta_get_set_same. rewrite !ta_set_len. lia.
    + now rewrite !ta_get_set_other by lia.
  - rewrite !ta_get_set_other by lia. reflexivity.
Qed.

Lemma transparent_not_black params d hsv p :
  transparent_at d p = true -> is_black params d hsv p = false.
Proof. unfold is_black. now intros ->. Qed.

Lemma black_pass_spec (params : ProcessingParams) (d : list Z) (hsv : list HSV)
    (w h : Z) (vis0 : list Z) (st0 : Stats) (n : Z) :
  n = h * w -> len hsv = n -> len vis0 = 4 * n ->
  let r := black_pass params d hsv w h vis0 st0 in
  length (fst (fst r)) = Z.to_nat n /\
  (forall p, 0 <= p < n -> arr_get (fst (fst r)) p = is_black params d hsv p) /\
  len (snd (fst r)) = 4 * n /\
  (forall p c, 0 <= p < n -> 0 <= c < 4 ->
     ta_get (snd (fst r)) (p * 4 + c) =
     if is_black params d hsv p && (c <? 3) then Some (red c) else ta_get vis0 (p * 4 + c)) /\
  blackPixels (snd r) = blackPixels st0 + count_true (fst (fst r)) /\
  replacedPixels (snd r) = replacedPixels st0.
Proof.
  intros Hn Hhsv Hvis0.
  set (P := fun (k : Z) (st : list bool * list Z * Stats) =>
    let '(m, vis, s) := st in
    length m = Z.to_nat n /\
    (forall p, 0 <= p < n -> arr_get m p = if p <? k then is_black params d hsv p else false) /\
    len vis = 4 * n /\
    (forall p c, 0 <= p < n -> 0 <= c < 4 ->
       ta_get vis (p * 4 + c) =
       if (p <? k) && (is_black params d hsv p && (c <? 3)) then Some (red c)
       else ta_get vis0 (p * 4 + c)) /\
    blackPixels s = blackPixels st0 + count_true m /\
    replacedPixels s = replacedPixels st0).
  assert (HP : P n (black_pass params d hsv w h vis0 st0)).
  { unfold black_pass. rewrite Hhsv.
    apply (for_range_ind P).
    - rewrite <- Hhsv. apply len_nonneg.
    - unfold P. replace (w * h) with n by lia.
      split; [apply new_mask_length|]. split.
      { intros p Hp. rewrite arr_get_new_mask. ltb_cases. }
      split; [exact Hvis0|]. split.
      { intros p c Hp Hc. ltb_cases. }
      unfold new_mask. rewrite count_true_repeat_false. lia.
    - intros k [[m vis] s] Hk (Hlen & Hm & Hvl & Hv & Hb & Hr).
      assert (Hkm : 0 <= k < len m) by (unfold len; lia).
      pose proof (Hm k Hk) as Hmk. rewrite Z.ltb_irrefl in Hmk.
      cbv beta iota zeta.
      fold (transparent_at d k).
      destruct (transparent_at d k) eqn:T.
      + pose proof (transparent_not_black params d hsv k T) as Bk.
        unfold P. split; [exact Hlen|]. split.
        { intros p Hp. rewrite Hm by assumption.
          destruct (Z.eq_dec p k) as [->|]; [rewrite Bk|]; ltb_cases. }
        split; [exact Hvl|]. split.
        { intros p c Hp Hc. rewrite Hv by assumption.
          destruct (Z.eq_dec p k) as [->|]; [rewrite Bk|]; ltb_cases. }
        auto.
      + assert (Bk : is_black params d hsv k =
                     ((hsv_v (hsv_get hsv k) <? blackPixelBrightnessThreshold params)%float &&
                      (hsv_s (hsv_get hsv k) <? blackPixelSaturationThreshold params)%float))
          by (unfold is_black; rewrite T; reflexivity).
        rewrite <- Bk.
        destruct (is_black params d hsv k) eqn:B; unfold P.
        * split; [rewrite arr_set_length; assumption|]. split.
          { intros p Hp. destruct (Z.eq_dec p k) as [->|].
            - rewrite arr_get_set_same by assumption. rewrite B. ltb_cases.
            - rewrite arr_get_set_other by auto. rewrite Hm by assumption. ltb_cases. }
          split; [now rewrite !ta_set_len|]. split.
          { intros p c Hp Hc. rewrite (paint3_get vis k 255 0 0 p c) by lia.
            rewrite Hv by assumption. fold red.
            destruct (Z.eq_dec p k) as [->|]; [rewrite B|]; ltb_cases. }
          rewrite count_true_arr_set by assumption.
          cbn [incr_blackPixels blackPixels replacedPixels].
          lia.
        * split; [rewrite arr_set_length; assumption|]. split.
          { intros p Hp. destruct (Z.eq_dec p k) as [->|].
            - rewrite arr_get_set_same by assumption. rewrite B. ltb_cases.
            - rewrite arr_get_set_other by auto. rewrite Hm by assumption. ltb_cases. }
          split; [exact Hvl|]. split.
          { intros p c Hp Hc. rewrite Hv by assumption.
            destruct (Z.eq_dec p k) as [->|]; [rewrite B|]; ltb_cases. }
          rewrite count_true_arr_set by assumption. lia. }
  destruct (black_pass params d hsv w h vis0 st0) as [[m vis] s].
  destruct HP as (Hlen & Hm & Hvl & Hv & Hb & Hr). cbn [fst snd].
  split; [exact Hlen|]. split.
  { intros p Hp. rewrite Hm by assumption. ltb_cases. }
  split; [exact Hvl|]. split.
  { intros p c Hp Hc. rewrite Hv by assumption.
    destruct (Z.ltb_spec p n); [reflexivity | lia]. }
  auto.
Qed.

(** One step of a raster scan that sets the entry of the pixel it visits
    when [spec] holds of it. *)
Lemma raster_mask_step (spec : Z -> Z -> bool) (w h : Z) (m : list bool) (x0 y0 : Z) :
  0 <= x0 < w -> 0 <= y0 < h ->
  length m = Z.to_nat (h * w) ->
  (forall x y, 0 <= x < w -> 0 <= y < h ->
     arr_get m (y * w + x) = if y * w + x <? y0 * w + x0 then spec x y else false) ->
  let m' := if spec x0 y0 then arr_set m (y0 * w + x0) true else m in
  length m' = Z.to_nat (h * w) /\
  (forall x y, 0 <= x < w -> 0 <= y < h ->
     arr_get m' (y * w + x) = if y * w + x <? y0 * w + x0 + 1 then spec x y else false) /\
  count_true m' = count_true m + (if spec x0 y0 then 1 else 0).
Proof.
  intros Hx0 Hy0 Hlen Hm m'.
  pose proof (raster_index_bound w h x0 y0 Hx0 Hy0) as Hb.
  assert (Hr : 0 <= y0 * w + x0 < len m) by (unfold len; lia).
  pose proof (Hm x0 y0 Hx0 Hy0) as Hk. rewrite Z.ltb_irrefl in Hk.
  split; [|split].
  - subst m'. destruct (spec x0 y0); [rewrite arr_set_length|]; assumption.
  - intros x y Hx Hy.
    destruct (Z.eq_dec (y * w + x) (y0 * w + x0)) as [E|Hne].
    + destruct (raster_index_inj w x y x0 y0 Hx Hx0 E) as [-> ->].
      subst m'. destruct (spec x0 y0) eqn:T.
      * rewrite arr_get_set_same by assumption. ltb_cases.
      * rewrite Hk. ltb_cases.
    + replace (arr_get m' (y * w + x)) with (arr_get m (y * w + x))
        by (subst m'; destruct (spec x0 y0);
            [symmetry; apply arr_get_set_other; auto | reflexivity]).
      rewrite Hm by assumption. ltb_cases.
  - subst m'. destruct (spec x0 y0); [|lia].
    now apply count_true_arr_set.
Qed.

Lemma initial_pass_spec (params : ProcessingParams) (d : list Z) (hsv : list HSV)
    (w h : Z) (st0 : Stats) :
  0 <= w -> 0 <= h ->
  let r := initial_pass params d hsv w h st0 in
  length (fst r) = Z.to_nat (h * w) /\
  (forall x y, 0 <= x < w -> 0 <= y < h ->
     arr_get (fst r) (y * w + x) = is_initial params d hsv w h x y) /\
  blackPixels (snd r) = blackPixels st0 /\
  replacedPixels (snd r) = replacedPixels st0.
Proof.
  intros Hw Hh.
  set (P := fun (k : Z) (st : list bool * Stats) =>
    length (fst st) = Z.to_nat (h * w) /\
    (forall x y, 0 <= x < w -> 0 <= y < h ->
       arr_get (fst st) (y * w + x) =
       if y * w + x <? k then is_initial params d hsv w h x y else false) /\
    blackPixels (snd st) = blackPixels st0 /\
    replacedPixels (snd st) = replacedPixels st0).
  assert (HP : P (h * w) (initial_pass params d hsv w h st0)).
  { unfold initial_pass.
    eapply (raster_ind P w h); try assumption.
    - unfold P; cbn [fst snd]. replace (w * h) with (h * w) by lia.
      split; [apply new_mask_length|]. split; [|auto].
      intros x y Hx Hy. rewrite arr_get_new_mask.
      pose proof (raster_index_bound w h x y Hx Hy). ltb_cases.
    - intros x0 y0 [m s] Hx0 Hy0 (Hlen & Hm & Hb & Hr). cbn [fst snd] in *.
      pose proof (raster_mask_step (is_initial params d hsv w h) w h m x0 y0
                    Hx0 Hy0 Hlen Hm) as (Hlen' & Hm' & _).
      cbv beta iota zeta. rewrite Z.div_mul by lia.
      fold (transparent_at d (y0 * w + x0)).
      fold (is_bright params hsv (y0 * w + x0)).
      fold (is_low_saturation params hsv (y0 * w + x0)).
      fold (is_low_saturation_area params d hsv w h x0 y0).
      unfold is_initial in Hlen', Hm'.
      destruct (transparent_at d (y0 * w + x0));
        destruct (is_bright params hsv (y0 * w + x0));
        destruct (is_low_saturation params hsv (y0 * w + x0));
        destruct (is_low_saturation_area params d hsv w h x0 y0);
        cbn [andb negb] in *; unfold P; cbn [fst snd]; auto. }
  destruct HP as (Hlen & Hm & Hb & Hr). split; [exact Hlen|]. split; [|auto].
  intros x y Hx Hy. rewrite Hm by assumption.
  pose proof (raster_index_bound w h x y Hx Hy). ltb_cases.
Qed.

Lemma final_pass_spec (params : ProcessingParams) (w h : Z)
    (initial black : list bool) (vis0 : list Z) (st0 : Stats) :
  0 <= w -> 0 <= h -> len vis0 = 4 * (h * w) ->
  let r := final_pass params w h initial black vis0 st0 in
  length (fst (fst r)) = Z.to_nat (h * w) /\
  (forall x y, 0 <= x < w -> 0 <= y < h ->
     arr_get (fst (fst r)) (y * w + x) = is_final params initial black w h x y) /\
  len (snd (fst r)) = 4 * (h * w) /\
  (forall x y c, 0 <= x < w -> 0 <= y < h -> 0 <= c < 4 ->
     ta_get (snd (fst r)) ((y * w + x) * 4 + c) =
     if is_whitelisted params initial black w h x y && (c <? 3) then Some (blue c)
     else ta_get vis0 ((y * w + x) * 4 + c)) /\
  blackPixels (snd r) = blackPixels st0 /\
  replacedPixels (snd r) = replacedPixels st0 + count_true (fst (fst r)).
Proof.
  intros Hw Hh Hvis0.
  set (P := fun (k : Z) (st : list bool * list Z * Stats) =>
    length (fst (fst st)) = Z.to_nat (h * w) /\
    (forall x y, 0 <= x < w -> 0 <= y < h ->
       arr_get (fst (fst st)) (y * w + x) =
       if y * w + x <? k then is_final params initial black w h x y else false) /\
    len (snd (fst st)) = 4 * (h * w) /\
    (forall x y c, 0 <= x < w -> 0 <= y < h -> 0 <= c < 4 ->
       ta_get (snd (fst st)) ((y * w + x) * 4 + c) =
       if (y * w + x <? k) && (is_whitelisted params initial black w h x y && (c <? 3))
       then Some (blue c) else ta_get vis0 ((y * w + x) * 4 + c)) /\
    blackPixels (snd st) = blackPixels st0 /\
    replacedPixels (snd st) = replacedPixels st0 + count_true (fst (fst st))).
  assert (HP : P (h * w) (final_pass params w h initial black vis0 st0)).
  { unfold final_pass.
    eapply (raster_ind P w h); try assumption.
    - unfold P; cbn [fst snd]. replace (w * h) with (h * w) by lia.
      split; [apply new_mask_length|]. split.
      { intros x y Hx Hy. rewrite arr_get_new_mask.
        pose proof (raster_index_bound w h x y Hx Hy). ltb_cases. }
      split; [exact Hvis0|]. split.
      { intros x y c Hx Hy Hc.
        pose proof (raster_index_bound w h x y Hx Hy). ltb_cases. }
      unfold new_mask. rewrite count_true_repeat_false. lia.
    - intros x0 y0 [[m vis] s] Hx0 Hy0 (Hlen & Hm & Hvl & Hv & Hb & Hr).
      cbn [fst snd] in *.
      pose proof (raster_mask_step (is_final params initial black w h) w h m x0 y0
                    Hx0 Hy0 Hlen Hm) as (Hlen' & Hm' & Hc').
      pose proof (raster_index_bound w h x0 y0 Hx0 Hy0) as Hk0.
      assert (Hother : forall x y c, 0 <= x < w -> 0 <= y < h -> 0 <= c < 4 ->
                is_whitelisted params initial black w h x0 y0 = false ->
                ta_get vis ((y * w + x) * 4 + c) =
                if (y * w + x <? y0 * w + x0 + 1) &&
                   (is_whitelisted params initial black w h x y && (c <? 3))
                then Some (blue c) else ta_get vis0 ((y * w + x) * 4 + c)).
      { intros x y c Hx Hy Hc Hwl. rewrite Hv by assumption.
        destruct (Z.eq_dec (y * w + x) (y0 * w + x0)) as [E|Hne].
        - destruct (raster_index_inj w x y x0 y0 Hx Hx0 E) as [-> ->].
          rewrite Hwl. ltb_cases.
        - ltb_cases. }
      cbv beta iota zeta.
      fold (is_near_black params black w h x0 y0).
      unfold is_final in Hlen', Hm', Hc'.
      unfold is_whitelisted in Hother.
      destruct (arr_get initial (y0 * w + x0)) eqn:I; cbn [negb andb] in *.
      + destruct (is_near_black params black w h x0 y0) eqn:N; cbn [negb andb] in *;
          unfold P;
          cbn [fst snd incr_nearBlackPixels incr_replacedPixels replacedPixels blackPixels].
        * split; [exact Hlen'|]. split; [exact Hm'|].
          split; [now rewrite !ta_set_len|]. split; [|split; [exact Hb | lia]].
          intros x y c Hx Hy Hc.
          rewrite (paint3_get vis (y0 * w + x0) 0 0 255 (y * w + x) c) by lia.
          fold blue. rewrite Hv by assumption.
          destruct (Z.eq_dec (y * w + x) (y0 * w + x0)) as [E|Hne].
          -- destruct (raster_index_inj w x y x0 y0 Hx Hx0 E) as [-> ->].
             unfold is_whitelisted. rewrite I, N. ltb_cases.
          -- ltb_cases.
        * split; [exact Hlen'|]. split; [exact Hm'|].
          split; [exact Hvl|]. split; [|split; [exact Hb|]].
          -- intros x y c Hx Hy Hc. now apply Hother.
          -- cbn [incr_replacedPixels replacedPixels]. lia.
      + unfold P; cbn [fst snd].
        split; [exact Hlen'|]. split; [exact Hm'|].
        split; [exact Hvl|]. split; [|split; [exact Hb | lia]].
        intros x y c Hx Hy Hc. now apply Hother. }
  destruct HP as (Hlen & Hm & Hvl & Hv & Hb & Hr).
  split; [exact Hlen|]. split.
  { intros x y Hx Hy. rewrite Hm by assumption.
    pose proof (raster_index_bound w h x y Hx Hy). ltb_cases. }
  split; [exact Hvl|]. split; [|auto].
  intros x y c Hx Hy Hc. rewrite Hv by assumption.
  pose proof (raster_index_bound w h x y Hx Hy).
  destruct (Z.ltb_spec (y * w + x) (h * w)); [reflexivity | lia].
Qed.

Lemma paint4_get (a : list Z) (p q c : Z) :
  0 <= p -> p * 4 + 3 < len a -> 0 <= c < 4 ->
  ta_get (ta_set (ta_set (ta_set (ta_set a (p * 4) 0) (p * 4 + 1) 0) (p * 4 + 2) 0)
            (p * 4 + 3) 0) (q * 4 + c) =
  if q =? p then Some 0 else ta_get a (q * 4 + c).
Proof.
  intros Hp Hlen Hc.
  destruct (Z.eq_dec c 3) as [->|Hc3].
  - destruct (Z.eqb_spec q p) as [->|Hne].
    + apply ta_get_set_same. rewrite !ta_set_len. lia.
    + rewrite !ta_get_set_other by lia. reflexivity.
  - rewrite ta_get_set_other by lia. rewrite paint3_get by lia.
    unfold channel_of. ltb_cases.
Qed.

Lemma apply_pass_spec (opened : list bool) (res0 vis0 : list Z) (n : Z) :
  len opened = n -> len res0 = 4 * n -> len vis0 = 4 * n ->
  let r := apply_pass opened res0 vis0 in
  len (fst r) = 4 * n /\ len (snd r) = 4 * n /\
  (forall p c, 0 <= p < n -> 0 <= c < 4 ->
     ta_get (fst r) (p * 4 + c) =
     if arr_get opened p then Some 0 else ta_get res0 (p * 4 + c)) /\
  (forall p c, 0 <= p < n -> 0 <= c < 4 ->
     ta_get (snd r) (p * 4 + c) =
     if arr_get opened p && (c <? 3) then Some (green c) else ta_get vis0 (p * 4 + c)).
Proof.
  intros Hn Hres0 Hvis0.
  set (P := fun (k : Z) (st : list Z * list Z) =>
    len (fst st) = 4 * n /\ len (snd st) = 4 * n /\
    (forall p c, 0 <= p < n -> 0 <= c < 4 ->
       ta_get (fst st) (p * 4 + c) =
       if (p <? k) && arr_get opened p then Some 0 else ta_get res0 (p * 4 + c)) /\
    (forall p c, 0 <= p < n -> 0 <= c < 4 ->
       ta_get (snd st) (p * 4 + c) =
       if (p <? k) && (arr_get opened p && (c <? 3)) then Some (green c)
       else ta_get vis0 (p * 4 + c))).
  assert (HP : P n (apply_pass opened res0 vis0)).
  { unfold apply_pass. rewrite Hn.
    apply (for_range_ind P).
    - rewrite <- Hn. apply len_nonneg.
    - unfold P; cbn [fst snd]. repeat split; auto; intros; ltb_cases.
    - intros k [res vis] Hk (Hrl & Hvl & Hr & Hv). cbn [fst snd] in *.
      cbv beta iota zeta.
      destruct (arr_get opened k) eqn:O; unfold P; cbn [fst snd].
      + split; [now rewrite !ta_set_len|]. split; [now rewrite !ta_set_len|]. split.
        * intros p c Hp Hc. rewrite (paint4_get res k p c) by lia.
          rewrite Hr by assumption.
          destruct (Z.eq_dec p k) as [->|]; [rewrite O|]; ltb_cases.
        * intros p c Hp Hc. rewrite (paint3_get vis k 0 255 0 p c) by lia.
          fold green. rewrite Hv by assumption.
          destruct (Z.eq_dec p k) as [->|]; [rewrite O|]; ltb_cases.
      + split; [exact Hrl|]. split; [exact Hvl|]. split.
        * intros p c Hp Hc. rewrite Hr by assumption.
          destruct (Z.eq_dec p k) as [->|]; [rewrite O|]; ltb_cases.
        * intros p c Hp Hc. rewrite Hv by assumption.
          destruct (Z.eq_dec p k) as [->|]; [rewrite O|]; ltb_cases. }
  destruct HP as (Hrl & Hvl & Hr & Hv).
  split; [exact Hrl|]. split; [exact Hvl|]. split.
  - intros p c Hp Hc. rewrite Hr by assumption.
    destruct (Z.ltb_spec p n); [reflexivity | lia].
  - intros p c Hp Hc. rewrite Hv by assumption.
    destruct (Z.ltb_spec p n); [reflexivity | lia].
Qed.

Lemma new_samples_length (n : Z) : length (new_samples n) = Z.to_nat n.
Proof. apply repeat_length. Qed.

Lemma copy_pass_spec (d : list Z) : copy_pass d = (d, d).
Proof.
  set (P := fun (k : Z) (st : list Z * list Z) =>
    length (fst st) = length d /\ length (snd st) = length d /\
    (forall i, 0 <= i < k -> ta_get (fst st) i = ta_get d i) /\
    (forall i, 0 <= i < k -> ta_get (snd st) i = ta_get d i)).
  assert (HP : P (len d) (copy_pass d)).
  { unfold copy_pass. apply (for_range_ind P).
    - apply len_nonneg.
    - unfold P; cbn [fst snd]. rewrite new_samples_length. unfold len.
      repeat split; try lia; intros; lia.
    - intros k [res vis] Hk (Hrl & Hvl & Hr & Hv). cbn [fst snd] in *.
      destruct (ta_get_in_range d k Hk) as [v E]. rewrite E.
      unfold P; cbn [fst snd]. rewrite !ta_set_length.
      split; [exact Hrl|]. split; [exact Hvl|].
      split; intros i Hi; (destruct (Z.eq_dec i k) as [->|];
        [rewrite ta_get_set_same by (unfold len in *; lia); now rewrite E
        |rewrite ta_get_set_other by lia; first [apply Hr | apply Hv]; lia]). }
  destruct (copy_pass d) as [res vis]. destruct HP as (Hrl & Hvl & Hr & Hv).
  cbn [fst snd] in *. f_equal; apply ta_ext; auto.
  - intros i Hi. apply Hr. unfold len in *. lia.
  - intros i Hi. apply Hv. unfold len in *. lia.
Qed.

Lemma hsv_pass_spec (d : list Z) (n : Z) :
  len d = 4 * n ->
  len (hsv_pass d) = n /\
  (forall p, 0 <= p < n -> hsv_get (hsv_pass d) p = pixel_hsv d p).
Proof.
  intros Hd.
  assert (Hn : 0 <= n) by (pose proof (len_nonneg d); lia).
  set (P := fun (j : nat) (l : list HSV) =>
    length l = j /\
    (forall p, 0 <= p < Z.of_nat j -> hsv_get l p = pixel_hsv d p)).
  assert (HP : P (Z.to_nat n) (hsv_pass d)).
  { unfold hsv_pass, for_step. rewrite Hd.
    replace ((4 * n - 0 + 4 - 1) / 4) with n
      by (apply Z.div_unique with (r := 3); lia).
    pose proof (iter_ind P
      (fun i hsvValues =>
         hsvValues ++ [rgbToHsv (num_of_sample (ta_get d i))
                                (num_of_sample (ta_get d (i + 1)))
                                (num_of_sample (ta_get d (i + 2)))])
      0 4 (Z.to_nat n) 0 []) as H.
    cbn [Nat.add Z.of_nat Z.mul Z.add] in H. apply H.
    - split; [reflexivity|]. intros p Hp. lia.
    - intros j l Hj [Hl Hp]. split.
      + rewrite length_app. cbn [length]. lia.
      + intros p Hpj. unfold hsv_get. destruct (Z.ltb_spec p 0); [lia|].
        destruct (Z.eq_dec p (Z.of_nat j)) as [->|Hne].
        * rewrite Nat2Z.id, <- Hl, nth_middle. reflexivity.
        * rewrite app_nth1 by lia. specialize (Hp p ltac:(lia)).
          unfold hsv_get in Hp. destruct (Z.ltb_spec p 0); [lia | exact Hp]. }
  destruct HP as [Hl Hp]. split; [unfold len; lia|].
  intros p Hpn. apply Hp. lia.
Qed.

(** ** The pipeline on a well-formed raster *)

Section Pipeline.
Variable img : ImageData.
Variable params : ProcessingParams.
Hypothesis Hwf : well_formed img.

Local Lemma pipe_w : 0 <= width img.
Proof. apply Hwf. Qed.

Local Lemma pipe_h : 0 <= height img.
Proof. apply Hwf. Qed.

Local Lemma pipe_data : len (data img) = 4 * (height img * width img).
Proof. destruct Hwf as (_ & _ & E). rewrite E. lia. Qed.

Lemma pipe_hsv :
  len (hsvValues_of img) = height img * width img /\
  (forall p, 0 <= p < height img * width img ->
     hsv_get (hsvValues_of img) p = pixel_hsv (data img) p).
Proof. apply hsv_pass_spec. exact pipe_data. Qed.

Lemma pipe_black :
  length (blackPixelsMask_of img params) = Z.to_nat (height img * width img) /\
  (forall p, 0 <= p < height img * width img ->
     arr_get (blackPixelsMask_of img params) p =
     is_black params (data img) (hsvValues_of img) p) /\
  len (snd (fst (black_stage img params))) = 4 * (height img * width img) /\
  (forall p c, 0 <= p < height img * width img -> 0 <= c < 4 ->
     ta_get (snd (fst (black_stage img params))) (p * 4 + c) =
     if is_black params (data img) (hsvValues_of img) p && (c <? 3) then Some (red c)
     else ta_get (data img) (p * 4 + c)) /\
  blackPixels (snd (black_stage img params)) = count_true (blackPixelsMask_of img params) /\
  replacedPixels (snd (black_stage img params)) = 0.
Proof.
  unfold blackPixelsMask_of, black_stage. rewrite copy_pass_spec. cbn [snd].
  pose proof (black_pass_spec params (data img) (hsvValues_of img) (width img)
                (height img) (data img) (initial_stats params) (height img * width img)
                eq_refl (proj1 pipe_hsv) pipe_data) as H.
  cbv zeta in H. exact H.
Qed.

Lemma pipe_initial :
  length (initialMask_of img params) = Z.to_nat (height img * width img) /\
  (forall x y, 0 <= x < width img -> 0 <= y < height img ->
     arr_get (initialMask_of img params) (y * width img + x) =
     is_initial params (data img) (hsvValues_of img) (width img) (height img) x y) /\
  blackPixels (snd (initial_stage img params)) = count_true (blackPixelsMask_of img params) /\
  replacedPixels (snd (initial_stage img params)) = 0.
Proof.
  unfold initialMask_of, initial_stage.
  pose proof (initial_pass_spec params (data img) (hsvValues_of img) (width img) (height img)
                (snd (black_stage img params)) pipe_w pipe_h) as (H1 & H2 & H3 & H4).
  destruct pipe_black as (_ & _ & _ & _ & B & R).
  split; [exact H1|]. split; [exact H2|].
  split; [rewrite <- B; exact H3 | rewrite <- R; exact H4].
Qed.

Lemma pipe_final :
  length (finalMask_of img params) = Z.to_nat (height img * width img) /\
  (forall x y, 0 <= x < width img -> 0 <= y < height img ->
     arr_get (finalMask_of img params) (y * width img + x) =
     is_final params (initialMask_of img params) (blackPixelsMask_of img params)
       (width img) (height img) x y) /\
  len (snd (fst (final_stage img params))) = 4 * (height img * width img) /\
  (forall x y c, 0 <= x < width img -> 0 <= y < height img -> 0 <= c < 4 ->
     ta_get (snd (fst (final_stage img params))) ((y * width img + x) * 4 + c) =
     if is_whitelisted params (initialMask_of img params) (blackPixelsMask_of img params)
          (width img) (height img) x y && (c <? 3)
     then Some (blue c)
     else ta_get (snd (fst (black_stage img params))) ((y * width img + x) * 4 + c)) /\
  blackPixels (snd (final_stage img params)) = count_true (blackPixelsMask_of img params) /\
  replacedPixels (snd (final_stage img params)) = count_true (finalMask_of img params).
Proof.
  unfold finalMask_of, final_stage.
  destruct pipe_black as (_ & _ & V & _ & _ & _).
  pose proof (final_pass_spec params (width img) (height img) (initialMask_of img params)
                (blackPixelsMask_of img params) (snd (fst (black_stage img params)))
                (snd (initial_stage img params)) pipe_w pipe_h V)
    as (H1 & H2 & H3 & H4 & H5 & H6).
  destruct pipe_initial as (_ & _ & B & R).
  split; [exact H1|]. split; [exact H2|]. split; [exact H3|]. split; [exact H4|].
  split; [rewrite <- B; exact H5|].
  etransitivity; [exact H6|]. fold (initial_stage img params). rewrite R. apply Z.add_0_l.
Qed.

Lemma pipe_final_len : len (finalMask_of img params) = (height img) * (width img).
Proof.
  destruct pipe_final as (L & _). unfold len. rewrite L.
  pose proof pipe_w. pose proof pipe_h. nia.
Qed.

Lemma pipe_opened_len : len (openedMask_of img params) = height img * width img.
Proof.
  unfold openedMask_of.
  apply morphologicalOpenMask_len; auto using pipe_w, pipe_h, pipe_final_len.
Qed.

Lemma pipe_opened_subset (x y : Z) :
  0 <= x < width img -> 0 <= y < height img ->
  arr_get (openedMask_of img params) (y * width img + x) = true ->
  arr_get (finalMask_of img params) (y * width img + x) = true.
Proof.
  intros Hx Hy. unfold openedMask_of.
  apply morphologicalOpenMask_subset; auto using pipe_w, pipe_h, pipe_final_len.
Qed.

Lemma pipe_apply :
  len (fst (apply_stage img params)) = 4 * (height img * width img) /\
  len (snd (apply_stage img params)) = 4 * (height img * width img) /\
  (forall p c, 0 <= p < height img * width img -> 0 <= c < 4 ->
     ta_get (fst (apply_stage img params)) (p * 4 + c) =
     if arr_get (openedMask_of img params) p then Some 0 else ta_get (data img) (p * 4 + c)) /\
  (forall p c, 0 <= p < height img * width img -> 0 <= c < 4 ->
     ta_get (snd (apply_stage img params)) (p * 4 + c) =
     if arr_get (openedMask_of img params) p && (c <? 3) then Some (green c)
     else ta_get (snd (fst (final_stage img params))) (p * 4 + c)).
Proof.
  unfold apply_stage. rewrite copy_pass_spec. cbn [fst].
  destruct pipe_final as (_ & _ & V & _).
  exact (apply_pass_spec (openedMask_of img params) (data img)
           (snd (fst (final_stage img params))) (height img * width img)
           pipe_opened_len pipe_data V).
Qed.

End Pipeline.

(** ** Loops as folds over their range *)

Lemma iter_fold {S : Type} (body : Z -> S -> S) :
  forall (n : nat) (lo : Z) (s : S),
    iter n lo 1 body s =
    fold_left (fun t i => body i t) (map (fun i => lo + Z.of_nat i) (seq 0 n)) s.
Proof.
  induction n as [|n IH]; intros lo s; [reflexivity|].
  cbn [iter seq map fold_left]. rewrite IH, <- seq_shift, map_map.
  replace (lo + Z.of_nat 0) with lo by lia.
  f_equal. apply map_ext. intros i. lia.
Qed.

Lemma for_range_fold {S : Type} (lo hi : Z) (body : Z -> S -> S) (s : S) :
  for_range lo hi body s = fold_left (fun t i => body i t) (Zrange lo hi) s.
Proof. apply iter_fold. Qed.

Lemma In_Zrange (lo hi i : Z) : In i (Zrange lo hi) <-> lo <= i < hi.
Proof.
  unfold Zrange. rewrite in_map_iff. split.
  - intros (j & <- & Hj). apply in_seq in Hj. lia.
  - intros H. exists (Z.to_nat (i - lo)). split; [lia|]. apply in_seq. lia.
Qed.

Lemma Zrange_length (lo hi : Z) : len (Zrange lo hi) = Z.max 0 (hi - lo).
Proof. unfold len, Zrange. rewrite length_map, length_seq. lia. Qed.

Lemma fold_left_same {A S : Type} (f g : S -> A -> S) :
  (forall s a, f s a = g s a) ->
  forall (l : list A) (s : S), fold_left f l s = fold_left g l s.
Proof.
  intros H. induction l as [|a l IH]; intros s; [reflexivity|].
  cbn [fold_left]. rewrite H. apply IH.
Qed.

Lemma fold_left_rows {S : Type} (f : Z -> Z -> S -> S) (xs : list Z) :
  forall (ys : list Z) (s : S),
    fold_left (fun t ky => fold_left (fun u kx => f kx ky u) xs t) ys s =
    fold_left (fun t '(kx, ky) => f kx ky t)
      (flat_map (fun ky => map (fun kx => (kx, ky)) xs) ys) s.
Proof.
  induction ys as [|ky ys IH]; intros s; [reflexivity|].
  cbn [fold_left flat_map]. rewrite fold_left_app, IH. f_equal.
  clear. revert s. induction xs as [|kx xs IH]; intros s; [reflexivity|].
  cbn [fold_left map]. apply IH.
Qed.

Lemma flat_map_length_const {A B : Type} (f : A -> list B) (m : nat) :
  forall l, (forall a, length (f a) = m) -> length (flat_map f l) = (length l * m)%nat.
Proof.
  induction l as [|a l IH]; intros H; [reflexivity|].
  cbn [flat_map length]. rewrite length_app, H, IH by assumption. lia.
Qed.

(** ** Local mean saturation *)

Lemma In_window_cells (w h x y r kx ky : Z) :
  In (kx, ky) (window_cells w h x y r) <-> in_window w h x y r kx ky.
Proof.
  unfold window_cells, in_window. rewrite in_flat_map. split.
  - intros (ky' & Hy & Hin). apply in_map_iff in Hin. destruct Hin as (kx' & E & Hx).
    injection E as -> ->. apply In_Zrange in Hy, Hx. auto.
  - intros [Hy Hx]. exists ky. split; [now apply In_Zrange|].
    apply in_map_iff. exists kx. split; [reflexivity | now apply In_Zrange].
Qed.

Lemma window_cells_length (w h x y r : Z) :
  len (window_cells w h x y r) =
  Z.max 0 (Z.min h (y + r + 1) - Z.max 0 (y - r)) *
  Z.max 0 (Z.min w (x + r + 1) - Z.max 0 (x - r)).
Proof.
  unfold len, window_cells.
  rewrite (flat_map_length_const _
             (length (Zrange (Z.max 0 (x - r)) (Z.min w (x + r + 1)))))
    by (intros; apply length_map).
  rewrite Nat2Z.inj_mul. fold (len (Zrange (Z.max 0 (y - r)) (Z.min h (y + r + 1)))).
  fold (len (Zrange (Z.max 0 (x - r)) (Z.min w (x + r + 1)))).
  now rewrite !Zrange_length.
Qed.

Lemma mean_loop_fold (d : list Z) (hsv : list HSV) (w : Z) :
  forall (cells : list (Z * Z)) (total : number) (count : Z),
    fold_left
      (fun (t : number * Z) '(kx, ky) =>
         let '(totalSaturation, count) := t in
         (if sample_is_pos (ta_get d ((ky * w + kx) * 4 + 3))
          then (totalSaturation + hsv_s (hsv_get hsv ((ky * w + kx) * 4 / 4)))%float
          else totalSaturation, count + 1))
      cells (total, count) =
    (fold_left
       (fun acc '(kx, ky) =>
          if sample_is_pos (ta_get d ((ky * w + kx) * 4 + 3))
          then (acc + hsv_s (hsv_get hsv (ky * w + kx)))%float else acc)
       cells total,
     count + len cells).
Proof.
  induction cells as [|[kx ky] cells IH]; intros total count.
  - cbn [fold_left]. unfold len. cbn [length]. f_equal. lia.
  - cbn [fold_left]. rewrite IH, Z.div_mul by lia. f_equal.
    unfold len. cbn [length]. lia.
Qed.

Lemma calculateLocalMeanSaturation_clipped (d : list Z) (hsv : list HSV)
    (w h x y k : Z) :
  calculateLocalMeanSaturation d hsv w h x y k = clipped_mean d hsv w h x y k.
Proof.
  unfold calculateLocalMeanSaturation, clipped_mean. cbv zeta.
  rewrite for_range_fold.
  erewrite fold_left_same; [|intros s ky; rewrite for_range_fold; reflexivity].
  rewrite (fold_left_rows
    (fun kx ky (t : number * Z) =>
       let '(totalSaturation, count) := t in
       (if sample_is_pos (ta_get d ((ky * w + kx) * 4 + 3))
        then (totalSaturation + hsv_s (hsv_get hsv ((ky * w + kx) * 4 / 4)))%float
        else totalSaturation, count + 1))).
  fold (window_cells w h x y (k / 2)).
  rewrite mean_loop_fold. rewrite Z.add_0_l. reflexivity.
Qed.

(** ** From one mask to the next *)

Lemma is_near_black_center (params : ProcessingParams) (black : list bool) (w h x y : Z) :
  0 <= structuringElementSize params ->
  0 <= x < w -> 0 <= y < h ->
  arr_get black (y * w + x) = true ->
  is_near_black params black w h x y = true.
Proof.
  intros Hs Hx Hy Hb. unfold is_near_black.
  apply isNearBlackPixelOptimized_true. exists x, y.
  assert (0 <= structuringElementSize params / 2) by (apply Z.div_pos; lia).
  split; [now apply in_window_center|]. split; [nia | exact Hb].
Qed.

Section Chain.
Variable img : ImageData.
Variable params : ProcessingParams.
Hypothesis Hwf : well_formed img.
Variables x y : Z.
Hypothesis Hx : 0 <= x < width img.
Hypothesis Hy : 0 <= y < height img.

Lemma pixel_in_range : 0 <= y * width img + x < height img * width img.
Proof. apply raster_index_bound; assumption. Qed.

Lemma black_get :
  arr_get (blackPixelsMask_of img params) (y * width img + x) =
  is_black params (data img) (hsvValues_of img) (y * width img + x).
Proof.
  destruct (pipe_black img params Hwf) as (_ & H & _). apply H. exact pixel_in_range.
Qed.

Lemma initial_get :
  arr_get (initialMask_of img params) (y * width img + x) =
  is_initial params (data img) (hsvValues_of img) (width img) (height img) x y.
Proof. destruct (pipe_initial img params Hwf) as (_ & H & _). now apply H. Qed.

Lemma final_get :
  arr_get (finalMask_of img params) (y * width img + x) =
  is_final params (initialMask_of img params) (blackPixelsMask_of img params)
    (width img) (height img) x y.
Proof. destruct (pipe_final img params Hwf) as (_ & H & _). now apply H. Qed.

Lemma opened_final :
  arr_get (openedMask_of img params) (y * width img + x) = true ->
  arr_get (finalMask_of img params) (y * width img + x) = true.
Proof. now apply pipe_opened_subset. Qed.

Lemma final_initial :
  arr_get (finalMask_of img params) (y * width img + x) = true ->
  arr_get (initialMask_of img params) (y * width img + x) = true.
Proof.
  rewrite final_get. unfold is_final. intros H.
  apply andb_true_iff in H. apply H.
Qed.

Lemma final_not_whitelisted :
  arr_get (finalMask_of img params) (y * width img + x) = true ->
  blue_rule img params x y = false.
Proof.
  rewrite final_get. unfold is_final, blue_rule, is_whitelisted. intros H.
  apply andb_true_iff in H. destruct H as [-> H].
  apply negb_true_iff in H. now rewrite H.
Qed.

Lemma initial_not_transparent :
  arr_get (initialMask_of img params) (y * width img + x) = true ->
  transparent_at (data img) (y * width img + x) = false.
Proof.
  rewrite initial_get. unfold is_initial. intros H.
  apply andb_true_iff in H. destruct H as [H _]. now apply negb_true_iff in H.
Qed.

Lemma opened_not_transparent :
  arr_get (openedMask_of img params) (y * width img + x) = true ->
  transparent_at (data img) (y * width img + x) = false.
Proof. intros H. now apply initial_not_transparent, final_initial, opened_final. Qed.

Lemma black_not_final :
  0 <= structuringElementSize params ->
  arr_get (blackPixelsMask_of img params) (y * width img + x) = true ->
  arr_get (finalMask_of img params) (y * width img + x) = false.
Proof.
  intros Hs Hb. rewrite final_get. unfold is_final.
  rewrite (is_near_black_center params _ _ _ x y Hs Hx Hy Hb).
  apply andb_false_r.
Qed.

Lemma cleaned_get (c : Z) :
  0 <= c < 4 ->
  ta_get (data (processedImage (processImage img params))) ((y * width img + x) * 4 + c) =
  if arr_get (openedMask_of img params) (y * width img + x) then Some 0
  else ta_get (data img) ((y * width img + x) * 4 + c).
Proof.
  intros Hc. destruct (pipe_apply img params Hwf) as (_ & _ & H & _).
  apply H; [exact pixel_in_range | exact Hc].
Qed.

Lemma visualization_get (c : Z) :
  0 <= c < 4 ->
  ta_get (data (visualizationImage (processImage img params))) ((y * width img + x) * 4 + c) =
  if c <? 3 then
    if green_rule img params x y then Some (green c)
    else if blue_rule img params x y then Some (blue c)
    else if red_rule img params x y then Some (red c)
    else ta_get (data img) ((y * width img + x) * 4 + c)
  else ta_get (data img) ((y * width img + x) * 4 + c).
Proof.
  intros Hc. unfold green_rule, blue_rule, red_rule.
  destruct (pipe_apply img params Hwf) as (_ & _ & _ & HA).
  destruct (pipe_final img params Hwf) as (_ & _ & _ & HF & _).
  destruct (pipe_black img params Hwf) as (_ & HB & _ & HV & _).
  cbn [processImage visualizationImage data].
  rewrite HA by (exact pixel_in_range || exact Hc).
  rewrite HF by assumption.
  rewrite HV by (exact pixel_in_range || exact Hc).
  rewrite <- HB by exact pixel_in_range.
  destruct (c <? 3); rewrite ?andb_false_r, ?andb_true_r; reflexivity.
Qed.

Lemma cleaned_transparent :
  transparent_at (data (processedImage (processImage img params))) (y * width img + x) =
  arr_get (openedMask_of img params) (y * width img + x) ||
  transparent_at (data img) (y * width img + x).
Proof.
  unfold transparent_at. rewrite cleaned_get by lia.
  now destruct (arr_get (openedMask_of img params) (y * width img + x)).
Qed.

End Chain.

(** ** Rasters without a visible pixel *)

Lemma pixel_coords (w h p : Z) :
  0 <= w -> 0 <= p < h * w ->
  exists x y, 0 <= x < w /\ 0 <= y < h /\ p = y * w + x.
Proof.
  intros Hw Hp. destruct (raster_index_split w h p Hp Hw) as (Hx & Hy & E).
  exists (p mod w), (p / w). auto.
Qed.

Lemma morphologicalOpenMask_empty (w h k : Z) :
  0 <= w -> 0 <= h ->
  morphologicalOpenMask (new_mask (w * h)) w h k = new_mask (w * h).
Proof.
  intros Hw Hh.
  assert (Hlen : len (new_mask (w * h)) = h * w)
    by (unfold len; rewrite new_mask_length; nia).
  apply arr_ext.
  - now apply morphologicalOpenMask_length.
  - intros i Hi. rewrite (morphologicalOpenMask_len _ w h k Hw Hh Hlen) in Hi.
    destruct (pixel_coords w h i Hw Hi) as (x & y & Hx & Hy & ->).
    rewrite arr_get_new_mask.
    destruct (arr_get (morphologicalOpenMask (new_mask (w * h)) w h k) (y * w + x)) eqn:E;
      [|reflexivity].
    apply morphologicalOpenMask_subset in E; try assumption.
    now rewrite arr_get_new_mask in E.
Qed.

Section AllTransparent.
Variable params : ProcessingParams.
Variables (d : list Z) (w h : Z).
Hypothesis Hw : 0 <= w.
Hypothesis Hh : 0 <= h.
Hypothesis Htransparent : forall p, 0 <= p < h * w -> transparent_at d p = true.

Lemma black_pass_transparent (hsv : list HSV) (vis : list Z) (st : Stats) :
  len hsv = h * w ->
  black_pass params d hsv w h vis st = (new_mask (w * h), vis, st).
Proof.
  intros Hhsv. unfold black_pass. apply for_range_skip. intros k Hk.
  cbv beta iota zeta. fold (transparent_at d k).
  rewrite Htransparent by lia. reflexivity.
Qed.

Lemma initial_pass_transparent (hsv : list HSV) (st : Stats) :
  initial_pass params d hsv w h st = (new_mask (w * h), st).
Proof.
  unfold initial_pass. apply for_range_skip. intros y Hy.
  apply for_range_skip. intros x Hx.
  cbv beta iota zeta. fold (transparent_at d (y * w + x)).
  rewrite Htransparent by (apply raster_index_bound; lia). reflexivity.
Qed.

Lemma final_pass_empty (black : list bool) (vis : list Z) (st : Stats) :
  final_pass params w h (new_mask (w * h)) black vis st = (new_mask (w * h), vis, st).
Proof.
  unfold final_pass. apply for_range_skip. intros y Hy.
  apply for_range_skip. intros x Hx.
  cbv beta iota zeta. rewrite arr_get_new_mask. reflexivity.
Qed.

Lemma apply_pass_empty (res vis : list Z) :
  apply_pass (new_mask (w * h)) res vis = (res, vis).
Proof.
  unfold apply_pass. apply for_range_skip. intros k Hk.
  cbv beta iota zeta. rewrite arr_get_new_mask. reflexivity.
Qed.

End AllTransparent.

Lemma processImage_all_transparent (img : ImageData) (params : ProcessingParams) :
  well_formed img ->
  (forall p, 0 <= p < width img * height img -> transparent_at (data img) p = true) ->
  processImage img params =
  {| processedImage := img; visualizationImage := img; stats := initial_stats params |}.
Proof.
  intros Hwf Ht. pose proof Hwf as (Hw & Hh & Hd).
  assert (Ht' : forall p, 0 <= p < height img * width img ->
                          transparent_at (data img) p = true)
    by (intros p Hp; apply Ht; lia).
  destruct (pipe_hsv img Hwf) as [Hhsv _].
  unfold processImage, apply_stage, openedMask_of, finalMask_of, final_stage,
    initialMask_of, initial_stage, blackPixelsMask_of, black_stage.
  rewrite copy_pass_spec. cbn [fst snd].
  rewrite (black_pass_transparent params _ _ _ Ht' _ _ _ Hhsv). cbn [fst snd].
  rewrite (initial_pass_transparent params _ _ _ Ht'). cbn [fst snd].
  rewrite final_pass_empty. cbn [fst snd].
  rewrite morphologicalOpenMask_empty by assumption.
  rewrite apply_pass_empty. cbn [fst snd].
  destruct img; reflexivity.
Qed.

(** * The properties of the specification *)

(** ** Manual whitelist *)

Lemma processImageWithParams_ignores_mask (img : ImageData) (ps : ProcessingParams)
    (m : option (list bool)) :
  processImageWithParams img {| parameters := ps; manualWhitelistMask := m |} =
  processImage img ps.
Proof. reflexivity. Qed.

(** C1. Whitelist override, on the code: a single opaque white pixel that the
    manual whitelist mask marks is still made transparent in the cleaned
    raster (its alpha goes from 255 to 0); the mask that the caller passes
    along with the parameters is not read. *)
Theorem manual_whitelist_not_applied :
  manualWhitelistMask whitelisted_params = Some [true] /\
  ta_get (data white_1x1) 3 = Some 255 /\
  ta_get (data (processedImage (processImageWithParams white_1x1 whitelisted_params))) 3
  = Some 0.
Proof. vm_compute. repeat split. Qed.

(** ** Local mean saturation *)

(** C2. The local mean is not the zero-padded mean that the comments of
    [calculateLocalMeanSaturation] name ("OpenCV's blur behavior which uses
    zero padding", "counts all pixels in kernel"): on a single opaque red
    pixel with kernel size 3 the loops run over the one cell of the window
    that lies inside the raster, [count] is 1 and the code returns the
    pixel's saturation, 100, where the mean over the nine cells of the
    window, zero outside the raster, is 100 / 9. *)
Lemma local_mean_not_zero_padded :
  calculateLocalMeanSaturation (data red_1x1) (hsvValues_of red_1x1) 1 1 0 0 3 <>
  zero_padded_mean (data red_1x1) (hsvValues_of red_1x1) 1 1 0 0 3.
Proof.
  intros H. apply (f_equal (fun v => (v <? 50)%float)) in H.
  vm_compute in H. discriminate.
Qed.

(** What the loops compute instead. For [hsvValues] with an entry for
    every pixel of [data], as [processImage] builds them, the value returned
    for [(x, y)] is the sum of the saturations of the non-transparent pixels
    of the window clipped to the raster, divided by the number of pixels of
    the clipped window (samples outside the raster are counted neither in
    the sum nor in the divisor, transparent pixels inside it only in the
    divisor), and 0 when the clipped window is empty. *)
Theorem calculateLocalMeanSaturation_spec (d : list Z) (hsv : list HSV) (w h x y k : Z) :
  len d <= 4 * len hsv ->
  let r := k / 2 in
  let cells := window_cells w h x y r in
  calculateLocalMeanSaturation d hsv w h x y k =
    (if 0 <? len cells
     then (saturation_sum d hsv w cells / num_of_Z (len cells))%float
     else 0%float) /\
  (forall kx ky, In (kx, ky) cells <->
     (0 <= kx < w /\ 0 <= ky < h /\ x - r <= kx <= x + r /\ y - r <= ky <= y + r)) /\
  len cells =
    Z.max 0 (Z.min h (y + r + 1) - Z.max 0 (y - r)) *
    Z.max 0 (Z.min w (x + r + 1) - Z.max 0 (x - r)).
Proof.
  intros _. cbv zeta. split; [apply calculateLocalMeanSaturation_clipped|]. split.
  - intros kx ky. rewrite In_window_cells. unfold in_window. lia.
  - apply window_cells_length.
Qed.

Lemma calculateLocalMeanSaturation_spec_witness :
  len (data red_1x1) <= 4 * len (hsvValues_of red_1x1) /\
  (calculateLocalMeanSaturation (data red_1x1) (hsvValues_of red_1x1) 1 1 0 0 3 =
     (if 0 <? len (window_cells 1 1 0 0 (3 / 2))
      then (saturation_sum (data red_1x1) (hsvValues_of red_1x1) 1
              (window_cells 1 1 0 0 (3 / 2)) /
            num_of_Z (len (window_cells 1 1 0 0 (3 / 2))))%float
      else 0%float) /\
   (forall kx ky, In (kx, ky) (window_cells 1 1 0 0 (3 / 2)) <->
      (0 <= kx < 1 /\ 0 <= ky < 1 /\
       0 - 3 / 2 <= kx <= 0 + 3 / 2 /\ 0 - 3 / 2 <= ky <= 0 + 3 / 2)) /\
   len (window_cells 1 1 0 0 (3 / 2)) =
     Z.max 0 (Z.min 1 (0 + 3 / 2 + 1) - Z.max 0 (0 - 3 / 2)) *
     Z.max 0 (Z.min 1 (0 + 3 / 2 + 1) - Z.max 0 (0 - 3 / 2))).
Proof.
  assert (H : len (data red_1x1) <= 4 * len (hsvValues_of red_1x1))
    by (vm_compute; discriminate).
  split; [exact H|].
  exact (calculateLocalMeanSaturation_spec (data red_1x1) (hsvValues_of red_1x1)
           1 1 0 0 3 H).
Defined.

(** On that pixel the clipped window has one cell and the mean is the
    pixel's saturation. *)
Example local_mean_red_1x1 :
  calculateLocalMeanSaturation (data red_1x1) (hsvValues_of red_1x1) 1 1 0 0 3 = 100%float /\
  zero_padded_mean (data red_1x1) (hsvValues_of red_1x1) 1 1 0 0 3 =
    (100 / 9)%float.
Proof. vm_compute. split; reflexivity. Qed.

(** ** Proximity test *)


(** ** Morphological opening *)

(** C5. Opening a mask of a [w] by [h] raster twice with one kernel size
    gives the same mask as opening it once, for every kernel size (odd sizes
    from 3 on among them). *)
Theorem morphologicalOpenMask_idempotent (mask : list bool) (w h k : Z) :
  0 <= w -> 0 <= h -> len mask = w * h ->
  morphologicalOpenMask (morphologicalOpenMask mask w h k) w h k =
  morphologicalOpenMask mask w h k.
Proof.
  intros Hw Hh Hlen. apply morphologicalOpenMask_idem; try assumption. lia.
Qed.

Lemma morphologicalOpenMask_idempotent_witness :
  0 <= 4 /\ 0 <= 3 /\ len block_mask = 4 * 3 /\
  morphologicalOpenMask (morphologicalOpenMask block_mask 4 3 3) 4 3 3 =
  morphologicalOpenMask block_mask 4 3 3.
Proof.
  split; [lia|]. split; [lia|]. split; [reflexivity|].
  apply (morphologicalOpenMask_idempotent block_mask 4 3 3); [lia | lia | reflexivity].
Defined.

(** ** The masks of the pipeline *)

Lemma well_formed_1x1 (r g b a : Z) :
  well_formed {| width := 1; height := 1; data := [r; g; b; a] |}.
Proof. unfold well_formed, len. cbn. lia. Qed.

(** C4. Mask monotonicity: a pixel that the cleaned raster makes transparent
    is set in the opened mask, a pixel of the opened mask is set in the final
    mask, a pixel of the final mask is set in the initial mask, and a pixel
    of the initial mask passed the brightness, saturation and
    local-mean-saturation tests on the colour of that pixel. *)
Theorem mask_monotonicity (img : ImageData) (params : ProcessingParams) (x y : Z) :
  well_formed img -> 0 <= x < width img -> 0 <= y < height img ->
  let p := y * width img + x in
  let hsv := hsvValues_of img in
  (made_transparent img params x y -> arr_get (openedMask_of img params) p = true) /\
  (arr_get (openedMask_of img params) p = true ->
   arr_get (finalMask_of img params) p = true) /\
  (arr_get (finalMask_of img params) p = true ->
   arr_get (initialMask_of img params) p = true) /\
  (arr_get (initialMask_of img params) p = true ->
   is_bright params hsv p = true /\
   is_low_saturation params hsv p = true /\
   is_low_saturation_area params (data img) hsv (width img) (height img) x y = true) /\
  hsv_get hsv p = pixel_hsv (data img) p.
Proof.
  intros Hwf Hx Hy p hsv. split; [|split; [|split; [|split]]].
  - intros [Hc Hs]. rewrite (cleaned_transparent img params Hwf x y Hx Hy) in Hc.
    fold p in Hc, Hs. rewrite Hs, orb_false_r in Hc. exact Hc.
  - now apply opened_final.
  - now apply final_initial.
  - unfold p. rewrite (initial_get img params Hwf x y Hx Hy). unfold is_initial.
    fold p hsv. intros H.
    apply andb_true_iff in H. destruct H as [_ H].
    apply andb_true_iff in H. destruct H as [H H3].
    apply andb_true_iff in H. destruct H as [H1 H2]. auto.
  - destruct (pipe_hsv img Hwf) as [_ H]. apply H.
    now apply raster_index_bound.
Qed.

Lemma mask_monotonicity_witness :
  well_formed white_1x1 /\ 0 <= 0 < width white_1x1 /\ 0 <= 0 < height white_1x1 /\
  ((made_transparent white_1x1 defaultParams 0 0 ->
    arr_get (openedMask_of white_1x1 defaultParams) (0 * width white_1x1 + 0) = true) /\
   (arr_get (openedMask_of white_1x1 defaultParams) (0 * width white_1x1 + 0) = true ->
    arr_get (finalMask_of white_1x1 defaultParams) (0 * width white_1x1 + 0) = true) /\
   (arr_get (finalMask_of white_1x1 defaultParams) (0 * width white_1x1 + 0) = true ->
    arr_get (initialMask_of white_1x1 defaultParams) (0 * width white_1x1 + 0) = true) /\
   (arr_get (initialMask_of white_1x1 defaultParams) (0 * width white_1x1 + 0) = true ->
    is_bright defaultParams (hsvValues_of white_1x1) (0 * width white_1x1 + 0) = true /\
    is_low_saturation defaultParams (hsvValues_of white_1x1) (0 * width white_1x1 + 0) = true /\
    is_low_saturation_area defaultParams (data white_1x1) (hsvValues_of white_1x1)
      (width white_1x1) (height white_1x1) 0 0 = true) /\
   hsv_get (hsvValues_of white_1x1) (0 * width white_1x1 + 0) =
   pixel_hsv (data white_1x1) (0 * width white_1x1 + 0)).
Proof.
  split; [apply well_formed_1x1|]. split; [cbn; lia|]. split; [cbn; lia|].
  apply (mask_monotonicity white_1x1 defaultParams 0 0);
    [apply well_formed_1x1 | cbn; lia | cbn; lia].
Defined.

(** C6. Transparency preservation: a pixel whose source alpha is 0 is set in
    none of the black-pixel, initial, final and opened masks, and its four
    samples are the source's in the cleaned and in the visualization raster,
    so that its alpha is 0 in both. *)
Theorem transparency_preserved (img : ImageData) (params : ProcessingParams) (x y : Z) :
  well_formed img -> 0 <= x < width img -> 0 <= y < height img ->
  let p := y * width img + x in
  let r := processImage img params in
  transparent_at (data img) p = true ->
  arr_get (blackPixelsMask_of img params) p = false /\
  arr_get (initialMask_of img params) p = false /\
  arr_get (finalMask_of img params) p = false /\
  arr_get (openedMask_of img params) p = false /\
  (forall c, 0 <= c < 4 ->
     ta_get (data (processedImage r)) (p * 4 + c) = ta_get (data img) (p * 4 + c) /\
     ta_get (data (visualizationImage r)) (p * 4 + c) = ta_get (data img) (p * 4 + c)) /\
  transparent_at (data (processedImage r)) p = true /\
  transparent_at (data (visualizationImage r)) p = true.
Proof.
  intros Hwf Hx Hy p r Ht.
  assert (HB : arr_get (blackPixelsMask_of img params) p = false).
  { unfold p. rewrite (black_get img params Hwf x y Hx Hy). fold p.
    now apply transparent_not_black. }
  assert (HI : arr_get (initialMask_of img params) p = false).
  { destruct (arr_get (initialMask_of img params) p) eqn:E; [|reflexivity].
    apply (initial_not_transparent img params Hwf x y Hx Hy) in E.
    fold p in E. congruence. }
  assert (HF : arr_get (finalMask_of img params) p = false).
  { destruct (arr_get (finalMask_of img params) p) eqn:E; [|reflexivity].
    apply (final_initial img params Hwf x y Hx Hy) in E. fold p in E. congruence. }
  assert (HO : arr_get (openedMask_of img params) p = false).
  { destruct (arr_get (openedMask_of img params) p) eqn:E; [|reflexivity].
    apply (opened_final img params Hwf x y Hx Hy) in E. fold p in E. congruence. }
  assert (HW : blue_rule img params x y = false).
  { unfold blue_rule, is_whitelisted. fold p. now rewrite HI. }
  assert (HS : forall c, 0 <= c < 4 ->
     ta_get (data (processedImage r)) (p * 4 + c) = ta_get (data img) (p * 4 + c) /\
     ta_get (data (visualizationImage r)) (p * 4 + c) = ta_get (data img) (p * 4 + c)).
  { intros c Hc. split.
    - unfold r, p. rewrite (cleaned_get img params Hwf x y Hx Hy c Hc). fold p.
      now rewrite HO.
    - unfold r, p. rewrite (visualization_get img params Hwf x y Hx Hy c Hc).
      unfold green_rule, red_rule. fold p. rewrite HO, HW, HB.
      now destruct (c <? 3). }
  repeat split; try assumption; try apply HS; try lia.
  - unfold transparent_at. destruct (HS 3 ltac:(lia)) as [-> _]. exact Ht.
  - unfold transparent_at. destruct (HS 3 ltac:(lia)) as [_ ->]. exact Ht.
Qed.

Lemma transparency_preserved_witness :
  well_formed transparent_1x1 /\
  0 <= 0 < width transparent_1x1 /\ 0 <= 0 < height transparent_1x1 /\
  transparent_at (data transparent_1x1) (0 * width transparent_1x1 + 0) = true /\
  (arr_get (blackPixelsMask_of transparent_1x1 defaultParams)
     (0 * width transparent_1x1 + 0) = false /\
   arr_get (initialMask_of transparent_1x1 defaultParams)
     (0 * width transparent_1x1 + 0) = false /\
   arr_get (finalMask_of transparent_1x1 defaultParams)
     (0 * width transparent_1x1 + 0) = false /\
   arr_get (openedMask_of transparent_1x1 defaultParams)
     (0 * width transparent_1x1 + 0) = false /\
   (forall c, 0 <= c < 4 ->
      ta_get (data (processedImage (processImage transparent_1x1 defaultParams)))
        ((0 * width transparent_1x1 + 0) * 4 + c) =
      ta_get (data transparent_1x1) ((0 * width transparent_1x1 + 0) * 4 + c) /\
      ta_get (data (visualizationImage (processImage transparent_1x1 defaultParams)))
        ((0 * width transparent_1x1 + 0) * 4 + c) =
      ta_get (data transparent_1x1) ((0 * width transparent_1x1 + 0) * 4 + c)) /\
   transparent_at (data (processedImage (processImage transparent_1x1 defaultParams)))
     (0 * width transparent_1x1 + 0) = true /\
   transparent_at (data (visualizationImage (processImage transparent_1x1 defaultParams)))
     (0 * width transparent_1x1 + 0) = true).
Proof.
  split; [apply well_formed_1x1|]. split; [cbn; lia|]. split; [cbn; lia|].
  split; [reflexivity|].
  apply (transparency_preserved transparent_1x1 defaultParams 0 0);
    [apply well_formed_1x1 | cbn; lia | cbn; lia | reflexivity].
Defined.

(** C10. Black pixels are never erased: with a structuring-element size
    [S >= 0], a pixel set in the black-pixel mask is near a black pixel
    (itself), hence not in the final mask and not in the opened mask, and the
    cleaned raster keeps its four samples; it is not transparent there. *)
Theorem black_pixels_never_erased (img : ImageData) (params : ProcessingParams) (x y : Z) :
  well_formed img -> 0 <= structuringElementSize params ->
  0 <= x < width img -> 0 <= y < height img ->
  let p := y * width img + x in
  let r := processImage img params in
  arr_get (blackPixelsMask_of img params) p = true ->
  is_near_black params (blackPixelsMask_of img params) (width img) (height img) x y = true /\
  arr_get (finalMask_of img params) p = false /\
  arr_get (openedMask_of img params) p = false /\
  (forall c, 0 <= c < 4 ->
     ta_get (data (processedImage r)) (p * 4 + c) = ta_get (data img) (p * 4 + c)) /\
  transparent_at (data (processedImage r)) p = false.
Proof.
  intros Hwf Hs Hx Hy p r HB.
  assert (HF : arr_get (finalMask_of img params) p = false)
    by now apply black_not_final.
  assert (HO : arr_get (openedMask_of img params) p = false).
  { destruct (arr_get (openedMask_of img params) p) eqn:E; [|reflexivity].
    apply (opened_final img params Hwf x y Hx Hy) in E. fold p in E. congruence. }
  split; [now apply is_near_black_center|]. split; [exact HF|]. split; [exact HO|]. split.
  - intros c Hc. unfold r, p. rewrite (cleaned_get img params Hwf x y Hx Hy c Hc).
    fold p. now rewrite HO.
  - unfold r, p. rewrite (cleaned_transparent img params Hwf x y Hx Hy). fold p.
    rewrite HO. cbn [orb].
    unfold p in HB. rewrite (black_get img params Hwf x y Hx Hy) in HB. fold p in HB.
    unfold is_black in HB. apply andb_true_iff in HB. destruct HB as [HB _].
    now apply negb_true_iff in HB.
Qed.

Lemma well_formed_black_white_2x1 : well_formed black_white_2x1.
Proof. unfold well_formed, len. cbn. lia. Qed.

Lemma black_pixels_never_erased_witness :
  well_formed black_white_2x1 /\ 0 <= structuringElementSize defaultParams /\
  0 <= 0 < width black_white_2x1 /\ 0 <= 0 < height black_white_2x1 /\
  arr_get (blackPixelsMask_of black_white_2x1 defaultParams)
    (0 * width black_white_2x1 + 0) = true /\
  (is_near_black defaultParams (blackPixelsMask_of black_white_2x1 defaultParams)
     (width black_white_2x1) (height black_white_2x1) 0 0 = true /\
   arr_get (finalMask_of black_white_2x1 defaultParams)
     (0 * width black_white_2x1 + 0) = false /\
   arr_get (openedMask_of black_white_2x1 defaultParams)
     (0 * width black_white_2x1 + 0) = false /\
   (forall c, 0 <= c < 4 ->
      ta_get (data (processedImage (processImage black_white_2x1 defaultParams)))
        ((0 * width black_white_2x1 + 0) * 4 + c) =
      ta_get (data black_white_2x1) ((0 * width black_white_2x1 + 0) * 4 + c)) /\
   transparent_at (data (processedImage (processImage black_white_2x1 defaultParams)))
     (0 * width black_white_2x1 + 0) = false).
Proof.
  split; [apply well_formed_black_white_2x1|]. split; [cbn; lia|].
  split; [cbn; lia|]. split; [cbn; lia|]. split; [vm_compute; reflexivity|].
  apply (black_pixels_never_erased black_white_2x1 defaultParams 0 0);
    [apply well_formed_black_white_2x1 | cbn; lia | cbn; lia | cbn; lia
    | vm_compute; reflexivity].
Defined.

(** ** Statistics *)

(** The cleaned raster of a single transparent pixel has one pixel with
    alpha 0 while the opened mask is empty. *)
Lemma statistic_consistency_fails : ~ statistic_consistency transparent_1x1 defaultParams.
Proof.
  unfold statistic_consistency. intros (_ & _ & H).
  vm_compute in H. discriminate.
Qed.

(** C3, amended. The black-pixel statistic is the number of pixels of the
    black-pixel mask, the replaced-pixel statistic the number of pixels of
    the final mask before opening, and the number of pixels with alpha 0 in
    the cleaned raster is the number of pixels of the opened mask plus the
    number of pixels with alpha 0 in the source. *)
Theorem statistic_consistency_amended (img : ImageData) (params : ProcessingParams) :
  well_formed img ->
  let r := processImage img params in
  let n := width img * height img in
  blackPixels (stats r) = count_true (blackPixelsMask_of img params) /\
  replacedPixels (stats r) = count_true (finalMask_of img params) /\
  count_transparent (data (processedImage r)) n =
  count_true (openedMask_of img params) + count_transparent (data img) n.
Proof.
  intros Hwf r n. pose proof Hwf as (Hw & Hh & _).
  destruct (pipe_final img params Hwf) as (_ & _ & _ & _ & HB & HR).
  split; [exact HB|]. split; [exact HR|].
  pose proof (pipe_opened_len img params Hwf) as HL.
  assert (Hn : n = height img * width img) by (unfold n; lia).
  rewrite count_true_upto.
  replace (length (openedMask_of img params)) with (Z.to_nat n)
    by (unfold len in HL; lia).
  unfold count_transparent.
  rewrite <- count_upto_disjoint.
  - apply count_upto_ext. intros i Hi.
    destruct (pixel_coords (width img) (height img) i Hw ltac:(lia))
      as (x & y & Hx & Hy & ->).
    apply (cleaned_transparent img params Hwf x y Hx Hy).
  - intros i Hi HO.
    destruct (pixel_coords (width img) (height img) i Hw ltac:(lia))
      as (x & y & Hx & Hy & ->).
    now apply (opened_not_transparent img params Hwf x y Hx Hy).
Qed.

Lemma statistic_consistency_amended_witness :
  well_formed transparent_1x1 /\
  (blackPixels (stats (processImage transparent_1x1 defaultParams)) =
   count_true (blackPixelsMask_of transparent_1x1 defaultParams) /\
   replacedPixels (stats (processImage transparent_1x1 defaultParams)) =
   count_true (finalMask_of transparent_1x1 defaultParams) /\
   count_transparent (data (processedImage (processImage transparent_1x1 defaultParams)))
     (width transparent_1x1 * height transparent_1x1) =
   count_true (openedMask_of transparent_1x1 defaultParams) +
   count_transparent (data transparent_1x1)
     (width transparent_1x1 * height transparent_1x1)).
Proof.
  split; [apply well_formed_1x1|].
  apply (statistic_consistency_amended transparent_1x1 defaultParams).
  apply well_formed_1x1.
Defined.

(** ** Colours of the visualization *)

(** With a brightness threshold below the black-pixel brightness threshold, a
    dark grey pixel is black and a candidate near a black pixel (itself): the
    red rule and the blue rule both colour it, and it ends up blue, not red,
    although it is set in the black-pixel mask and not coloured green. *)
Lemma color_coding_fails : ~ color_coding grey_1x1 overlapping_params.
Proof.
  intros H. destruct (H 0 0 ltac:(cbn; lia) ltac:(cbn; lia)) as (_ & _ & H2 & _).
  vm_compute in H2. discriminate.
Qed.

(** C7, amended. In the visualization a pixel is coloured green exactly when
    the cleaned raster makes it transparent; a pixel shows green when the
    green rule applies, else blue when the blue rule applies, else red when
    its black-pixel-mask entry is set, else its source colour, and its alpha
    is the source's; the blue and the green rule never apply to one pixel,
    nor do, for a structuring-element size [S >= 0], the red and the green
    rule; the red and the blue rule apply to one pixel only if it passes
    both the black-pixel test and the brightness test. *)
Theorem color_coding_amended (img : ImageData) (params : ProcessingParams) (x y : Z) :
  well_formed img -> 0 <= x < width img -> 0 <= y < height img ->
  let p := y * width img + x in
  let vis := data (visualizationImage (processImage img params)) in
  (green_rule img params x y = true <-> made_transparent img params x y) /\
  (green_rule img params x y = true -> shows vis p green) /\
  (green_rule img params x y = false -> blue_rule img params x y = true ->
   shows vis p blue) /\
  (green_rule img params x y = false -> blue_rule img params x y = false ->
   red_rule img params x y = true -> shows vis p red) /\
  (green_rule img params x y = false -> blue_rule img params x y = false ->
   red_rule img params x y = false ->
   forall c, 0 <= c < 3 -> ta_get vis (p * 4 + c) = ta_get (data img) (p * 4 + c)) /\
  ta_get vis (p * 4 + 3) = ta_get (data img) (p * 4 + 3) /\
  blue_rule img params x y && green_rule img params x y = false /\
  (0 <= structuringElementSize params ->
   red_rule img params x y && green_rule img params x y = false) /\
  (red_rule img params x y = true -> blue_rule img params x y = true ->
   is_black params (data img) (hsvValues_of img) p = true /\
   is_bright params (hsvValues_of img) p = true).
Proof.
  intros Hwf Hx Hy p vis.
  pose proof (visualization_get img params Hwf x y Hx Hy) as HV. fold p vis in HV.
  assert (Hshow : forall c, 0 <= c < 3 ->
            ta_get vis (p * 4 + c) =
            if green_rule img params x y then Some (green c)
            else if blue_rule img params x y then Some (blue c)
            else if red_rule img params x y then Some (red c)
            else ta_get (data img) (p * 4 + c)).
  { intros c Hc. rewrite HV by lia. destruct (Z.ltb_spec c 3); [reflexivity | lia]. }
  assert (HBG : blue_rule img params x y && green_rule img params x y = false).
  { destruct (green_rule img params x y) eqn:G; [|apply andb_false_r].
    unfold green_rule in G.
    apply (opened_final img params Hwf x y Hx Hy) in G.
    apply (final_not_whitelisted img params Hwf x y Hx Hy) in G. now rewrite G. }
  split; [|split; [|split; [|split; [|split; [|split; [|split; [|split]]]]]]].
  - unfold green_rule, made_transparent.
    rewrite (cleaned_transparent img params Hwf x y Hx Hy). fold p. split.
    + intros G. rewrite G. split; [reflexivity|].
      now apply (opened_not_transparent img params Hwf x y Hx Hy).
    + intros [H1 H2]. rewrite H2, orb_false_r in H1. exact H1.
  - intros G c Hc. rewrite Hshow, G by assumption. reflexivity.
  - intros G B c Hc. rewrite Hshow, G, B by assumption. reflexivity.
  - intros G B R c Hc. rewrite Hshow, G, B, R by assumption. reflexivity.
  - intros G B R c Hc. rewrite Hshow, G, B, R by assumption. reflexivity.
  - rewrite HV by lia. reflexivity.
  - exact HBG.
  - intros Hs. destruct (red_rule img params x y) eqn:R; [|reflexivity].
    cbn [andb]. unfold green_rule. unfold red_rule in R.
    destruct (arr_get (openedMask_of img params) (y * width img + x)) eqn:G; [|reflexivity].
    apply (opened_final img params Hwf x y Hx Hy) in G.
    rewrite (black_not_final img params Hwf x y Hx Hy Hs R) in G. discriminate.
  - intros R B. unfold red_rule in R. unfold blue_rule, is_whitelisted in B.
    rewrite (black_get img params Hwf x y Hx Hy) in R. fold p in R.
    split; [exact R|].
    apply andb_true_iff in B. destruct B as [B _].
    rewrite (initial_get img params Hwf x y Hx Hy) in B. unfold is_initial in B.
    fold p in B.
    apply andb_true_iff in B. destruct B as [_ B].
    apply andb_true_iff in B. destruct B as [B _].
    apply andb_true_iff in B. apply B.
Qed.

Lemma well_formed_grey_1x1 : well_formed grey_1x1.
Proof. apply well_formed_1x1. Qed.

Lemma color_coding_amended_witness :
  well_formed grey_1x1 /\ 0 <= 0 < width grey_1x1 /\ 0 <= 0 < height grey_1x1 /\
  ((green_rule grey_1x1 overlapping_params 0 0 = true <->
    made_transparent grey_1x1 overlapping_params 0 0) /\
   (green_rule grey_1x1 overlapping_params 0 0 = true ->
    shows (data (visualizationImage (processImage grey_1x1 overlapping_params)))
      (0 * width grey_1x1 + 0) green) /\
   (green_rule grey_1x1 overlapping_params 0 0 = false ->
    blue_rule grey_1x1 overlapping_params 0 0 = true ->
    shows (data (visualizationImage (processImage grey_1x1 overlapping_params)))
      (0 * width grey_1x1 + 0) blue) /\
   (green_rule grey_1x1 overlapping_params 0 0 = false ->
    blue_rule grey_1x1 overlapping_params 0 0 = false ->
    red_rule grey_1x1 overlapping_params 0 0 = true ->
    shows (data (visualizationImage (processImage grey_1x1 overlapping_params)))
      (0 * width grey_1x1 + 0) red) /\
   (green_rule grey_1x1 overlapping_params 0 0 = false ->
    blue_rule grey_1x1 overlapping_params 0 0 = false ->
    red_rule grey_1x1 overlapping_params 0 0 = false ->
    forall c, 0 <= c < 3 ->
      ta_get (data (visualizationImage (processImage grey_1x1 overlapping_params)))
        ((0 * width grey_1x1 + 0) * 4 + c) =
      ta_get (data grey_1x1) ((0 * width grey_1x1 + 0) * 4 + c)) /\
   ta_get (data (visualizationImage (processImage grey_1x1 overlapping_params)))
     ((0 * width grey_1x1 + 0) * 4 + 3) =
   ta_get (data grey_1x1) ((0 * width grey_1x1 + 0) * 4 + 3) /\
   blue_rule grey_1x1 overlapping_params 0 0 &&
   green_rule grey_1x1 overlapping_params 0 0 = false /\
   (0 <= structuringElementSize overlapping_params ->
    red_rule grey_1x1 overlapping_params 0 0 &&
    green_rule grey_1x1 overlapping_params 0 0 = false) /\
   (red_rule grey_1x1 overlapping_params 0 0 = true ->
    blue_rule grey_1x1 overlapping_params 0 0 = true ->
    is_black overlapping_params (data grey_1x1) (hsvValues_of grey_1x1)
      (0 * width grey_1x1 + 0) = true /\
    is_bright overlapping_params (hsvValues_of grey_1x1) (0 * width grey_1x1 + 0) = true)).
Proof.
  split; [apply well_formed_grey_1x1|]. split; [cbn; lia|]. split; [cbn; lia|].
  apply (color_coding_amended grey_1x1 overlapping_params 0 0);
    [apply well_formed_grey_1x1 | cbn; lia | cbn; lia].
Defined.

(** ** Degenerate input *)

(** C9. Degenerate input: on a raster of width 0 or height 0, and on a raster
    all of whose pixels have alpha 0, [processImage] returns the source
    raster as the cleaned and as the visualization raster, and statistics
    whose seven counters are 0. *)
Theorem degenerate_input_unchanged (img : ImageData) (params : ProcessingParams) :
  well_formed img ->
  width img = 0 \/ height img = 0 \/
  (forall p, 0 <= p < width img * height img -> transparent_at (data img) p = true) ->
  processImage img params =
  {| processedImage := img;
     visualizationImage := img;
     stats := {| brightPixels := 0;
                 lowSaturationPixels := 0;
                 candidateArtifacts := 0;
                 lowSaturationAreas := 0;
                 nearBlackPixels := 0;
                 replacedPixels := 0;
                 blackPixels := 0;
                 thresholds := params |} |}.
Proof.
  intros Hwf Hd.
  rewrite processImage_all_transparent; [destruct params; reflexivity | exact Hwf |].
  destruct Hd as [E | [E | H]]; [| | exact H]; intros p Hp; rewrite E in Hp; lia.
Qed.

Lemma degenerate_input_unchanged_witness :
  well_formed transparent_1x1 /\
  (width transparent_1x1 = 0 \/ height transparent_1x1 = 0 \/
   (forall p, 0 <= p < width transparent_1x1 * height transparent_1x1 ->
              transparent_at (data transparent_1x1) p = true)) /\
  processImage transparent_1x1 defaultParams =
  {| processedImage := transparent_1x1;
     visualizationImage := transparent_1x1;
     stats := {| brightPixels := 0;
                 lowSaturationPixels := 0;
                 candidateArtifacts := 0;
                 lowSaturationAreas := 0;
                 nearBlackPixels := 0;
                 replacedPixels := 0;
                 blackPixels := 0;
                 thresholds := defaultParams |} |}.
Proof.
  assert (H : forall p, 0 <= p < width transparent_1x1 * height transparent_1x1 ->
                        transparent_at (data transparent_1x1) p = true).
  { intros p Hp. cbn in Hp. assert (p = 0) as -> by lia. reflexivity. }
  split; [apply well_formed_1x1|]. split; [right; right; exact H|].
  apply (degenerate_input_unchanged transparent_1x1 defaultParams);
    [apply well_formed_1x1 | right; right; exact H].
Defined.

(** ** The pipeline on small rasters *)

Example white_1x1_cleaned :
  data (processedImage (processImage white_1x1 defaultParams)) = [0; 0; 0; 0] /\
  data (visualizationImage (processImage white_1x1 defaultParams)) = [0; 255; 0; 255].
Proof. vm_compute. split; reflexivity. Qed.

Example white_5x5_cleaned :
  data (processedImage (processImage white_5x5 defaultParams)) = repeat 0 100 /\
  candidateArtifacts (stats (processImage white_5x5 defaultParams)) = 25 /\
  blackPixels (stats (processImage white_5x5 defaultParams)) = 0.
Proof. vm_compute. repeat split. Qed.

Example black_white_2x1_visualization :
  data (processedImage (processImage black_white_2x1 defaultParams)) = data black_white_2x1 /\
  data (visualizationImage (processImage black_white_2x1 defaultParams)) =
    [255; 0; 0; 255; 0; 0; 255; 255] /\
  nearBlackPixels (stats (processImage black_white_2x1 defaultParams)) = 1.
Proof. vm_compute. repeat split. Qed.

Example block_mask_opened :
  morphologicalOpenMask block_mask 4 3 3 =
  [true; true; true; false;
   true; true; true; false;
   true; true; true; false].
Proof. vm_compute. reflexivity. Qed.

Example empty_raster_unchanged :
  processedImage (processImage empty_raster defaultParams) = empty_raster /\
  visualizationImage (processImage empty_raster defaultParams) = empty_raster.
Proof. vm_compute. split; reflexivity. Qed.

Example rgbToHsv_grey : rgbToHsv 51%float 51%float 51%float = (0%float, 0%float, 20%float).
Proof. vm_compute. reflexivity. Qed.

Example rgbToHsv_red : rgbToHsv 255%float 0%float 0%float = (0%float, 100%float, 100%float).
Proof. vm_compute. reflexivity. Qed.

(** * Further properties of the code *)

(** ** Erosion and dilation on their own *)

Lemma in_window_box (w h x y r kx ky : Z) :
  in_window w h x y r kx ky <->
  0 <= kx < w /\ 0 <= ky < h /\ x - r <= kx <= x + r /\ y - r <= ky <= y + r.
Proof. unfold in_window. lia. Qed.

(** X1. [erodeMask] keeps the length of the mask and sets a pixel exactly
    when every pixel of the raster within the box of half-size
    [floor (K / 2)] around it is set; cells of the box outside the raster
    are not looked at. *)
Theorem erodeMask_spec (mask : list bool) (w h k x y : Z) :
  0 <= w -> 0 <= h -> len mask = w * h ->
  0 <= x < w -> 0 <= y < h ->
  let r := k / 2 in
  length (erodeMask mask w h k) = length mask /\
  (arr_get (erodeMask mask w h k) (y * w + x) = true <->
   forall kx ky,
     0 <= kx < w -> 0 <= ky < h -> x - r <= kx <= x + r -> y - r <= ky <= y + r ->
     arr_get mask (ky * w + kx) = true).
Proof.
  intros Hw Hh Hlen Hx Hy r.
  assert (Hlen' : len mask = h * w) by lia.
  split; [now apply erodeMask_length|].
  rewrite erodeMask_get, erode_test_true by assumption. fold r.
  split; intros H kx ky; intros.
  - apply H. apply in_window_box. auto.
  - apply in_window_box in H0. apply H; tauto.
Qed.

Lemma erodeMask_spec_witness :
  0 <= 4 /\ 0 <= 3 /\ len block_mask = 4 * 3 /\ 0 <= 1 < 4 /\ 0 <= 1 < 3 /\
  (length (erodeMask block_mask 4 3 3) = length block_mask /\
   (arr_get (erodeMask block_mask 4 3 3) (1 * 4 + 1) = true <->
    forall kx ky,
      0 <= kx < 4 -> 0 <= ky < 3 ->
      1 - 3 / 2 <= kx <= 1 + 3 / 2 -> 1 - 3 / 2 <= ky <= 1 + 3 / 2 ->
      arr_get block_mask (ky * 4 + kx) = true)).
Proof.
  split; [lia|]. split; [lia|]. split; [reflexivity|]. split; [lia|]. split; [lia|].
  apply (erodeMask_spec block_mask 4 3 3 1 1); (lia || reflexivity).
Defined.

(** X2. [dilateMask] keeps the length of the mask and sets a pixel exactly
    when some pixel of the raster within the box of half-size
    [floor (K / 2)] around it is set. *)
Theorem dilateMask_spec (mask : list bool) (w h k x y : Z) :
  0 <= w -> 0 <= h -> len mask = w * h ->
  0 <= x < w -> 0 <= y < h ->
  let r := k / 2 in
  length (dilateMask mask w h k) = length mask /\
  (arr_get (dilateMask mask w h k) (y * w + x) = true <->
   exists kx ky,
     0 <= kx < w /\ 0 <= ky < h /\ x - r <= kx <= x + r /\ y - r <= ky <= y + r /\
     arr_get mask (ky * w + kx) = true).
Proof.
  intros Hw Hh Hlen Hx Hy r.
  assert (Hlen' : len mask = h * w) by lia.
  split; [now apply dilateMask_length|].
  rewrite dilateMask_get, dilate_test_true by assumption. fold r.
  split.
  - intros (kx & ky & H & G). exists kx, ky. apply in_window_box in H. tauto.
  - intros (kx & ky & H1 & H2 & H3 & H4 & G). exists kx, ky.
    split; [apply in_window_box; tauto | exact G].
Qed.

Lemma dilateMask_spec_witness :
  0 <= 4 /\ 0 <= 3 /\ len block_mask = 4 * 3 /\ 0 <= 3 < 4 /\ 0 <= 0 < 3 /\
  (length (dilateMask block_mask 4 3 3) = length block_mask /\
   (arr_get (dilateMask block_mask 4 3 3) (0 * 4 + 3) = true <->
    exists kx ky,
      0 <= kx < 4 /\ 0 <= ky < 3 /\
      3 - 3 / 2 <= kx <= 3 + 3 / 2 /\ 0 - 3 / 2 <= ky <= 0 + 3 / 2 /\
      arr_get block_mask (ky * 4 + kx) = true)).
Proof.
  split; [lia|]. split; [lia|]. split; [reflexivity|]. split; [lia|]. split; [lia|].
  apply (dilateMask_spec block_mask 4 3 3 3 0); (lia || reflexivity).
Defined.

Section MorphologyOrder.
Variables (w h k : Z).
Hypothesis Hw : 0 <= w.
Hypothesis Hh : 0 <= h.

Lemma half_nonneg : 0 <= k -> 0 <= k / 2.
Proof. intros H. apply Z.div_pos; lia. Qed.

Lemma erodeMask_subset (mask : list bool) (x y : Z) :
  len mask = h * w -> 0 <= k -> 0 <= x < w -> 0 <= y < h ->
  arr_get (erodeMask mask w h k) (y * w + x) = true -> arr_get mask (y * w + x) = true.
Proof.
  intros Hlen Hk Hx Hy. rewrite erodeMask_get, erode_test_true by assumption.
  intros H. apply H. apply in_window_center; auto using half_nonneg.
Qed.

Lemma dilateMask_superset (mask : list bool) (x y : Z) :
  len mask = h * w -> 0 <= k -> 0 <= x < w -> 0 <= y < h ->
  arr_get mask (y * w + x) = true -> arr_get (dilateMask mask w h k) (y * w + x) = true.
Proof.
  intros Hlen Hk Hx Hy H. rewrite dilateMask_get, dilate_test_true by assumption.
  exists x, y. split; [apply in_window_center; auto using half_nonneg | exact H].
Qed.

Lemma erodeMask_mono (a b : list bool) (x y : Z) :
  len a = h * w -> len b = h * w -> 0 <= x < w -> 0 <= y < h ->
  (forall x' y', 0 <= x' < w -> 0 <= y' < h ->
     arr_get a (y' * w + x') = true -> arr_get b (y' * w + x') = true) ->
  arr_get (erodeMask a w h k) (y * w + x) = true ->
  arr_get (erodeMask b w h k) (y * w + x) = true.
Proof.
  intros Ha Hb Hx Hy Hab. rewrite !erodeMask_get, !erode_test_true by assumption.
  intros H kx ky Hk. destruct (in_window_bounds _ _ _ _ _ _ _ Hk). auto.
Qed.

Lemma dilateMask_mono (a b : list bool) (x y : Z) :
  len a = h * w -> len b = h * w -> 0 <= x < w -> 0 <= y < h ->
  (forall x' y', 0 <= x' < w -> 0 <= y' < h ->
     arr_get a (y' * w + x') = true -> arr_get b (y' * w + x') = true) ->
  arr_get (dilateMask a w h k) (y * w + x) = true ->
  arr_get (dilateMask b w h k) (y * w + x) = true.
Proof.
  intros Ha Hb Hx Hy Hab. rewrite !dilateMask_get, !dilate_test_true by assumption.
  intros (kx & ky & Hk & G). exists kx, ky. split; [exact Hk|].
  destruct (in_window_bounds _ _ _ _ _ _ _ Hk). auto.
Qed.

Lemma morphologicalOpenMask_mono (a b : list bool) (x y : Z) :
  len a = h * w -> len b = h * w -> 0 <= x < w -> 0 <= y < h ->
  (forall x' y', 0 <= x' < w -> 0 <= y' < h ->
     arr_get a (y' * w + x') = true -> arr_get b (y' * w + x') = true) ->
  arr_get (morphologicalOpenMask a w h k) (y * w + x) = true ->
  arr_get (morphologicalOpenMask b w h k) (y * w + x) = true.
Proof.
  intros Ha Hb Hx Hy Hab. unfold morphologicalOpenMask.
  apply dilateMask_mono; auto using erodeMask_len.
  intros x' y' Hx' Hy'. now apply erodeMask_mono.
Qed.

End MorphologyOrder.

(** X3. For a kernel size [K >= 0], on every pixel: eroded implies opened,
    opened implies set in the mask, set in the mask implies dilated. *)
Theorem morphology_sandwich (mask : list bool) (w h k x y : Z) :
  0 <= w -> 0 <= h -> len mask = w * h -> 0 <= k ->
  0 <= x < w -> 0 <= y < h ->
  (arr_get (erodeMask mask w h k) (y * w + x) = true ->
   arr_get (morphologicalOpenMask mask w h k) (y * w + x) = true) /\
  (arr_get (morphologicalOpenMask mask w h k) (y * w + x) = true ->
   arr_get mask (y * w + x) = true) /\
  (arr_get mask (y * w + x) = true ->
   arr_get (dilateMask mask w h k) (y * w + x) = true).
Proof.
  intros Hw Hh Hlen Hk Hx Hy. assert (Hlen' : len mask = h * w) by lia.
  split; [|split].
  - unfold morphologicalOpenMask. apply dilateMask_superset; auto using erodeMask_len.
  - now apply morphologicalOpenMask_subset.
  - now apply dilateMask_superset.
Qed.

Lemma morphology_sandwich_witness :
  0 <= 4 /\ 0 <= 3 /\ len block_mask = 4 * 3 /\ 0 <= 3 /\ 0 <= 1 < 4 /\ 0 <= 1 < 3 /\
  ((arr_get (erodeMask block_mask 4 3 3) (1 * 4 + 1) = true ->
    arr_get (morphologicalOpenMask block_mask 4 3 3) (1 * 4 + 1) = true) /\
   (arr_get (morphologicalOpenMask block_mask 4 3 3) (1 * 4 + 1) = true ->
    arr_get block_mask (1 * 4 + 1) = true) /\
   (arr_get block_mask (1 * 4 + 1) = true ->
    arr_get (dilateMask block_mask 4 3 3) (1 * 4 + 1) = true)).
Proof.
  split; [lia|]. split; [lia|]. split; [reflexivity|]. split; [lia|].
  split; [lia|]. split; [lia|].
  apply (morphology_sandwich block_mask 4 3 3 1 1); (lia || reflexivity).
Defined.

(** X4. Erosion and dilation with one kernel size are adjoint: the dilation
    of [a] lies inside [b] exactly when [a] lies inside the erosion of [b]. *)
Theorem erode_dilate_adjoint (a b : list bool) (w h k : Z) :
  0 <= w -> 0 <= h -> len a = w * h -> len b = w * h ->
  ((forall x y, 0 <= x < w -> 0 <= y < h ->
      arr_get (dilateMask a w h k) (y * w + x) = true -> arr_get b (y * w + x) = true) <->
   (forall x y, 0 <= x < w -> 0 <= y < h ->
      arr_get a (y * w + x) = true -> arr_get (erodeMask b w h k) (y * w + x) = true)).
Proof.
  intros Hw Hh Ha Hb.
  assert (Ha' : len a = h * w) by lia. assert (Hb' : len b = h * w) by lia.
  split; intros H x y Hx Hy.
  - intros G. rewrite erodeMask_get, erode_test_true by assumption.
    intros kx ky Hk. destruct (in_window_bounds _ _ _ _ _ _ _ Hk) as [Hkx Hky].
    apply H; try assumption.
    rewrite dilateMask_get, dilate_test_true by assumption.
    exists x, y. split; [now apply in_window_sym | exact G].
  - rewrite dilateMask_get, dilate_test_true by assumption.
    intros (kx & ky & Hk & G). destruct (in_window_bounds _ _ _ _ _ _ _ Hk) as [Hkx Hky].
    specialize (H kx ky Hkx Hky G).
    rewrite erodeMask_get, erode_test_true in H by assumption.
    apply H. now apply in_window_sym.
Qed.

Lemma erode_dilate_adjoint_witness :
  0 <= 4 /\ 0 <= 3 /\ len block_mask = 4 * 3 /\ len block_mask = 4 * 3 /\
  ((forall x y, 0 <= x < 4 -> 0 <= y < 3 ->
      arr_get (dilateMask block_mask 4 3 3) (y * 4 + x) = true ->
      arr_get block_mask (y * 4 + x) = true) <->
   (forall x y, 0 <= x < 4 -> 0 <= y < 3 ->
      arr_get block_mask (y * 4 + x) = true ->
      arr_get (erodeMask block_mask 4 3 3) (y * 4 + x) = true)).
Proof.
  split; [lia|]. split; [lia|]. split; [reflexivity|]. split; [reflexivity|].
  apply (erode_dilate_adjoint block_mask block_mask 4 3 3); (lia || reflexivity).
Defined.

(** X5. Erosion, dilation and opening are monotone: if every pixel of [a] is
    a pixel of [b], the same holds of their erosions, dilations and
    openings. *)
Theorem morphology_monotone (a b : list bool) (w h k x y : Z) :
  0 <= w -> 0 <= h -> len a = w * h -> len b = w * h ->
  (forall x' y', 0 <= x' < w -> 0 <= y' < h ->
     arr_get a (y' * w + x') = true -> arr_get b (y' * w + x') = true) ->
  0 <= x < w -> 0 <= y < h ->
  (arr_get (erodeMask a w h k) (y * w + x) = true ->
   arr_get (erodeMask b w h k) (y * w + x) = true) /\
  (arr_get (dilateMask a w h k) (y * w + x) = true ->
   arr_get (dilateMask b w h k) (y * w + x) = true) /\
  (arr_get (morphologicalOpenMask a w h k) (y * w + x) = true ->
   arr_get (morphologicalOpenMask b w h k) (y * w + x) = true).
Proof.
  intros Hw Hh Ha Hb Hab Hx Hy.
  assert (Ha' : len a = h * w) by lia. assert (Hb' : len b = h * w) by lia.
  split; [|split].
  - now apply erodeMask_mono.
  - now apply dilateMask_mono.
  - now apply morphologicalOpenMask_mono.
Qed.

Lemma morphology_monotone_witness :
  0 <= 4 /\ 0 <= 3 /\ len (morphologicalOpenMask block_mask 4 3 3) = 4 * 3 /\
  len block_mask = 4 * 3 /\
  (forall x' y', 0 <= x' < 4 -> 0 <= y' < 3 ->
     arr_get (morphologicalOpenMask block_mask 4 3 3) (y' * 4 + x') = true ->
     arr_get block_mask (y' * 4 + x') = true) /\
  0 <= 1 < 4 /\ 0 <= 1 < 3 /\
  ((arr_get (erodeMask (morphologicalOpenMask block_mask 4 3 3) 4 3 3) (1 * 4 + 1) = true ->
    arr_get (erodeMask block_mask 4 3 3) (1 * 4 + 1) = true) /\
   (arr_get (dilateMask (morphologicalOpenMask block_mask 4 3 3) 4 3 3) (1 * 4 + 1) = true ->
    arr_get (dilateMask block_mask 4 3 3) (1 * 4 + 1) = true) /\
   (arr_get (morphologicalOpenMask (morphologicalOpenMask block_mask 4 3 3) 4 3 3)
      (1 * 4 + 1) = true ->
    arr_get (morphologicalOpenMask block_mask 4 3 3) (1 * 4 + 1) = true)).
Proof.
  assert (Hsub : forall x' y', 0 <= x' < 4 -> 0 <= y' < 3 ->
            arr_get (morphologicalOpenMask block_mask 4 3 3) (y' * 4 + x') = true ->
            arr_get block_mask (y' * 4 + x') = true).
  { intros x' y' Hx' Hy'.
    apply (morphologicalOpenMask_subset block_mask 4 3 3); (lia || reflexivity). }
  split; [lia|]. split; [lia|]. split; [reflexivity|]. split; [reflexivity|].
  split; [exact Hsub|]. split; [lia|]. split; [lia|].
  apply (morphology_monotone (morphologicalOpenMask block_mask 4 3 3) block_mask 4 3 3 1 1);
    try lia; try reflexivity; exact Hsub.
Defined.

(** X6. With a negative kernel size the windows are empty: erosion sets every
    pixel of the raster, dilation and opening none. *)
Theorem negative_kernel (mask : list bool) (w h k x y : Z) :
  0 <= w -> 0 <= h -> len mask = w * h -> k < 0 ->
  0 <= x < w -> 0 <= y < h ->
  arr_get (erodeMask mask w h k) (y * w + x) = true /\
  arr_get (dilateMask mask w h k) (y * w + x) = false /\
  arr_get (morphologicalOpenMask mask w h k) (y * w + x) = false.
Proof.
  intros Hw Hh Hlen Hk Hx Hy. assert (Hlen' : len mask = h * w) by lia.
  assert (Hr : k / 2 < 0) by (apply Z.div_lt_upper_bound; lia).
  split; [|split].
  - rewrite erodeMask_get, erode_test_true by assumption.
    intros kx ky Hin. unfold in_window in Hin. lia.
  - apply not_true_is_false. rewrite dilateMask_get, dilate_test_true by assumption.
    intros (kx & ky & Hin & _). unfold in_window in Hin. lia.
  - apply not_true_is_false. unfold morphologicalOpenMask.
    rewrite dilateMask_get, dilate_test_true by auto using erodeMask_len.
    intros (kx & ky & Hin & _). unfold in_window in Hin. lia.
Qed.

Lemma negative_kernel_witness :
  0 <= 4 /\ 0 <= 3 /\ len block_mask = 4 * 3 /\ -3 < 0 /\ 0 <= 3 < 4 /\ 0 <= 0 < 3 /\
  (arr_get (erodeMask block_mask 4 3 (-3)) (0 * 4 + 3) = true /\
   arr_get (dilateMask block_mask 4 3 (-3)) (0 * 4 + 3) = false /\
   arr_get (morphologicalOpenMask block_mask 4 3 (-3)) (0 * 4 + 3) = false).
Proof.
  split; [lia|]. split; [lia|]. split; [reflexivity|]. split; [lia|].
  split; [lia|]. split; [lia|].
  apply (negative_kernel block_mask 4 3 (-3) 3 0); (lia || reflexivity).
Defined.

(** X7. With kernel size 0 or 1 the window of a pixel is the pixel itself:
    erosion, dilation and opening return the mask unchanged. *)
Theorem unit_kernel (mask : list bool) (w h k : Z) :
  0 <= w -> 0 <= h -> len mask = w * h -> 0 <= k <= 1 ->
  erodeMask mask w h k = mask /\
  dilateMask mask w h k = mask /\
  morphologicalOpenMask mask w h k = mask.
Proof.
  intros Hw Hh Hlen Hk. assert (Hlen' : len mask = h * w) by lia.
  assert (Hr : k / 2 = 0) by (apply Z.div_small; lia).
  assert (He : erodeMask mask w h k = mask).
  { apply arr_ext; [now apply erodeMask_length|].
    intros i Hi. unfold len in Hi. rewrite erodeMask_length in Hi by assumption.
    fold (len mask) in Hi. rewrite Hlen' in Hi.
    destruct (pixel_coords w h i Hw Hi) as (x & y & Hx & Hy & ->).
    apply eq_true_iff_eq. rewrite erodeMask_get, erode_test_true, Hr by assumption. split.
    - intros H. apply H. apply in_window_center; lia.
    - intros H kx ky Hin. unfold in_window in Hin.
      assert (kx = x) by lia. assert (ky = y) by lia. subst. exact H. }
  assert (Hd : dilateMask mask w h k = mask).
  { apply arr_ext; [now apply dilateMask_length|].
    intros i Hi. unfold len in Hi. rewrite dilateMask_length in Hi by assumption.
    fold (len mask) in Hi. rewrite Hlen' in Hi.
    destruct (pixel_coords w h i Hw Hi) as (x & y & Hx & Hy & ->).
    apply eq_true_iff_eq. rewrite dilateMask_get, dilate_test_true, Hr by assumption. split.
    - intros (kx & ky & Hin & H). unfold in_window in Hin.
      assert (kx = x) by lia. assert (ky = y) by lia. subst. exact H.
    - intros H. exists x, y. split; [apply in_window_center; lia | exact H]. }
  split; [exact He|]. split; [exact Hd|].
  unfold morphologicalOpenMask. rewrite He. exact Hd.
Qed.

Lemma unit_kernel_witness :
  0 <= 4 /\ 0 <= 3 /\ len block_mask = 4 * 3 /\ 0 <= 1 <= 1 /\
  (erodeMask block_mask 4 3 1 = block_mask /\
   dilateMask block_mask 4 3 1 = block_mask /\
   morphologicalOpenMask block_mask 4 3 1 = block_mask).
Proof.
  split; [lia|]. split; [lia|]. split; [reflexivity|]. split; [lia|].
  apply (unit_kernel block_mask 4 3 1); (lia || reflexivity).
Defined.

(** ** The counters of the statistics *)

Lemma count_upto_succ (f : Z -> bool) (k : Z) :
  0 <= k ->
  count_upto f (Z.to_nat (k + 1)) = count_upto f (Z.to_nat k) + (if f k then 1 else 0).
Proof.
  intros Hk. replace (Z.to_nat (k + 1)) with (Datatypes.S (Z.to_nat k)) by lia.
  cbn [count_upto]. now rewrite Z2Nat.id.
Qed.

Lemma count_upto_le (f g : Z -> bool) :
  forall n, (forall i, 0 <= i < Z.of_nat n -> f i = true -> g i = true) ->
            count_upto f n <= count_upto g n.
Proof.
  induction n as [|n IH]; intros H; cbn [count_upto]; [lia|].
  specialize (IH ltac:(intros; apply H; [lia | assumption])).
  specialize (H (Z.of_nat n) ltac:(lia)).
  destruct (f (Z.of_nat n)); [rewrite H by reflexivity|]; destruct (g (Z.of_nat n)); lia.
Qed.

Lemma count_upto_bounds (f : Z -> bool) : forall n, 0 <= count_upto f n <= Z.of_nat n.
Proof.
  induction n as [|n IH]; cbn [count_upto]; [lia|]. destruct (f (Z.of_nat n)); lia.
Qed.

Lemma black_pass_frame (params : ProcessingParams) (d : list Z) (hsv : list HSV)
    (w h : Z) (vis0 : list Z) (st0 : Stats) :
  let s := snd (black_pass params d hsv w h vis0 st0) in
  brightPixels s = brightPixels st0 /\
  lowSaturationPixels s = lowSaturationPixels st0 /\
  candidateArtifacts s = candidateArtifacts st0 /\
  lowSaturationAreas s = lowSaturationAreas st0 /\
  nearBlackPixels s = nearBlackPixels st0 /\
  thresholds s = thresholds st0.
Proof.
  set (P := fun (k : Z) (st : list bool * list Z * Stats) =>
    brightPixels (snd st) = brightPixels st0 /\
    lowSaturationPixels (snd st) = lowSaturationPixels st0 /\
    candidateArtifacts (snd st) = candidateArtifacts st0 /\
    lowSaturationAreas (snd st) = lowSaturationAreas st0 /\
    nearBlackPixels (snd st) = nearBlackPixels st0 /\
    thresholds (snd st) = thresholds st0).
  unfold black_pass. apply (for_range_ind P).
  - apply len_nonneg.
  - unfold P; cbn [snd]. auto 10.
  - intros k [[m vis] s] Hk HP. unfold P in *. cbn [snd] in *.
    cbv beta iota zeta.
    destruct (sample_is_zero _); [exact HP|].
    destruct (_ && _); exact HP.
Qed.

Lemma initial_pass_counts (params : ProcessingParams) (d : list Z) (hsv : list HSV)
    (w h : Z) (st0 : Stats) :
  0 <= w -> 0 <= h ->
  let r := initial_pass params d hsv w h st0 in
  let n := Z.to_nat (h * w) in
  brightPixels (snd r) = brightPixels st0 + count_upto (opaque_bright params d hsv) n /\
  lowSaturationPixels (snd r) =
    lowSaturationPixels st0 + count_upto (opaque_low_saturation params d hsv) n /\
  candidateArtifacts (snd r) =
    candidateArtifacts st0 + count_upto (is_candidate params d hsv) n /\
  lowSaturationAreas (snd r) = lowSaturationAreas st0 + count_true (fst r) /\
  nearBlackPixels (snd r) = nearBlackPixels st0 /\
  thresholds (snd r) = thresholds st0.
Proof.
  intros Hw Hh.
  set (P := fun (k : Z) (st : list bool * Stats) =>
    length (fst st) = Z.to_nat (h * w) /\
    (forall x y, 0 <= x < w -> 0 <= y < h ->
       arr_get (fst st) (y * w + x) =
       if y * w + x <? k then is_initial params d hsv w h x y else false) /\
    brightPixels (snd st) =
      brightPixels st0 + count_upto (opaque_bright params d hsv) (Z.to_nat k) /\
    lowSaturationPixels (snd st) =
      lowSaturationPixels st0 +
      count_upto (opaque_low_saturation params d hsv) (Z.to_nat k) /\
    candidateArtifacts (snd st) =
      candidateArtifacts st0 + count_upto (is_candidate params d hsv) (Z.to_nat k) /\
    lowSaturationAreas (snd st) = lowSaturationAreas st0 + count_true (fst st) /\
    nearBlackPixels (snd st) = nearBlackPixels st0 /\
    thresholds (snd st) = thresholds st0).
  assert (HP : P (h * w) (initial_pass params d hsv w h st0)).
  { unfold initial_pass.
    eapply (raster_ind P w h); try assumption.
    - unfold P; cbn [fst snd count_upto Z.to_nat]. replace (w * h) with (h * w) by lia.
      split; [apply new_mask_length|]. split.
      { intros x y Hx Hy. rewrite arr_get_new_mask.
        pose proof (raster_index_bound w h x y Hx Hy). ltb_cases. }
      unfold new_mask. rewrite count_true_repeat_false. repeat split; lia.
    - intros x0 y0 [m s] Hx0 Hy0 (Hlen & Hm & H1 & H2 & H3 & H4 & H5 & H6).
      cbn [fst snd] in *.
      pose proof (raster_index_bound w h x0 y0 Hx0 Hy0) as Hk0.
      pose proof (raster_mask_step (is_initial params d hsv w h) w h m x0 y0
                    Hx0 Hy0 Hlen Hm) as (Hlen' & Hm' & Hc').
      unfold P. rewrite !count_upto_succ by lia.
      unfold opaque_bright at 2, opaque_low_saturation at 2, is_candidate at 2.
      cbv beta iota zeta. rewrite Z.div_mul by lia.
      fold (transparent_at d (y0 * w + x0)).
      fold (is_bright params hsv (y0 * w + x0)).
      fold (is_low_saturation params hsv (y0 * w + x0)).
      fold (is_low_saturation_area params d hsv w h x0 y0).
      unfold is_initial in Hlen', Hm', Hc'.
      destruct (transparent_at d (y0 * w + x0));
        destruct (is_bright params hsv (y0 * w + x0));
        destruct (is_low_saturation params hsv (y0 * w + x0));
        destruct (is_low_saturation_area params d hsv w h x0 y0);
        cbn [andb negb] in *;
        cbn [fst snd brightPixels lowSaturationPixels candidateArtifacts lowSaturationAreas
             nearBlackPixels thresholds incr_brightPixels incr_lowSaturationPixels
             incr_candidateArtifacts incr_lowSaturationAreas];
        (split; [exact Hlen'|]); (split; [exact Hm'|]);
        repeat split; try assumption; lia. }
  destruct HP as (_ & _ & H1 & H2 & H3 & H4 & H5 & H6). cbv zeta. auto 10.
Qed.

Lemma final_pass_counts (params : ProcessingParams) (w h : Z)
    (initial black : list bool) (vis0 : list Z) (st0 : Stats) :
  0 <= w -> 0 <= h -> len initial = h * w ->
  let s := snd (final_pass params w h initial black vis0 st0) in
  brightPixels s = brightPixels st0 /\
  lowSaturationPixels s = lowSaturationPixels st0 /\
  candidateArtifacts s = candidateArtifacts st0 /\
  lowSaturationAreas s = lowSaturationAreas st0 /\
  nearBlackPixels s + replacedPixels s =
    nearBlackPixels st0 + replacedPixels st0 + count_true initial /\
  thresholds s = thresholds st0.
Proof.
  intros Hw Hh Hlen.
  set (P := fun (k : Z) (st : list bool * list Z * Stats) =>
    brightPixels (snd st) = brightPixels st0 /\
    lowSaturationPixels (snd st) = lowSaturationPixels st0 /\
    candidateArtifacts (snd st) = candidateArtifacts st0 /\
    lowSaturationAreas (snd st) = lowSaturationAreas st0 /\
    nearBlackPixels (snd st) + replacedPixels (snd st) =
      nearBlackPixels st0 + replacedPixels st0 +
      count_upto (arr_get initial) (Z.to_nat k) /\
    thresholds (snd st) = thresholds st0).
  assert (HP : P (h * w) (final_pass params w h initial black vis0 st0)).
  { unfold final_pass.
    eapply (raster_ind P w h); try assumption.
    - unfold P; cbn [fst snd count_upto Z.to_nat]. repeat split; lia.
    - intros x0 y0 [[m vis] s] Hx0 Hy0 (H1 & H2 & H3 & H4 & H5 & H6).
      cbn [fst snd] in *.
      pose proof (raster_index_bound w h x0 y0 Hx0 Hy0) as Hk0.
      unfold P. rewrite !count_upto_succ by lia.
      cbv beta iota zeta.
      destruct (arr_get initial (y0 * w + x0)); cbn [negb].
      + destruct (isNearBlackPixelOptimized _ _ _ _ _ _);
          cbn [fst snd brightPixels lowSaturationPixels candidateArtifacts
               lowSaturationAreas nearBlackPixels replacedPixels thresholds
               incr_nearBlackPixels incr_replacedPixels];
          repeat split; try assumption; lia.
      + cbn [fst snd]. repeat split; try assumption; lia. }
  destruct HP as (H1 & H2 & H3 & H4 & H5 & H6). cbv zeta.
  rewrite count_true_upto.
  replace (length initial) with (Z.to_nat (h * w)) by (unfold len in Hlen; lia).
  auto 10.
Qed.

Lemma initial_stats_thresholds (params : ProcessingParams) :
  thresholds (initial_stats params) = params.
Proof. destruct params; reflexivity. Qed.

Section Counters.
Variable img : ImageData.
Variable params : ProcessingParams.
Hypothesis Hwf : well_formed img.

Lemma pipe_initial_len : len (initialMask_of img params) = height img * width img.
Proof.
  destruct (pipe_initial img params Hwf) as (L & _). unfold len. rewrite L.
  pose proof (proj1 Hwf). pose proof (proj1 (proj2 Hwf)). nia.
Qed.

Lemma pipe_counters :
  let s := stats (processImage img params) in
  let n := Z.to_nat (height img * width img) in
  brightPixels s = count_upto (opaque_bright params (data img) (hsvValues_of img)) n /\
  lowSaturationPixels s =
    count_upto (opaque_low_saturation params (data img) (hsvValues_of img)) n /\
  candidateArtifacts s = count_upto (is_candidate params (data img) (hsvValues_of img)) n /\
  lowSaturationAreas s = count_true (initialMask_of img params) /\
  nearBlackPixels s + replacedPixels s = count_true (initialMask_of img params) /\
  thresholds s = params.
Proof.
  cbv zeta. cbn [processImage stats].
  pose proof (proj1 Hwf) as Hw. pose proof (proj1 (proj2 Hwf)) as Hh.
  pose proof (black_pass_frame params (data img) (hsvValues_of img) (width img)
                (height img) (snd (copy_pass (data img))) (initial_stats params))
    as (B1 & B2 & B3 & B4 & B5 & B6).
  fold (black_stage img params) in B1, B2, B3, B4, B5, B6.
  pose proof (initial_pass_counts params (data img) (hsvValues_of img) (width img)
                (height img) (snd (black_stage img params)) Hw Hh)
    as (I1 & I2 & I3 & I4 & I5 & I6).
  fold (initial_stage img params) in I1, I2, I3, I4, I5, I6.
  fold (initialMask_of img params) in I4.
  pose proof (final_pass_counts params (width img) (height img)
                (initialMask_of img params) (blackPixelsMask_of img params)
                (snd (fst (black_stage img params))) (snd (initial_stage img params))
                Hw Hh pipe_initial_len)
    as (F1 & F2 & F3 & F4 & F5 & F6).
  fold (final_stage img params) in F1, F2, F3, F4, F5, F6.
  destruct (pipe_initial img params Hwf) as (_ & _ & _ & R).
  cbn [initial_stats brightPixels lowSaturationPixels candidateArtifacts
       lowSaturationAreas nearBlackPixels] in B1, B2, B3, B4, B5.
  rewrite initial_stats_thresholds in B6.
  repeat split; try congruence; lia.
Qed.

End Counters.

(** X8. The counters of the statistics: [brightPixels],
    [lowSaturationPixels] and [candidateArtifacts] count the non-transparent
    pixels that are bright, of low saturation, and both;
    [lowSaturationAreas] is the number of pixels of the initial mask, which
    [nearBlackPixels] and [replacedPixels] split between them; [thresholds]
    is the parameter record. *)
Theorem statistics_counters (img : ImageData) (params : ProcessingParams) :
  well_formed img ->
  let s := stats (processImage img params) in
  let n := Z.to_nat (width img * height img) in
  let hsv := hsvValues_of img in
  brightPixels s = count_upto (opaque_bright params (data img) hsv) n /\
  lowSaturationPixels s = count_upto (opaque_low_saturation params (data img) hsv) n /\
  candidateArtifacts s = count_upto (is_candidate params (data img) hsv) n /\
  lowSaturationAreas s = count_true (initialMask_of img params) /\
  nearBlackPixels s + replacedPixels s = lowSaturationAreas s /\
  thresholds s = params.
Proof.
  intros Hwf. cbv zeta.
  destruct (pipe_counters img params Hwf) as (H1 & H2 & H3 & H4 & H5 & H6).
  replace (width img * height img) with (height img * width img) by lia.
  repeat split; try assumption. rewrite H4. exact H5.
Qed.

Lemma statistics_counters_witness :
  well_formed black_white_2x1 /\
  (brightPixels (stats (processImage black_white_2x1 defaultParams)) =
     count_upto (opaque_bright defaultParams (data black_white_2x1)
                   (hsvValues_of black_white_2x1))
       (Z.to_nat (width black_white_2x1 * height black_white_2x1)) /\
   lowSaturationPixels (stats (processImage black_white_2x1 defaultParams)) =
     count_upto (opaque_low_saturation defaultParams (data black_white_2x1)
                   (hsvValues_of black_white_2x1))
       (Z.to_nat (width black_white_2x1 * height black_white_2x1)) /\
   candidateArtifacts (stats (processImage black_white_2x1 defaultParams)) =
     count_upto (is_candidate defaultParams (data black_white_2x1)
                   (hsvValues_of black_white_2x1))
       (Z.to_nat (width black_white_2x1 * height black_white_2x1)) /\
   lowSaturationAreas (stats (processImage black_white_2x1 defaultParams)) =
     count_true (initialMask_of black_white_2x1 defaultParams) /\
   nearBlackPixels (stats (processImage black_white_2x1 defaultParams)) +
   replacedPixels (stats (processImage black_white_2x1 defaultParams)) =
     lowSaturationAreas (stats (processImage black_white_2x1 defaultParams)) /\
   thresholds (stats (processImage black_white_2x1 defaultParams)) = defaultParams).
Proof.
  split; [apply well_formed_black_white_2x1|].
  apply (statistics_counters black_white_2x1 defaultParams).
  apply well_formed_black_white_2x1.
Defined.

(** X9. The counters are ordered: the pixels erased are at most
    [replacedPixels], which is at most [lowSaturationAreas], which is at most
    [candidateArtifacts], which is at most each of [brightPixels] and
    [lowSaturationPixels], which are at most the number of pixels that are
    not transparent in the source; [blackPixels] is at most that number
    too. *)
Theorem statistics_ordered (img : ImageData) (params : ProcessingParams) :
  well_formed img ->
  let s := stats (processImage img params) in
  let n := width img * height img in
  let visible := n - count_transparent (data img) n in
  0 <= count_true (openedMask_of img params) <= replacedPixels s /\
  replacedPixels s <= lowSaturationAreas s /\
  0 <= nearBlackPixels s <= lowSaturationAreas s /\
  lowSaturationAreas s <= candidateArtifacts s /\
  candidateArtifacts s <= brightPixels s <= visible /\
  candidateArtifacts s <= lowSaturationPixels s <= visible /\
  0 <= blackPixels s <= visible.
Proof.
  intros Hwf. cbv zeta.
  pose proof (proj1 Hwf) as Hw. pose proof (proj1 (proj2 Hwf)) as Hh.
  destruct (pipe_counters img params Hwf) as (H1 & H2 & H3 & H4 & H5 & _).
  destruct (pipe_final img params Hwf) as (LF & _ & _ & _ & HB & HR).
  destruct (pipe_black img params Hwf) as (LB & GB & _).
  destruct (pipe_initial img params Hwf) as (LI & _).
  pose proof (pipe_opened_len img params Hwf) as LO.
  cbn [processImage stats] in *.
  replace (width img * height img) with (height img * width img) by lia.
  set (n := height img * width img) in *.
  set (N := Z.to_nat n) in *.
  assert (HnN : Z.of_nat N = n) by (unfold N, n; nia).
  assert (Hcoords : forall i, 0 <= i < Z.of_nat N ->
            exists x y, 0 <= x < width img /\ 0 <= y < height img /\
                        i = y * width img + x).
  { intros i Hi. apply (pixel_coords (width img) (height img) i Hw). unfold n in HnN. lia. }
  (* the number of visible pixels *)
  assert (Hvis : n - count_transparent (data img) n =
                 count_upto (fun p => negb (transparent_at (data img) p)) N).
  { unfold count_transparent. fold N. rewrite <- HnN at 1. clear.
    induction N as [|k IH]; cbn [count_upto]; [reflexivity|].
    destruct (transparent_at (data img) (Z.of_nat k)); cbn [negb]; lia. }
  rewrite Hvis, H1, H2, H3, H4, HB, HR.
  assert (EO : count_true (openedMask_of img params) =
               count_upto (arr_get (openedMask_of img params)) N).
  { rewrite count_true_upto. f_equal. unfold len in LO. unfold N, n. lia. }
  assert (EF : count_true (finalMask_of img params) =
               count_upto (arr_get (finalMask_of img params)) N).
  { rewrite count_true_upto. f_equal. exact LF. }
  assert (EI : count_true (initialMask_of img params) =
               count_upto (arr_get (initialMask_of img params)) N).
  { rewrite count_true_upto. f_equal. exact LI. }
  assert (EB : count_true (blackPixelsMask_of img params) =
               count_upto (arr_get (blackPixelsMask_of img params)) N).
  { rewrite count_true_upto. f_equal. exact LB. }
  assert (OF : count_upto (arr_get (openedMask_of img params)) N <=
               count_upto (arr_get (finalMask_of img params)) N).
  { apply count_upto_le. intros i Hi. destruct (Hcoords i Hi) as (x & y & Hx & Hy & ->).
    now apply opened_final. }
  assert (FI : count_upto (arr_get (finalMask_of img params)) N <=
               count_upto (arr_get (initialMask_of img params)) N).
  { apply count_upto_le. intros i Hi. destruct (Hcoords i Hi) as (x & y & Hx & Hy & ->).
    now apply final_initial. }
  assert (IC : count_upto (arr_get (initialMask_of img params)) N <=
               count_upto (is_candidate params (data img) (hsvValues_of img)) N).
  { apply count_upto_le. intros i Hi. destruct (Hcoords i Hi) as (x & y & Hx & Hy & ->).
    rewrite (initial_get img params Hwf x y Hx Hy). unfold is_initial, is_candidate.
    intros H. apply andb_true_iff in H. destruct H as [-> H].
    apply andb_true_iff in H. destruct H as [-> _]. reflexivity. }
  assert (CB : count_upto (is_candidate params (data img) (hsvValues_of img)) N <=
               count_upto (opaque_bright params (data img) (hsvValues_of img)) N).
  { apply count_upto_le. intros i Hi. unfold is_candidate, opaque_bright. intros H.
    apply andb_true_iff in H. destruct H as [-> H].
    apply andb_true_iff in H. destruct H as [-> _]. reflexivity. }
  assert (CL : count_upto (is_candidate params (data img) (hsvValues_of img)) N <=
               count_upto (opaque_low_saturation params (data img) (hsvValues_of img)) N).
  { apply count_upto_le. intros i Hi. unfold is_candidate, opaque_low_saturation. intros H.
    apply andb_true_iff in H. destruct H as [-> H].
    apply andb_true_iff in H. destruct H as [_ ->]. reflexivity. }
  assert (BV : count_upto (opaque_bright params (data img) (hsvValues_of img)) N <=
               count_upto (fun p => negb (transparent_at (data img) p)) N).
  { apply count_upto_le. intros i Hi. unfold opaque_bright. intros H.
    apply andb_true_iff in H. apply H. }
  assert (LV : count_upto (opaque_low_saturation params (data img) (hsvValues_of img)) N <=
               count_upto (fun p => negb (transparent_at (data img) p)) N).
  { apply count_upto_le. intros i Hi. unfold opaque_low_saturation. intros H.
    apply andb_true_iff in H. apply H. }
  assert (KV : count_upto (arr_get (blackPixelsMask_of img params)) N <=
               count_upto (fun p => negb (transparent_at (data img) p)) N).
  { apply count_upto_le. intros i Hi. rewrite GB by (unfold n in HnN; lia).
    unfold is_black. intros H. apply andb_true_iff in H. apply H. }
  pose proof (count_true_nonneg (openedMask_of img params)).
  pose proof (count_true_nonneg (finalMask_of img params)).
  pose proof (count_true_nonneg (blackPixelsMask_of img params)).
  lia.
Qed.

Lemma statistics_ordered_witness :
  well_formed black_white_2x1 /\
  (0 <= count_true (openedMask_of black_white_2x1 defaultParams) <=
     replacedPixels (stats (processImage black_white_2x1 defaultParams)) /\
   replacedPixels (stats (processImage black_white_2x1 defaultParams)) <=
     lowSaturationAreas (stats (processImage black_white_2x1 defaultParams)) /\
   0 <= nearBlackPixels (stats (processImage black_white_2x1 defaultParams)) <=
     lowSaturationAreas (stats (processImage black_white_2x1 defaultParams)) /\
   lowSaturationAreas (stats (processImage black_white_2x1 defaultParams)) <=
     candidateArtifacts (stats (processImage black_white_2x1 defaultParams)) /\
   candidateArtifacts (stats (processImage black_white_2x1 defaultParams)) <=
     brightPixels (stats (processImage black_white_2x1 defaultParams)) <=
     width black_white_2x1 * height black_white_2x1 -
     count_transparent (data black_white_2x1)
       (width black_white_2x1 * height black_white_2x1) /\
   candidateArtifacts (stats (processImage black_white_2x1 defaultParams)) <=
     lowSaturationPixels (stats (processImage black_white_2x1 defaultParams)) <=
     width black_white_2x1 * height black_white_2x1 -
     count_transparent (data black_white_2x1)
       (width black_white_2x1 * height black_white_2x1) /\
   0 <= blackPixels (stats (processImage black_white_2x1 defaultParams)) <=
     width black_white_2x1 * height black_white_2x1 -
     count_transparent (data black_white_2x1)
       (width black_white_2x1 * height black_white_2x1)).
Proof.
  split; [apply well_formed_black_white_2x1|].
  apply (statistics_ordered black_white_2x1 defaultParams).
  apply well_formed_black_white_2x1.
Defined.

(** ** The size of the structuring element *)

Lemma isNearBlackPixelOptimized_mono (a b : list bool) (w h x y s s' : Z) :
  s / 2 <= s' / 2 ->
  (forall kx ky, 0 <= kx < w -> 0 <= ky < h ->
     arr_get a (ky * w + kx) = true -> arr_get b (ky * w + kx) = true) ->
  isNearBlackPixelOptimized a w h x y s = true ->
  isNearBlackPixelOptimized b w h x y s' = true.
Proof.
  intros Hs Hab. rewrite !isNearBlackPixelOptimized_true.
  intros (kx & ky & Hin & Hd & G). exists kx, ky.
  destruct (in_window_bounds _ _ _ _ _ _ _ Hin) as [Hkx Hky].
  unfold in_window in *.
  assert (0 <= s / 2) by lia.
  split; [lia|]. split; [nia|]. auto.
Qed.

(** X10. The proximity test is monotone: a pixel near a black pixel stays
    near one when the structuring element grows (in [floor (S / 2)]) and
    when pixels are added to the black-pixel mask. *)
Theorem isNearBlackPixelOptimized_monotone (a b : list bool) (w h x y s s' : Z) :
  s / 2 <= s' / 2 ->
  (forall kx ky, 0 <= kx < w -> 0 <= ky < h ->
     arr_get a (ky * w + kx) = true -> arr_get b (ky * w + kx) = true) ->
  isNearBlackPixelOptimized a w h x y s = true ->
  isNearBlackPixelOptimized b w h x y s' = true.
Proof. apply isNearBlackPixelOptimized_mono. Qed.

Lemma isNearBlackPixelOptimized_monotone_witness :
  3 / 2 <= 25 / 2 /\
  (forall kx ky, 0 <= kx < 2 -> 0 <= ky < 1 ->
     arr_get [true; false] (ky * 2 + kx) = true ->
     arr_get [true; true] (ky * 2 + kx) = true) /\
  isNearBlackPixelOptimized [true; false] 2 1 1 0 3 = true /\
  isNearBlackPixelOptimized [true; true] 2 1 1 0 25 = true.
Proof.
  assert (H1 : 3 / 2 <= 25 / 2) by (vm_compute; discriminate).
  assert (H2 : forall kx ky, 0 <= kx < 2 -> 0 <= ky < 1 ->
            arr_get [true; false] (ky * 2 + kx) = true ->
            arr_get [true; true] (ky * 2 + kx) = true).
  { intros kx ky Hx Hy. assert (ky = 0) as -> by lia.
    assert (kx = 0 \/ kx = 1) as [-> | ->] by lia; vm_compute; auto. }
  assert (H3 : isNearBlackPixelOptimized [true; false] 2 1 1 0 3 = true) by reflexivity.
  split; [exact H1|]. split; [exact H2|]. split; [exact H3|].
  exact (isNearBlackPixelOptimized_monotone [true; false] [true; true] 2 1 1 0 3 25
           H1 H2 H3).
Defined.

(** X11. Small structuring elements: with [S < 0] no pixel is near a black
    pixel; with [S] 0 or 1 a pixel of the raster is near a black pixel
    exactly when it is one itself. *)
Theorem isNearBlackPixelOptimized_small (mask : list bool) (w h x y s : Z) :
  s <= 1 ->
  isNearBlackPixelOptimized mask w h x y s =
  (0 <=? s) && (0 <=? x) && (x <? w) && (0 <=? y) && (y <? h) && arr_get mask (y * w + x).
Proof.
  intros Hs. apply eq_true_iff_eq. rewrite isNearBlackPixelOptimized_true.
  rewrite !andb_true_iff, !Z.leb_le, !Z.ltb_lt. unfold in_window. split.
  - intros (kx & ky & Hin & _ & G).
    assert (s / 2 < 1) by (apply Z.div_lt_upper_bound; lia).
    assert (0 <= s / 2) by lia.
    assert (0 <= s) by (destruct (Z_lt_le_dec s 0) as [Hn|]; [|assumption];
                        assert (s / 2 < 0) by (apply Z.div_lt_upper_bound; lia); lia).
    assert (kx = x) by lia. assert (ky = y) by lia. subst. intuition lia.
  - intros (((((H0 & H1) & H2) & H3) & H4) & G).
    assert (s / 2 = 0) by (apply Z.div_small; lia).
    exists x, y. split; [lia|]. split; [nia | exact G].
Qed.

Lemma isNearBlackPixelOptimized_small_witness :
  1 <= 1 /\
  isNearBlackPixelOptimized [true; false] 2 1 1 0 1 =
  (0 <=? 1) && (0 <=? 1) && (1 <? 2) && (0 <=? 0) && (0 <? 1) &&
  arr_get [true; false] (0 * 2 + 1).
Proof.
  split; [lia|].
  exact (isNearBlackPixelOptimized_small [true; false] 2 1 1 0 1 ltac:(lia)).
Defined.

(** ** Parameter records that give the same masks *)

Lemma calculateLocalMeanSaturation_half (d : list Z) (hsv : list HSV) (w h x y k k' : Z) :
  k / 2 = k' / 2 ->
  calculateLocalMeanSaturation d hsv w h x y k = calculateLocalMeanSaturation d hsv w h x y k'.
Proof. intros H. unfold calculateLocalMeanSaturation. rewrite H. reflexivity. Qed.

Lemma morphologicalOpenMask_half (m : list bool) (w h k k' : Z) :
  k / 2 = k' / 2 -> morphologicalOpenMask m w h k = morphologicalOpenMask m w h k'.
Proof.
  intros H. unfold morphologicalOpenMask, erodeMask, dilateMask. rewrite H. reflexivity.
Qed.

Lemma isNearBlackPixelOptimized_half (m : list bool) (w h x y s s' : Z) :
  s / 2 = s' / 2 ->
  isNearBlackPixelOptimized m w h x y s = isNearBlackPixelOptimized m w h x y s'.
Proof. intros H. unfold isNearBlackPixelOptimized. rewrite H. reflexivity. Qed.

Section TwoParams.
Variable img : ImageData.
Variables p q : ProcessingParams.
Hypothesis Hwf : well_formed img.
Hypothesis Hthr : same_thresholds p q.

Lemma blackPixelsMask_same : blackPixelsMask_of img p = blackPixelsMask_of img q.
Proof.
  destruct Hthr as (_ & _ & _ & T4 & T5).
  destruct (pipe_black img p Hwf) as (Lp & Gp & _).
  destruct (pipe_black img q Hwf) as (Lq & Gq & _).
  apply arr_ext; [congruence|].
  intros i Hi. unfold len in Hi. rewrite Lp in Hi.
  destruct Hwf as (Hw & Hh & _).
  assert (Hi' : 0 <= i < height img * width img) by nia.
  rewrite Gp, Gq by assumption. unfold is_black. now rewrite T4, T5.
Qed.

Lemma counters_same_early (i : Z) :
  opaque_bright p (data img) (hsvValues_of img) i =
    opaque_bright q (data img) (hsvValues_of img) i /\
  opaque_low_saturation p (data img) (hsvValues_of img) i =
    opaque_low_saturation q (data img) (hsvValues_of img) i /\
  is_candidate p (data img) (hsvValues_of img) i =
    is_candidate q (data img) (hsvValues_of img) i.
Proof.
  destruct Hthr as (T1 & T2 & _).
  unfold opaque_bright, opaque_low_saturation, is_candidate, is_bright, is_low_saturation.
  now rewrite T1, T2.
Qed.

Lemma initialMask_same :
  blurKernelSize p / 2 = blurKernelSize q / 2 ->
  initialMask_of img p = initialMask_of img q.
Proof.
  intros Hblur. destruct Hthr as (T1 & T2 & T3 & _).
  destruct (pipe_initial img p Hwf) as (Lp & Gp & _).
  destruct (pipe_initial img q Hwf) as (Lq & Gq & _).
  apply arr_ext; [congruence|].
  intros i Hi. unfold len in Hi. rewrite Lp in Hi.
  pose proof (proj1 Hwf) as Hw. pose proof (proj1 (proj2 Hwf)) as Hh.
  assert (Hi' : 0 <= i < height img * width img) by nia.
  destruct (pixel_coords (width img) (height img) i Hw Hi') as (x & y & Hx & Hy & ->).
  rewrite Gp, Gq by assumption.
  unfold is_initial, is_bright, is_low_saturation, is_low_saturation_area.
  rewrite T1, T2, T3.
  now rewrite (calculateLocalMeanSaturation_half _ _ _ _ _ _ _ _ Hblur).
Qed.

End TwoParams.

Lemma sample_coords (w h i : Z) :
  0 <= w -> 0 <= i < 4 * (h * w) ->
  exists x y c, 0 <= x < w /\ 0 <= y < h /\ 0 <= c < 4 /\ i = (y * w + x) * 4 + c.
Proof.
  intros Hw Hi.
  assert (Hp : 0 <= i / 4 < h * w)
    by (split; [apply Z.div_pos; lia | apply Z.div_lt_upper_bound; lia]).
  destruct (pixel_coords w h (i / 4) Hw Hp) as (x & y & Hx & Hy & E).
  exists x, y, (i mod 4). rewrite <- E.
  pose proof (Z.mod_pos_bound i 4 ltac:(lia)). pose proof (Z.div_mod i 4 ltac:(lia)).
  repeat split; lia.
Qed.

Section SameMasks.
Variable img : ImageData.
Variables p q : ProcessingParams.
Hypothesis Hwf : well_formed img.
Hypothesis Hthr : same_thresholds p q.
Hypothesis Hblur : blurKernelSize p / 2 = blurKernelSize q / 2.
Hypothesis Hmorph : morphOpeningKernelSize p / 2 = morphOpeningKernelSize q / 2.

Lemma finalMask_antitone (x y : Z) :
  structuringElementSize p / 2 <= structuringElementSize q / 2 ->
  0 <= x < width img -> 0 <= y < height img ->
  arr_get (finalMask_of img q) (y * width img + x) = true ->
  arr_get (finalMask_of img p) (y * width img + x) = true.
Proof.
  intros Hs Hx Hy.
  rewrite (final_get img p Hwf x y Hx Hy), (final_get img q Hwf x y Hx Hy).
  unfold is_final, is_near_black.
  rewrite <- (initialMask_same img p q Hwf Hthr Hblur).
  rewrite <- (blackPixelsMask_same img p q Hwf Hthr).
  intros H. apply andb_true_iff in H. destruct H as [-> H]. cbn [andb].
  apply negb_true_iff in H. apply negb_true_iff. apply not_true_is_false. intros N.
  assert (N' := isNearBlackPixelOptimized_mono _ (blackPixelsMask_of img p) _ _ _ _ _ _ Hs
                  (fun kx ky _ _ G => G) N).
  congruence.
Qed.

Lemma openedMask_antitone (x y : Z) :
  structuringElementSize p / 2 <= structuringElementSize q / 2 ->
  0 <= x < width img -> 0 <= y < height img ->
  arr_get (openedMask_of img q) (y * width img + x) = true ->
  arr_get (openedMask_of img p) (y * width img + x) = true.
Proof.
  intros Hs Hx Hy. unfold openedMask_of.
  rewrite (morphologicalOpenMask_half _ _ _ _ _ Hmorph).
  apply morphologicalOpenMask_mono;
    auto using pipe_final_len; try apply Hwf.
  intros x' y' Hx' Hy'. now apply finalMask_antitone.
Qed.

Lemma finalMask_same :
  structuringElementSize p / 2 = structuringElementSize q / 2 ->
  finalMask_of img p = finalMask_of img q.
Proof.
  intros Hs.
  destruct (pipe_final img p Hwf) as (Lp & Gp & _).
  destruct (pipe_final img q Hwf) as (Lq & Gq & _).
  apply arr_ext; [congruence|].
  intros i Hi. unfold len in Hi. rewrite Lp in Hi.
  pose proof (proj1 Hwf) as Hw. pose proof (proj1 (proj2 Hwf)) as Hh.
  assert (Hi' : 0 <= i < height img * width img) by nia.
  destruct (pixel_coords (width img) (height img) i Hw Hi') as (x & y & Hx & Hy & ->).
  rewrite Gp, Gq by assumption. unfold is_final, is_near_black.
  rewrite (initialMask_same img p q Hwf Hthr Hblur).
  rewrite (blackPixelsMask_same img p q Hwf Hthr).
  now rewrite (isNearBlackPixelOptimized_half _ _ _ _ _ _ _ Hs).
Qed.

Lemma openedMask_same :
  structuringElementSize p / 2 = structuringElementSize q / 2 ->
  openedMask_of img p = openedMask_of img q.
Proof.
  intros Hs. unfold openedMask_of. rewrite (finalMask_same Hs).
  apply morphologicalOpenMask_half. exact Hmorph.
Qed.

Lemma outputs_same :
  structuringElementSize p / 2 = structuringElementSize q / 2 ->
  data (processedImage (processImage img p)) = data (processedImage (processImage img q)) /\
  data (visualizationImage (processImage img p)) =
  data (visualizationImage (processImage img q)).
Proof.
  intros Hs.
  pose proof (proj1 Hwf) as Hw.
  destruct (pipe_apply img p Hwf) as (L1p & L2p & _).
  destruct (pipe_apply img q Hwf) as (L1q & L2q & _).
  cbn [processImage processedImage visualizationImage data].
  split; apply ta_ext; try (unfold len in *; lia); intros i Hi.
  - rewrite L1p in Hi.
    destruct (sample_coords (width img) (height img) i Hw Hi)
      as (x & y & c & Hx & Hy & Hc & ->).
    pose proof (cleaned_get img p Hwf x y Hx Hy c Hc) as Ep.
    pose proof (cleaned_get img q Hwf x y Hx Hy c Hc) as Eq.
    cbn [processImage processedImage data] in Ep, Eq.
    rewrite Ep, Eq, (openedMask_same Hs). reflexivity.
  - rewrite L2p in Hi.
    destruct (sample_coords (width img) (height img) i Hw Hi)
      as (x & y & c & Hx & Hy & Hc & ->).
    pose proof (visualization_get img p Hwf x y Hx Hy c Hc) as Ep.
    pose proof (visualization_get img q Hwf x y Hx Hy c Hc) as Eq.
    cbn [processImage visualizationImage data] in Ep, Eq.
    rewrite Ep, Eq. unfold green_rule, blue_rule, red_rule, is_whitelisted, is_near_black.
    rewrite (openedMask_same Hs), (initialMask_same img p q Hwf Hthr Hblur),
      (blackPixelsMask_same img p q Hwf Hthr),
      (isNearBlackPixelOptimized_half _ _ _ _ _ _ _ Hs).
    reflexivity.
Qed.

Lemma counters_same :
  structuringElementSize p / 2 = structuringElementSize q / 2 ->
  counters (stats (processImage img p)) = counters (stats (processImage img q)).
Proof.
  intros Hs.
  destruct (pipe_counters img p Hwf) as (P1 & P2 & P3 & P4 & P5 & _).
  destruct (pipe_counters img q Hwf) as (Q1 & Q2 & Q3 & Q4 & Q5 & _).
  destruct (pipe_final img p Hwf) as (_ & _ & _ & _ & PB & PR).
  destruct (pipe_final img q Hwf) as (_ & _ & _ & _ & QB & QR).
  cbn [processImage stats] in *.
  assert (E1 : brightPixels (snd (final_stage img p)) = brightPixels (snd (final_stage img q))).
  { rewrite P1, Q1. apply count_upto_ext. intros i _.
    apply (counters_same_early img p q Hthr i). }
  assert (E2 : lowSaturationPixels (snd (final_stage img p)) =
               lowSaturationPixels (snd (final_stage img q))).
  { rewrite P2, Q2. apply count_upto_ext. intros i _.
    apply (counters_same_early img p q Hthr i). }
  assert (E3 : candidateArtifacts (snd (final_stage img p)) =
               candidateArtifacts (snd (final_stage img q))).
  { rewrite P3, Q3. apply count_upto_ext. intros i _.
    apply (counters_same_early img p q Hthr i). }
  assert (E4 : lowSaturationAreas (snd (final_stage img p)) =
               lowSaturationAreas (snd (final_stage img q))).
  { rewrite P4, Q4. now rewrite (initialMask_same img p q Hwf Hthr Hblur). }
  assert (E6 : replacedPixels (snd (final_stage img p)) =
               replacedPixels (snd (final_stage img q))).
  { rewrite PR, QR. now rewrite (finalMask_same Hs). }
  assert (E7 : blackPixels (snd (final_stage img p)) = blackPixels (snd (final_stage img q))).
  { rewrite PB, QB. now rewrite (blackPixelsMask_same img p q Hwf Hthr). }
  assert (E5 : nearBlackPixels (snd (final_stage img p)) =
               nearBlackPixels (snd (final_stage img q))).
  { rewrite (initialMask_same img p q Hwf Hthr Hblur) in P5. lia. }
  unfold counters. now rewrite E1, E2, E3, E4, E5, E6, E7.
Qed.

End SameMasks.

Lemma same_thresholds_defaults :
  same_thresholds small_element_params defaultParams /\
  same_thresholds defaultParams odd_blur_params.
Proof. unfold same_thresholds. cbn. repeat split. Qed.

(** X12. A larger structuring element erases less: between two parameter
    records with the same thresholds and the same blur and opening kernels
    (in [floor (K / 2)]), every pixel that the record with the larger
    structuring element puts in the final mask, in the opened mask, or makes
    transparent, the other record does too. *)
Theorem larger_structuring_element_erases_less
    (img : ImageData) (p q : ProcessingParams) (x y : Z) :
  well_formed img -> same_thresholds p q ->
  blurKernelSize p / 2 = blurKernelSize q / 2 ->
  morphOpeningKernelSize p / 2 = morphOpeningKernelSize q / 2 ->
  structuringElementSize p / 2 <= structuringElementSize q / 2 ->
  0 <= x < width img -> 0 <= y < height img ->
  let i := y * width img + x in
  (arr_get (finalMask_of img q) i = true -> arr_get (finalMask_of img p) i = true) /\
  (arr_get (openedMask_of img q) i = true -> arr_get (openedMask_of img p) i = true) /\
  (transparent_at (data (processedImage (processImage img q))) i = true ->
   transparent_at (data (processedImage (processImage img p))) i = true).
Proof.
  intros Hwf Hthr Hblur Hmorph Hs Hx Hy i. split; [|split].
  - now apply finalMask_antitone.
  - now apply openedMask_antitone.
  - unfold i. rewrite !cleaned_transparent by assumption.
    intros H. apply orb_true_iff in H. apply orb_true_iff. destruct H as [H | H]; [left | now right].
    now apply (openedMask_antitone img p q).
Qed.

Lemma larger_structuring_element_erases_less_witness :
  well_formed white_1x1 /\ same_thresholds small_element_params defaultParams /\
  blurKernelSize small_element_params / 2 = blurKernelSize defaultParams / 2 /\
  morphOpeningKernelSize small_element_params / 2 = morphOpeningKernelSize defaultParams / 2 /\
  structuringElementSize small_element_params / 2 <= structuringElementSize defaultParams / 2 /\
  0 <= 0 < width white_1x1 /\ 0 <= 0 < height white_1x1 /\
  ((arr_get (finalMask_of white_1x1 defaultParams) (0 * width white_1x1 + 0) = true ->
    arr_get (finalMask_of white_1x1 small_element_params) (0 * width white_1x1 + 0) = true) /\
   (arr_get (openedMask_of white_1x1 defaultParams) (0 * width white_1x1 + 0) = true ->
    arr_get (openedMask_of white_1x1 small_element_params) (0 * width white_1x1 + 0) = true) /\
   (transparent_at (data (processedImage (processImage white_1x1 defaultParams)))
      (0 * width white_1x1 + 0) = true ->
    transparent_at (data (processedImage (processImage white_1x1 small_element_params)))
      (0 * width white_1x1 + 0) = true)).
Proof.
  assert (Hs : structuringElementSize small_element_params / 2 <=
               structuringElementSize defaultParams / 2) by (vm_compute; discriminate).
  split; [apply well_formed_1x1|].
  split; [apply same_thresholds_defaults|].
  split; [reflexivity|]. split; [reflexivity|]. split; [exact Hs|].
  split; [cbn; lia|]. split; [cbn; lia|].
  apply (larger_structuring_element_erases_less white_1x1
           small_element_params defaultParams 0 0);
    [apply well_formed_1x1 | apply same_thresholds_defaults
    | reflexivity | reflexivity | exact Hs | cbn; lia | cbn; lia].
Defined.

(** X13. The three sizes matter only through [floor (size / 2)]: two
    parameter records with the same thresholds whose sizes have the same
    halves (an even size and the next odd one, say) give the same cleaned
    raster, the same visualization and the same seven counters. *)
Theorem sizes_matter_by_halves (img : ImageData) (p q : ProcessingParams) :
  well_formed img -> same_thresholds p q ->
  structuringElementSize p / 2 = structuringElementSize q / 2 ->
  blurKernelSize p / 2 = blurKernelSize q / 2 ->
  morphOpeningKernelSize p / 2 = morphOpeningKernelSize q / 2 ->
  processedImage (processImage img p) = processedImage (processImage img q) /\
  visualizationImage (processImage img p) = visualizationImage (processImage img q) /\
  counters (stats (processImage img p)) = counters (stats (processImage img q)).
Proof.
  intros Hwf Hthr Hs Hblur Hmorph.
  destruct (outputs_same img p q Hwf Hthr Hblur Hmorph Hs) as [E1 E2].
  cbn [processImage processedImage visualizationImage data] in *.
  rewrite E1, E2. split; [reflexivity|]. split; [reflexivity|].
  now apply counters_same.
Qed.

Lemma sizes_matter_by_halves_witness :
  well_formed white_5x5 /\ same_thresholds defaultParams odd_blur_params /\
  structuringElementSize defaultParams / 2 = structuringElementSize odd_blur_params / 2 /\
  blurKernelSize defaultParams / 2 = blurKernelSize odd_blur_params / 2 /\
  morphOpeningKernelSize defaultParams / 2 = morphOpeningKernelSize odd_blur_params / 2 /\
  (processedImage (processImage white_5x5 defaultParams) =
   processedImage (processImage white_5x5 odd_blur_params) /\
   visualizationImage (processImage white_5x5 defaultParams) =
   visualizationImage (processImage white_5x5 odd_blur_params) /\
   counters (stats (processImage white_5x5 defaultParams)) =
   counters (stats (processImage white_5x5 odd_blur_params))).
Proof.
  assert (Hwf : well_formed white_5x5) by (unfold well_formed, len; cbn; lia).
  split; [exact Hwf|]. split; [apply same_thresholds_defaults|].
  split; [reflexivity|]. split; [reflexivity|]. split; [reflexivity|].
  apply (sizes_matter_by_halves white_5x5 defaultParams odd_blur_params);
    [exact Hwf | apply same_thresholds_defaults | reflexivity | reflexivity | reflexivity].
Defined.

(** ** Shape of the outputs *)

Lemma In_ta_get (l : list Z) (v : Z) :
  In v l -> exists i, 0 <= i < len l /\ ta_get l i = Some v.
Proof.
  intros H. apply In_nth_error in H. destruct H as [n E].
  assert (n < length l)%nat by (apply nth_error_Some; congruence).
  exists (Z.of_nat n). split; [unfold len; lia|].
  unfold ta_get. destruct (Z.ltb_spec (Z.of_nat n) 0); [lia|]. now rewrite Nat2Z.id.
Qed.

Lemma ta_get_In (l : list Z) (i v : Z) : ta_get l i = Some v -> In v l.
Proof.
  unfold ta_get. destruct (i <? 0); [discriminate|]. apply nth_error_In.
Qed.

Lemma channel_of_byte (c : Z) :
  (0 <= red c <= 255) /\ (0 <= green c <= 255) /\ (0 <= blue c <= 255).
Proof.
  unfold red, green, blue, channel_of.
  destruct (c =? 0), (c =? 1); lia.
Qed.

(** X14. Both output rasters have the width, the height and the number of
    samples of the source, and when every sample of the source is an 8-bit
    value, so is every sample of the outputs (the pipeline writes only 0 and
    255). *)
Theorem outputs_well_formed (img : ImageData) (params : ProcessingParams) :
  well_formed img ->
  (forall v, In v (data img) -> 0 <= v <= 255) ->
  let r := processImage img params in
  well_formed (processedImage r) /\ well_formed (visualizationImage r) /\
  width (processedImage r) = width img /\ height (processedImage r) = height img /\
  width (visualizationImage r) = width img /\ height (visualizationImage r) = height img /\
  (forall v, In v (data (processedImage r)) -> 0 <= v <= 255) /\
  (forall v, In v (data (visualizationImage r)) -> 0 <= v <= 255).
Proof.
  intros Hwf Hbyte r. pose proof Hwf as (Hw & Hh & Hd).
  destruct (pipe_apply img params Hwf) as (L1 & L2 & _).
  split; [|split; [|split; [|split; [|split; [|split; [|split]]]]]];
    try reflexivity.
  - unfold well_formed, r. cbn [processImage processedImage width height data].
    repeat split; try assumption. rewrite L1. lia.
  - unfold well_formed, r. cbn [processImage visualizationImage width height data].
    repeat split; try assumption. rewrite L2. lia.
  - intros v Hv. apply In_ta_get in Hv. destruct Hv as (i & Hi & E).
    unfold r in Hi, E. cbn [processImage processedImage data] in Hi.
    rewrite L1 in Hi.
    destruct (sample_coords (width img) (height img) i Hw Hi)
      as (x & y & c & Hx & Hy & Hc & ->).
    rewrite (cleaned_get img params Hwf x y Hx Hy c Hc) in E.
    destruct (arr_get _ _); [injection E as <-; lia|].
    apply Hbyte. eapply ta_get_In. exact E.
  - intros v Hv. apply In_ta_get in Hv. destruct Hv as (i & Hi & E).
    unfold r in Hi, E. cbn [processImage visualizationImage data] in Hi.
    rewrite L2 in Hi.
    destruct (sample_coords (width img) (height img) i Hw Hi)
      as (x & y & c & Hx & Hy & Hc & ->).
    rewrite (visualization_get img params Hwf x y Hx Hy c Hc) in E.
    pose proof (channel_of_byte c) as (Hr & Hg & Hb).
    destruct (c <? 3); [|apply Hbyte; eapply ta_get_In; exact E].
    destruct (green_rule _ _ _ _); [injection E as <-; exact Hg|].
    destruct (blue_rule _ _ _ _); [injection E as <-; exact Hb|].
    destruct (red_rule _ _ _ _); [injection E as <-; exact Hr|].
    apply Hbyte. eapply ta_get_In. exact E.
Qed.

Lemma outputs_well_formed_witness :
  well_formed black_white_2x1 /\
  (forall v, In v (data black_white_2x1) -> 0 <= v <= 255) /\
  (well_formed (processedImage (processImage black_white_2x1 defaultParams)) /\
   well_formed (visualizationImage (processImage black_white_2x1 defaultParams)) /\
   width (processedImage (processImage black_white_2x1 defaultParams)) =
     width black_white_2x1 /\
   height (processedImage (processImage black_white_2x1 defaultParams)) =
     height black_white_2x1 /\
   width (visualizationImage (processImage black_white_2x1 defaultParams)) =
     width black_white_2x1 /\
   height (visualizationImage (processImage black_white_2x1 defaultParams)) =
     height black_white_2x1 /\
   (forall v, In v (data (processedImage (processImage black_white_2x1 defaultParams))) ->
              0 <= v <= 255) /\
   (forall v, In v (data (visualizationImage (processImage black_white_2x1 defaultParams))) ->
              0 <= v <= 255)).
Proof.
  assert (Hb : forall v, In v (data black_white_2x1) -> 0 <= v <= 255).
  { intros v Hv. cbn in Hv. intuition lia. }
  split; [apply well_formed_black_white_2x1|]. split; [exact Hb|].
  apply (outputs_well_formed black_white_2x1 defaultParams);
    [apply well_formed_black_white_2x1 | exact Hb].
Defined.

(** ** The order of numbers *)

Lemma SFltb_leb_trans (a b c : spec_float) :
  SFltb a b = true -> SFleb b c = true -> SFltb a c = true.
Proof.
  unfold SFltb, SFleb, SFcompare.
  destruct a as [sa | sa | | sa ma ea], b as [sb | sb | | sb mb eb],
           c as [sc | sc | | sc mc ec]; sf_compare.
Qed.

Lemma SFleb_ltb_trans (a b c : spec_float) :
  SFleb a b = true -> SFltb b c = true -> SFltb a c = true.
Proof.
  unfold SFltb, SFleb, SFcompare.
  destruct a as [sa | sa | | sa ma ea], b as [sb | sb | | sb mb eb],
           c as [sc | sc | | sc mc ec]; sf_compare.
Qed.

Lemma SFltb_asym (a b : spec_float) : SFltb a b = true -> SFltb b a = false.
Proof.
  unfold SFltb, SFcompare.
  destruct a as [sa | sa | | sa ma ea], b as [sb | sb | | sb mb eb]; sf_compare.
Qed.

Lemma SFltb_leb (a b : spec_float) : SFltb a b = true -> SFleb a b = true.
Proof.
  unfold SFltb, SFleb. destruct (SFcompare a b) as [[]|]; congruence.
Qed.

Lemma SFleb_total (a b : spec_float) :
  a <> S754_nan -> b <> S754_nan -> SFltb a b = false -> SFleb b a = true.
Proof.
  unfold SFltb, SFleb, SFcompare.
  destruct a as [sa | sa | | sa ma ea], b as [sb | sb | | sb mb eb];
    try congruence; sf_compare.
Qed.

Lemma ltb_leb_trans (a b c : number) :
  (a <? b)%float = true -> (b <=? c)%float = true -> (a <? c)%float = true.
Proof. rewrite !ltb_spec, leb_spec. apply SFltb_leb_trans. Qed.

Lemma leb_ltb_trans (a b c : number) :
  (a <=? b)%float = true -> (b <? c)%float = true -> (a <? c)%float = true.
Proof. rewrite !ltb_spec, leb_spec. apply SFleb_ltb_trans. Qed.

Lemma ltb_asym (a b : number) : (a <? b)%float = true -> (b <? a)%float = false.
Proof. rewrite !ltb_spec. apply SFltb_asym. Qed.

Lemma ltb_leb (a b : number) : (a <? b)%float = true -> (a <=? b)%float = true.
Proof. rewrite ltb_spec, leb_spec. apply SFltb_leb. Qed.

Lemma is_nan_false (a : number) : PrimFloat.is_nan a = false -> Prim2SF a <> S754_nan.
Proof.
  unfold PrimFloat.is_nan. rewrite eqb_spec. intros H E. rewrite E in H. discriminate.
Qed.

Lemma leb_total (a b : number) :
  PrimFloat.is_nan a = false -> PrimFloat.is_nan b = false ->
  (a <? b)%float = false -> (b <=? a)%float = true.
Proof.
  intros Ha Hb. rewrite ltb_spec, leb_spec.
  apply SFleb_total; now apply is_nan_false.
Qed.

(** A pixel cannot be darker than a threshold and brighter than a larger
    one. *)
Lemma not_black_and_bright (params : ProcessingParams) (d : list Z) (hsv : list HSV)
    (p : Z) :
  (blackPixelBrightnessThreshold params <=? brightnessThreshold params)%float = true ->
  is_black params d hsv p = true -> is_bright params hsv p = false.
Proof.
  intros Hle Hb. unfold is_black in Hb. unfold is_bright.
  apply andb_true_iff in Hb. destruct Hb as [_ Hb].
  apply andb_true_iff in Hb. destruct Hb as [Hv _].
  apply ltb_asym. exact (ltb_leb_trans _ _ _ Hv Hle).
Qed.

(** ** Colours of the visualization, for thresholds in order *)

(** X15. When the black-pixel brightness threshold is at most the brightness
    threshold (as in the default parameters) and the structuring-element
    size is not negative, the colour coding holds in full: green exactly on
    the pixels made transparent, red on every black pixel that is not green,
    and never two rules on one pixel. *)
Theorem color_coding_for_ordered_thresholds (img : ImageData) (params : ProcessingParams) :
  well_formed img ->
  (blackPixelBrightnessThreshold params <=? brightnessThreshold params)%float = true ->
  0 <= structuringElementSize params ->
  color_coding img params.
Proof.
  intros Hwf Hle Hs x y Hx Hy.
  assert (HRB : red_rule img params x y && blue_rule img params x y = false).
  { destruct (red_rule img params x y) eqn:R; [|reflexivity]. cbn [andb].
    unfold red_rule in R. rewrite (black_get img params Hwf x y Hx Hy) in R.
    apply (not_black_and_bright params _ _ _ Hle) in R.
    unfold blue_rule, is_whitelisted.
    rewrite (initial_get img params Hwf x y Hx Hy). unfold is_initial.
    rewrite R. now rewrite andb_false_r. }
  assert (HRG : red_rule img params x y && green_rule img params x y = false).
  { destruct (red_rule img params x y) eqn:R; [|reflexivity]. cbn [andb].
    unfold green_rule. unfold red_rule in R.
    destruct (arr_get (openedMask_of img params) (y * width img + x)) eqn:G; [|reflexivity].
    apply (opened_final img params Hwf x y Hx Hy) in G.
    rewrite (black_not_final img params Hwf x y Hx Hy Hs R) in G. discriminate. }
  assert (HBG : blue_rule img params x y && green_rule img params x y = false).
  { destruct (green_rule img params x y) eqn:G; [|apply andb_false_r].
    unfold green_rule in G.
    apply (opened_final img params Hwf x y Hx Hy) in G.
    apply (final_not_whitelisted img params Hwf x y Hx Hy) in G. now rewrite G. }
  split; [|split; [|split; [|split]]]; try assumption.
  - unfold green_rule, made_transparent.
    rewrite (cleaned_transparent img params Hwf x y Hx Hy). split.
    + intros G. rewrite G. split; [reflexivity|].
      now apply (opened_not_transparent img params Hwf x y Hx Hy).
    + intros [H1 H2]. rewrite H2, orb_false_r in H1. exact H1.
  - intros R G c Hc.
    rewrite (visualization_get img params Hwf x y Hx Hy c ltac:(lia)).
    rewrite R in HRB. cbn [andb] in HRB. rewrite G, HRB, R.
    destruct (Z.ltb_spec c 3); [reflexivity | lia].
Qed.

Lemma color_coding_for_ordered_thresholds_witness :
  well_formed black_white_2x1 /\
  (blackPixelBrightnessThreshold defaultParams <=? brightnessThreshold defaultParams)%float
    = true /\
  0 <= structuringElementSize defaultParams /\
  color_coding black_white_2x1 defaultParams.
Proof.
  assert (Hs : 0 <= structuringElementSize defaultParams) by (cbn; lia).
  split; [apply well_formed_black_white_2x1|]. split; [reflexivity|]. split; [exact Hs|].
  apply (color_coding_for_ordered_thresholds black_white_2x1 defaultParams);
    [apply well_formed_black_white_2x1 | reflexivity | exact Hs].
Defined.

(** ** Colour conversion of 8-bit samples *)

Lemma all_below_spec (f : Z -> bool) :
  forall n, all_below n f = true -> forall k, 0 <= k < Z.of_nat n -> f k = true.
Proof.
  induction n as [|n IH]; intros H k Hk; [lia|].
  cbn [all_below] in H. apply andb_true_iff in H. destruct H as [H1 H2].
  destruct (Z.eq_dec k (Z.of_nat n)) as [->|]; [exact H1 | apply IH; [exact H2 | lia]].
Qed.

Lemma all_below2_spec (f : Z -> Z -> bool) (n : nat) :
  all_below n (fun a => all_below n (fun b => f a b)) = true ->
  forall a b, 0 <= a < Z.of_nat n -> 0 <= b < Z.of_nat n -> f a b = true.
Proof.
  intros H a b Ha Hb.
  apply (all_below_spec _ n (all_below_spec _ n H a Ha) b Hb).
Qed.

(** The scaled channels are ordered as the samples, and none is NaN. *)
Lemma unit_channel_order (a b : Z) :
  0 <= a <= 255 -> 0 <= b <= 255 ->
  (unit_channel a <? unit_channel b)%float = (a <? b) /\
  PrimFloat.is_nan (unit_channel a) = false.
Proof.
  intros Ha Hb.
  assert (H : all_below 256 (fun a => all_below 256 (fun b =>
                Bool.eqb (unit_channel a <? unit_channel b)%float (a <? b) &&
                negb (PrimFloat.is_nan (unit_channel a)))) = true)
    by (vm_compute; reflexivity).
  pose proof (all_below2_spec _ 256 H a b ltac:(lia) ltac:(lia)) as E.
  cbv beta in E. apply andb_true_iff in E. destruct E as [E1 E2].
  split; [now apply eqb_prop | now apply negb_true_iff].
Qed.

Lemma Math_max_unit (a b : Z) :
  0 <= a <= 255 -> 0 <= b <= 255 ->
  Math_max (unit_channel a) (unit_channel b) = unit_channel (Z.max a b).
Proof.
  intros Ha Hb. unfold Math_max.
  destruct (unit_channel_order a b Ha Hb) as [E Na].
  destruct (unit_channel_order b a Hb Ha) as [_ Nb].
  rewrite Na, Nb, E. cbn [orb].
  destruct (Z.ltb_spec a b); f_equal; lia.
Qed.

Lemma Math_min_unit (a b : Z) :
  0 <= a <= 255 -> 0 <= b <= 255 ->
  Math_min (unit_channel a) (unit_channel b) = unit_channel (Z.min a b).
Proof.
  intros Ha Hb. unfold Math_min.
  destruct (unit_channel_order a b Ha Hb) as [_ Na].
  destruct (unit_channel_order b a Hb Ha) as [E Nb].
  rewrite Na, Nb, E. cbn [orb].
  destruct (Z.ltb_spec b a); f_equal; lia.
Qed.

Lemma rgbToHsv_saturation_value (r g b : Z) :
  0 <= r <= 255 -> 0 <= g <= 255 -> 0 <= b <= 255 ->
  let c := rgbToHsv (num_of_Z r) (num_of_Z g) (num_of_Z b) in
  hsv_s c = saturation_of (Z.max (Z.max r g) b) (Z.min (Z.min r g) b) /\
  hsv_v c = value_of (Z.max (Z.max r g) b).
Proof.
  intros Hr Hg Hb. unfold rgbToHsv, hsv_s, hsv_v. cbn [fst snd].
  fold (unit_channel r) (unit_channel g) (unit_channel b).
  rewrite (Math_max_unit r g), (Math_max_unit (Z.max r g) b) by lia.
  rewrite (Math_min_unit r g), (Math_min_unit (Z.min r g) b) by lia.
  split; reflexivity.
Qed.

Lemma saturation_value_table (hi lo : Z) :
  0 <= lo <= hi -> hi <= 255 ->
  (0 <=? saturation_of hi lo)%float = true /\
  (saturation_of hi lo <=? 100)%float = true /\
  (0 <=? value_of hi)%float = true /\
  (value_of hi <=? 100)%float = true /\
  (saturation_of hi lo =? 0)%float = (hi =? lo) /\
  (value_of hi =? 0)%float = (hi =? 0).
Proof.
  intros Hlo Hhi.
  assert (H : all_below 256 (fun hi => all_below 256 (fun lo =>
                saturation_value_ok hi lo)) = true)
    by (vm_compute; reflexivity).
  pose proof (all_below2_spec _ 256 H hi lo ltac:(lia) ltac:(lia)) as E.
  unfold saturation_value_ok in E.
  destruct (Z.leb_spec lo hi); [|lia]. cbn [negb orb] in E.
  repeat (apply andb_true_iff in E; destruct E as [E ?]).
  repeat split; try assumption; now apply eqb_prop.
Qed.

(** X16. For 8-bit samples [rgbToHsv] returns a saturation and a value in
    the documented range 0..100; the saturation is 0 exactly for the greys
    ([r = g = b]), the value is 0 exactly for black, and a grey has hue 0. *)
Theorem rgbToHsv_ranges (r g b : Z) :
  0 <= r <= 255 -> 0 <= g <= 255 -> 0 <= b <= 255 ->
  let c := rgbToHsv (num_of_Z r) (num_of_Z g) (num_of_Z b) in
  (0 <=? hsv_s c)%float = true /\ (hsv_s c <=? 100)%float = true /\
  (0 <=? hsv_v c)%float = true /\ (hsv_v c <=? 100)%float = true /\
  ((hsv_s c =? 0)%float = true <-> r = g /\ g = b) /\
  ((hsv_v c =? 0)%float = true <-> r = 0 /\ g = 0 /\ b = 0) /\
  (r = g -> g = b -> hsv_h c = 0%float).
Proof.
  intros Hr Hg Hb c.
  destruct (rgbToHsv_saturation_value r g b Hr Hg Hb) as [Es Ev]. fold c in Es, Ev.
  destruct (saturation_value_table (Z.max (Z.max r g) b) (Z.min (Z.min r g) b)
              ltac:(lia) ltac:(lia)) as (S1 & S2 & V1 & V2 & S0 & V0).
  rewrite Es, Ev.
  split; [exact S1|]. split; [exact S2|]. split; [exact V1|]. split; [exact V2|].
  split; [|split].
  - rewrite S0, Z.eqb_eq. lia.
  - rewrite V0, Z.eqb_eq. lia.
  - intros <- <-. unfold c, rgbToHsv, hsv_h. cbn [fst].
    fold (unit_channel r).
    rewrite !Math_max_unit, !Math_min_unit by lia.
    rewrite !Z.max_id, !Z.min_id.
    destruct (unit_channel_order r r Hr Hr) as [_ N].
    unfold PrimFloat.is_nan in N. apply negb_false_iff in N.
    rewrite N. reflexivity.
Qed.

Lemma rgbToHsv_ranges_witness :
  0 <= 51 <= 255 /\ 0 <= 51 <= 255 /\ 0 <= 51 <= 255 /\
  ((0 <=? hsv_s (rgbToHsv (num_of_Z 51) (num_of_Z 51) (num_of_Z 51)))%float = true /\
   (hsv_s (rgbToHsv (num_of_Z 51) (num_of_Z 51) (num_of_Z 51)) <=? 100)%float = true /\
   (0 <=? hsv_v (rgbToHsv (num_of_Z 51) (num_of_Z 51) (num_of_Z 51)))%float = true /\
   (hsv_v (rgbToHsv (num_of_Z 51) (num_of_Z 51) (num_of_Z 51)) <=? 100)%float = true /\
   ((hsv_s (rgbToHsv (num_of_Z 51) (num_of_Z 51) (num_of_Z 51)) =? 0)%float = true <->
    51 = 51 /\ 51 = 51) /\
   ((hsv_v (rgbToHsv (num_of_Z 51) (num_of_Z 51) (num_of_Z 51)) =? 0)%float = true <->
    51 = 0 /\ 51 = 0 /\ 51 = 0) /\
   (51 = 51 -> 51 = 51 ->
    hsv_h (rgbToHsv (num_of_Z 51) (num_of_Z 51) (num_of_Z 51)) = 0%float)).
Proof.
  split; [lia|]. split; [lia|]. split; [lia|].
  apply (rgbToHsv_ranges 51 51 51); lia.
Defined.

(** In the pipeline the conversion is applied to the samples of the raster. *)
Lemma pixel_hsv_samples (d : list Z) (p r g b : Z) :
  ta_get d (p * 4) = Some r -> ta_get d (p * 4 + 1) = Some g ->
  ta_get d (p * 4 + 2) = Some b ->
  pixel_hsv d p = rgbToHsv (num_of_Z r) (num_of_Z g) (num_of_Z b).
Proof. intros Er Eg Eb. unfold pixel_hsv. now rewrite Er, Eg, Eb. Qed.

(** ** Thresholds at the ends of the scale *)

Lemma count_true_all_false (m : list bool) :
  (forall i, 0 <= i < len m -> arr_get m i = false) -> count_true m = 0.
Proof.
  intros H. rewrite count_true_upto. apply count_upto_zero. exact H.
Qed.

Section ByteRaster.
Variable img : ImageData.
Variable params : ProcessingParams.
Hypothesis Hwf : well_formed img.
Hypothesis Hbyte : forall v, In v (data img) -> 0 <= v <= 255.

(** The saturation and the value of every pixel of a raster of 8-bit
    samples lie between 0 and 100. *)
Lemma pipe_hsv_ranges (p : Z) :
  0 <= p < height img * width img ->
  let c := hsv_get (hsvValues_of img) p in
  (0 <=? hsv_s c)%float = true /\ (hsv_s c <=? 100)%float = true /\
  (0 <=? hsv_v c)%float = true /\ (hsv_v c <=? 100)%float = true.
Proof.
  intros Hp c. unfold c.
  destruct (pipe_hsv img Hwf) as [_ E]. rewrite (E p Hp).
  assert (Hd : len (data img) = 4 * (height img * width img))
    by (destruct Hwf as (_ & _ & L); rewrite L; lia).
  destruct (ta_get_in_range (data img) (p * 4) ltac:(lia)) as [r Er].
  destruct (ta_get_in_range (data img) (p * 4 + 1) ltac:(lia)) as [g Eg].
  destruct (ta_get_in_range (data img) (p * 4 + 2) ltac:(lia)) as [b Eb].
  unfold pixel_hsv. rewrite Er, Eg, Eb. cbn [num_of_sample].
  pose proof (Hbyte r (ta_get_In _ _ _ Er)) as Hr.
  pose proof (Hbyte g (ta_get_In _ _ _ Eg)) as Hg.
  pose proof (Hbyte b (ta_get_In _ _ _ Eb)) as Hb.
  destruct (rgbToHsv_saturation_value r g b Hr Hg Hb) as [Es Ev].
  cbv zeta in Es, Ev. rewrite Es, Ev.
  destruct (saturation_value_table (Z.max (Z.max r g) b) (Z.min (Z.min r g) b)
              ltac:(lia) ltac:(lia)) as (S1 & S2 & V1 & V2 & _).
  auto.
Qed.

Lemma not_bright_at_100 (p : Z) :
  0 <= p < height img * width img ->
  (100 <=? brightnessThreshold params)%float = true ->
  is_bright params (hsvValues_of img) p = false.
Proof.
  intros Hp Ht. destruct (pipe_hsv_ranges p Hp) as (_ & _ & _ & V).
  unfold is_bright.
  destruct (brightnessThreshold params <? hsv_v (hsv_get (hsvValues_of img) p))%float eqn:E;
    [|reflexivity].
  pose proof (ltb_leb_trans _ _ _ E V) as H1.
  pose proof (leb_ltb_trans _ _ _ Ht H1) as H2.
  vm_compute in H2. discriminate.
Qed.

Lemma not_below_0 (t v : number) :
  (t <=? 0)%float = true -> (0 <=? v)%float = true -> (v <? t)%float = false.
Proof.
  intros Ht Hv. destruct (v <? t)%float eqn:E; [|reflexivity].
  pose proof (ltb_leb_trans _ _ _ E Ht) as H1.
  pose proof (leb_ltb_trans _ _ _ Hv H1) as H2.
  vm_compute in H2. discriminate.
Qed.

Lemma not_low_saturation_at_0 (p : Z) :
  0 <= p < height img * width img ->
  (saturationThreshold params <=? 0)%float = true ->
  is_low_saturation params (hsvValues_of img) p = false.
Proof.
  intros Hp Ht. destruct (pipe_hsv_ranges p Hp) as (S & _).
  unfold is_low_saturation. now apply not_below_0.
Qed.

Lemma not_black_at_0 (p : Z) :
  0 <= p < height img * width img ->
  (blackPixelBrightnessThreshold params <=? 0)%float = true \/
  (blackPixelSaturationThreshold params <=? 0)%float = true ->
  is_black params (data img) (hsvValues_of img) p = false.
Proof.
  intros Hp Ht. destruct (pipe_hsv_ranges p Hp) as (S & _ & V & _).
  unfold is_black. destruct Ht as [Ht | Ht].
  - rewrite (not_below_0 _ _ Ht V). cbn [andb]. apply andb_false_r.
  - rewrite (not_below_0 _ _ Ht S). rewrite !andb_false_r. reflexivity.
Qed.

End ByteRaster.

(** X17. On a raster of 8-bit samples a brightness threshold of 100 or
    more, or a saturation threshold of 0 or less, switches the cleaning off:
    no pixel is a candidate artifact, the cleaned raster is the source, and
    the counters from [candidateArtifacts] on are 0. *)
Theorem extreme_thresholds_erase_nothing (img : ImageData) (params : ProcessingParams) :
  well_formed img ->
  (forall v, In v (data img) -> 0 <= v <= 255) ->
  (100 <=? brightnessThreshold params)%float = true \/
  (saturationThreshold params <=? 0)%float = true ->
  let r := processImage img params in
  data (processedImage r) = data img /\
  candidateArtifacts (stats r) = 0 /\ lowSaturationAreas (stats r) = 0 /\
  nearBlackPixels (stats r) = 0 /\ replacedPixels (stats r) = 0.
Proof.
  intros Hwf Hbyte Ht r.
  pose proof (proj1 Hwf) as Hw. pose proof (proj1 (proj2 Hwf)) as Hh.
  assert (Hcand : forall p, 0 <= p < height img * width img ->
            is_bright params (hsvValues_of img) p &&
            is_low_saturation params (hsvValues_of img) p = false).
  { intros p Hp. destruct Ht as [Ht | Ht].
    - now rewrite (not_bright_at_100 img params Hwf Hbyte p Hp Ht).
    - rewrite (not_low_saturation_at_0 img params Hwf Hbyte p Hp Ht). apply andb_false_r. }
  assert (Hinit : forall i, 0 <= i < len (initialMask_of img params) ->
            arr_get (initialMask_of img params) i = false).
  { intros i Hi. rewrite (pipe_initial_len img params Hwf) in Hi.
    destruct (pixel_coords _ _ i Hw Hi) as (x & y & Hx & Hy & ->).
    rewrite (initial_get img params Hwf x y Hx Hy). unfold is_initial.
    rewrite (Hcand _ Hi). cbn [andb]. apply andb_false_r. }
  assert (Hfinal : forall i, 0 <= i < len (finalMask_of img params) ->
            arr_get (finalMask_of img params) i = false).
  { intros i Hi. rewrite (pipe_final_len img params Hwf) in Hi.
    destruct (pixel_coords _ _ i Hw Hi) as (x & y & Hx & Hy & ->).
    destruct (arr_get (finalMask_of img params) (y * width img + x)) eqn:E; [|reflexivity].
    apply (final_initial img params Hwf x y Hx Hy) in E.
    rewrite Hinit in E; [discriminate|].
    now rewrite (pipe_initial_len img params Hwf). }
  destruct (pipe_counters img params Hwf) as (_ & _ & C3 & C4 & C5 & _).
  destruct (pipe_final img params Hwf) as (_ & _ & _ & _ & _ & CR).
  fold r in C3, C4, C5. cbv zeta in C3.
  assert (R0 : replacedPixels (stats r) = 0).
  { unfold r. cbn [processImage stats]. rewrite CR. now apply count_true_all_false. }
  assert (I0 : count_true (initialMask_of img params) = 0)
    by now apply count_true_all_false.
  split; [|split; [|split; [|split]]].
  - destruct (pipe_apply img params Hwf) as (L1 & _).
    unfold r. cbn [processImage processedImage data].
    assert (Hd : len (data img) = 4 * (height img * width img))
      by (destruct Hwf as (_ & _ & L); rewrite L; lia).
    apply ta_ext; [unfold len in *; lia|]. intros i Hi. rewrite L1 in Hi.
    destruct (sample_coords _ _ i Hw Hi) as (x & y & c & Hx & Hy & Hc & ->).
    pose proof (cleaned_get img params Hwf x y Hx Hy c Hc) as E.
    cbn [processImage processedImage data] in E. rewrite E.
    destruct (arr_get (openedMask_of img params) (y * width img + x)) eqn:G; [|reflexivity].
    apply (opened_final img params Hwf x y Hx Hy) in G.
    rewrite Hfinal in G; [discriminate|].
    rewrite (pipe_final_len img params Hwf). now apply raster_index_bound.
  - rewrite C3. apply count_upto_zero. intros p Hp. unfold is_candidate.
    rewrite Hcand by nia. apply andb_false_r.
  - now rewrite C4.
  - lia.
  - exact R0.
Qed.

Lemma extreme_thresholds_erase_nothing_witness :
  well_formed white_1x1 /\
  (forall v, In v (data white_1x1) -> 0 <= v <= 255) /\
  ((100 <=? brightnessThreshold
      (handleParameterChange (ThresholdChange BrightnessThreshold 100%float) defaultParams))%float
     = true \/
   (saturationThreshold
      (handleParameterChange (ThresholdChange BrightnessThreshold 100%float) defaultParams)
      <=? 0)%float = true) /\
  let r := processImage white_1x1
             (handleParameterChange (ThresholdChange BrightnessThreshold 100%float) defaultParams) in
  data (processedImage r) = data white_1x1 /\
  candidateArtifacts (stats r) = 0 /\ lowSaturationAreas (stats r) = 0 /\
  nearBlackPixels (stats r) = 0 /\ replacedPixels (stats r) = 0.
Proof.
  assert (Hb : forall v, In v (data white_1x1) -> 0 <= v <= 255).
  { intros v Hv. cbn in Hv. intuition lia. }
  split; [apply (well_formed_1x1 255 255 255 255)|]. split; [exact Hb|].
  split; [left; reflexivity|].
  apply (extreme_thresholds_erase_nothing white_1x1
           (handleParameterChange (ThresholdChange BrightnessThreshold 100%float) defaultParams)
           (well_formed_1x1 255 255 255 255) Hb).
  left. reflexivity.
Defined.

(** X18. On a raster of 8-bit samples a black-pixel brightness or
    saturation threshold of 0 or less switches the protection of the
    neighbourhood of black pixels off: no pixel is black, the final mask is
    the initial mask, the visualization has neither red nor blue, and every
    pixel counted in [lowSaturationAreas] is counted in [replacedPixels]. *)
Theorem no_black_pixels_at_zero (img : ImageData) (params : ProcessingParams) :
  well_formed img ->
  (forall v, In v (data img) -> 0 <= v <= 255) ->
  (blackPixelBrightnessThreshold params <=? 0)%float = true \/
  (blackPixelSaturationThreshold params <=? 0)%float = true ->
  let r := processImage img params in
  blackPixels (stats r) = 0 /\ nearBlackPixels (stats r) = 0 /\
  replacedPixels (stats r) = lowSaturationAreas (stats r) /\
  finalMask_of img params = initialMask_of img params /\
  (forall x y, 0 <= x < width img -> 0 <= y < height img ->
     red_rule img params x y = false /\ blue_rule img params x y = false).
Proof.
  intros Hwf Hbyte Ht r.
  pose proof (proj1 Hwf) as Hw. pose proof (proj1 (proj2 Hwf)) as Hh.
  destruct (pipe_black img params Hwf) as (LB & GB & _).
  assert (Hblack : forall p, 0 <= p < height img * width img ->
            arr_get (blackPixelsMask_of img params) p = false).
  { intros p Hp. rewrite (GB p Hp). now apply not_black_at_0. }
  assert (Hnear : forall x y,
            is_near_black params (blackPixelsMask_of img params)
              (width img) (height img) x y = false).
  { intros x y. unfold is_near_black.
    destruct (isNearBlackPixelOptimized _ _ _ _ _ _) eqn:E; [|reflexivity].
    apply isNearBlackPixelOptimized_true in E. destruct E as (kx & ky & Hin & _ & G).
    apply in_window_bounds in Hin. destruct Hin as [Hkx Hky].
    rewrite Hblack in G; [discriminate | now apply raster_index_bound]. }
  assert (Hfin : finalMask_of img params = initialMask_of img params).
  { destruct (pipe_final img params Hwf) as (LF & _).
    destruct (pipe_initial img params Hwf) as (LI & _).
    apply arr_ext; [congruence|]. intros i Hi.
    rewrite (pipe_final_len img params Hwf) in Hi.
    destruct (pixel_coords _ _ i Hw Hi) as (x & y & Hx & Hy & ->).
    rewrite (final_get img params Hwf x y Hx Hy). unfold is_final.
    rewrite Hnear. apply andb_true_r. }
  destruct (pipe_counters img params Hwf) as (_ & _ & _ & C4 & C5 & _).
  destruct (pipe_final img params Hwf) as (_ & _ & _ & _ & CB & CR).
  fold r in C4, C5.
  assert (R : replacedPixels (stats r) = count_true (initialMask_of img params)).
  { unfold r. cbn [processImage stats]. rewrite CR, Hfin. reflexivity. }
  split; [|split; [|split; [|split]]].
  - unfold r. cbn [processImage stats]. rewrite CB.
    apply count_true_all_false. intros i Hi. apply Hblack.
    unfold len in Hi. rewrite LB in Hi. nia.
  - lia.
  - now rewrite C4.
  - exact Hfin.
  - intros x y Hx Hy. unfold red_rule, blue_rule, is_whitelisted.
    rewrite Hnear, andb_false_r. split; [|reflexivity].
    apply Hblack. now apply raster_index_bound.
Qed.

Lemma no_black_pixels_at_zero_witness :
  well_formed black_white_2x1 /\
  (forall v, In v (data black_white_2x1) -> 0 <= v <= 255) /\
  ((blackPixelBrightnessThreshold
      (handleParameterChange (ThresholdChange BlackPixelBrightnessThreshold 0%float)
         defaultParams) <=? 0)%float = true \/
   (blackPixelSaturationThreshold
      (handleParameterChange (ThresholdChange BlackPixelBrightnessThreshold 0%float)
         defaultParams) <=? 0)%float = true) /\
  let params := handleParameterChange (ThresholdChange BlackPixelBrightnessThreshold 0%float)
                  defaultParams in
  let r := processImage black_white_2x1 params in
  blackPixels (stats r) = 0 /\ nearBlackPixels (stats r) = 0 /\
  replacedPixels (stats r) = lowSaturationAreas (stats r) /\
  finalMask_of black_white_2x1 params = initialMask_of black_white_2x1 params /\
  (forall x y, 0 <= x < width black_white_2x1 -> 0 <= y < height black_white_2x1 ->
     red_rule black_white_2x1 params x y = false /\
     blue_rule black_white_2x1 params x y = false).
Proof.
  assert (Hb : forall v, In v (data black_white_2x1) -> 0 <= v <= 255).
  { intros v Hv. cbn in Hv. intuition lia. }
  split; [apply well_formed_black_white_2x1|]. split; [exact Hb|].
  split; [left; reflexivity|].
  apply (no_black_pixels_at_zero black_white_2x1
           (handleParameterChange (ThresholdChange BlackPixelBrightnessThreshold 0%float)
              defaultParams)
           well_formed_black_white_2x1 Hb).
  left. reflexivity.
Defined.

(** ** The constraints of the text inputs *)

Lemma SFeqb_of_not_ltb (a b : spec_float) :
  a <> S754_nan -> b <> S754_nan ->
  SFltb a b = false -> SFltb b a = false -> SFeqb a b = true.
Proof.
  unfold SFltb, SFeqb, SFcompare.
  destruct a as [sa | sa | | sa ma ea], b as [sb | sb | | sb mb eb];
    try congruence; sf_compare.
Qed.

Lemma SFeqb_leb_trans (a b c : spec_float) :
  SFeqb a b = true -> SFleb b c = true -> SFleb a c = true.
Proof.
  unfold SFeqb, SFleb, SFcompare.
  destruct a as [sa | sa | | sa ma ea], b as [sb | sb | | sb mb eb],
           c as [sc | sc | | sc mc ec]; sf_compare.
Qed.

Lemma SFeqb_trans (a b c : spec_float) :
  SFeqb a b = true -> SFeqb b c = true -> SFeqb a c = true.
Proof.
  unfold SFeqb, SFcompare.
  destruct a as [sa | sa | | sa ma ea], b as [sb | sb | | sb mb eb],
           c as [sc | sc | | sc mc ec]; sf_compare.
Qed.

Lemma SFleb_trans (a b c : spec_float) :
  SFleb a b = true -> SFleb b c = true -> SFleb a c = true.
Proof.
  unfold SFleb, SFcompare.
  destruct a as [sa | sa | | sa ma ea], b as [sb | sb | | sb mb eb],
           c as [sc | sc | | sc mc ec]; sf_compare.
Qed.

Lemma SFleb_not_ltb (a b : spec_float) : SFleb a b = true -> SFltb b a = false.
Proof.
  unfold SFleb, SFltb, SFcompare.
  destruct a as [sa | sa | | sa ma ea], b as [sb | sb | | sb mb eb]; sf_compare.
Qed.

Lemma eqb_of_not_ltb (a b : number) :
  PrimFloat.is_nan a = false -> PrimFloat.is_nan b = false ->
  (a <? b)%float = false -> (b <? a)%float = false -> (a =? b)%float = true.
Proof.
  intros Ha Hb. rewrite !ltb_spec, eqb_spec.
  apply SFeqb_of_not_ltb; now apply is_nan_false.
Qed.

Lemma eqb_leb_trans (a b c : number) :
  (a =? b)%float = true -> (b <=? c)%float = true -> (a <=? c)%float = true.
Proof. rewrite eqb_spec, !leb_spec. apply SFeqb_leb_trans. Qed.

Lemma eqb_trans (a b c : number) :
  (a =? b)%float = true -> (b =? c)%float = true -> (a =? c)%float = true.
Proof. rewrite !eqb_spec. apply SFeqb_trans. Qed.

Lemma leb_trans (a b c : number) :
  (a <=? b)%float = true -> (b <=? c)%float = true -> (a <=? c)%float = true.
Proof. rewrite !leb_spec. apply SFleb_trans. Qed.

Lemma leb_not_ltb (a b : number) : (a <=? b)%float = true -> (b <? a)%float = false.
Proof. rewrite leb_spec, ltb_spec. apply SFleb_not_ltb. Qed.

Lemma eqb_refl (a : number) : PrimFloat.is_nan a = false -> (a =? a)%float = true.
Proof. unfold PrimFloat.is_nan. now intros H%negb_false_iff. Qed.

Lemma leb_is_nan (a b : number) :
  (a <=? b)%float = true -> PrimFloat.is_nan a = false /\ PrimFloat.is_nan b = false.
Proof.
  unfold PrimFloat.is_nan. rewrite leb_spec, !eqb_spec. unfold SFleb, SFeqb, SFcompare.
  destruct (Prim2SF a) as [sa | sa | | sa ma ea], (Prim2SF b) as [sb | sb | | sb mb eb];
    try discriminate; intros _; split; cbn [negb]; try reflexivity;
    repeat match goal with s : bool |- _ => destruct s end;
    cbn [CompOpp]; try reflexivity;
    rewrite ?Z.compare_refl, ?Pos.compare_cont_refl; reflexivity.
Qed.

Lemma ltb_is_nan (a b : number) :
  (a <? b)%float = true -> PrimFloat.is_nan a = false /\ PrimFloat.is_nan b = false.
Proof. intros H. now apply leb_is_nan, ltb_leb. Qed.

Lemma leb_refl (a : number) : PrimFloat.is_nan a = false -> (a <=? a)%float = true.
Proof.
  intros Ha. apply (leb_total a a Ha Ha).
  destruct (a <? a)%float eqn:E; [now rewrite (ltb_asym _ _ E) in E | reflexivity].
Qed.

(** The larger and the smaller of two numbers, none of them NaN. *)
Lemma Math_max_zeros_spec (a b : number) :
  PrimFloat.is_nan a = false -> PrimFloat.is_nan b = false ->
  let r := Math_max_zeros a b in
  (r = a \/ r = b) /\ (a <=? r)%float = true /\ (b <=? r)%float = true /\
  ((b <=? a)%float = true -> (r =? a)%float = true) /\
  ((a <? b)%float = true -> r = b).
Proof.
  intros Ha Hb r. unfold r, Math_max_zeros. rewrite Ha, Hb. cbn [orb].
  pose proof (leb_refl a Ha) as Haa. pose proof (leb_refl b Hb) as Hbb.
  destruct (a <? b)%float eqn:Eab.
  { split; [now right|]. split; [now apply ltb_leb|]. split; [exact Hbb|].
    split; [|reflexivity]. intros H. apply leb_not_ltb in H. congruence. }
  assert (Hba : (b <=? a)%float = true) by now apply leb_total.
  destruct (b <? a)%float eqn:Eba.
  { split; [now left|]. split; [exact Haa|]. split; [exact Hba|].
    split; [intros _; now apply eqb_refl | discriminate]. }
  assert (Hab : (a <=? b)%float = true) by now apply leb_total.
  destruct (PrimFloat.classify a);
    (split; [auto|]); (split; [assumption|]); (split; [assumption|]);
    (split; [intros _|discriminate]);
    solve [now apply eqb_refl | now apply eqb_of_not_ltb].
Qed.

Lemma Math_min_zeros_spec (a b : number) :
  PrimFloat.is_nan a = false -> PrimFloat.is_nan b = false ->
  let r := Math_min_zeros a b in
  (r = a \/ r = b) /\ (r <=? a)%float = true /\ (r <=? b)%float = true /\
  ((a <=? b)%float = true -> (r =? a)%float = true) /\
  ((b <? a)%float = true -> r = b).
Proof.
  intros Ha Hb r. unfold r, Math_min_zeros. rewrite Ha, Hb. cbn [orb].
  pose proof (leb_refl a Ha) as Haa. pose proof (leb_refl b Hb) as Hbb.
  destruct (a <? b)%float eqn:Eab.
  { pose proof (ltb_asym _ _ Eab) as Eba.
    split; [now left|]. split; [exact Haa|]. split; [now apply ltb_leb|].
    split; [intros _; now apply eqb_refl|]. congruence. }
  assert (Hba : (b <=? a)%float = true) by now apply leb_total.
  destruct (b <? a)%float eqn:Eba.
  { split; [now right|]. split; [exact Hba|]. split; [exact Hbb|].
    split; [|reflexivity]. intros H. apply leb_not_ltb in H. congruence. }
  assert (Hab : (a <=? b)%float = true) by now apply leb_total.
  destruct (PrimFloat.classify a);
    (split; [auto|]); (split; [assumption|]); (split; [assumption|]);
    (split; [intros _|discriminate]);
    solve [now apply eqb_refl | now apply eqb_of_not_ltb].
Qed.

Lemma ltb_zero_not_NZero (v : number) :
  (0 <? v)%float = true -> PrimFloat.classify v <> FloatClass.NZero.
Proof.
  rewrite ltb_spec, classify_spec. change (Prim2SF 0) with (S754_zero false).
  unfold SFltb, SFcompare, SF64classify, SFclassify.
  destruct (Prim2SF v) as [[] | [] | | [] m e]; intros H; try discriminate H;
    try (intros C; discriminate C);
    destruct (Z.pos (digits2_pos m) =? prec)%Z; intros C; discriminate C.
Qed.

(** X19. A size below 2^53 typed into a text input is passed on as a
    whole number that is odd and at least 3: the number typed if it is one,
    else 3 or the number typed plus 1. The half of it that the loops of
    [processImage] use is the half of the number typed (of 3 below 3), and
    typing the result again changes nothing. *)
Theorem handleTextInputChange_size (name : SizeName) (v : Z) :
  v < 2 ^ 53 ->
  let v' := size_value (handleTextInputChange (SizeChange name v)) in
  handleTextInputChange (SizeChange name v) = SizeChange name v' /\
  3 <= v' /\ Z.odd v' = true /\ v <= v' <= Z.max v 3 + 1 /\
  (v' = v <-> 3 <= v /\ Z.odd v = true) /\
  v' / 2 = Z.max v 3 / 2 /\
  handleTextInputChange (SizeChange name v') = SizeChange name v'.
Proof.
  intros _. cbv zeta. cbn [handleTextInputChange size_value].
  set (m := Z.max v 3). assert (Hm : 3 <= m) by (unfold m; lia).
  assert (Hrem : forall n, 3 <= n -> Z.rem n 2 = n mod 2)
    by (intros n Hn; apply Z.rem_mod_nonneg; lia).
  assert (Hodd : forall n, Z.odd n = true <-> n mod 2 = 1).
  { intros n. rewrite Zmod_odd. destruct (Z.odd n); split; congruence || lia. }
  rewrite (Hrem m Hm).
  pose proof (Z.div_mod m 2 ltac:(lia)) as Dm.
  pose proof (Z.mod_pos_bound m 2 ltac:(lia)) as Bm.
  pose proof (Z.div_mod (m + 1) 2 ltac:(lia)) as Dm1.
  pose proof (Z.mod_pos_bound (m + 1) 2 ltac:(lia)) as Bm1.
  destruct (Z.eqb_spec (m mod 2) 0) as [E | E].
  - assert (E' : (m + 1) mod 2 = 1) by lia.
    split; [reflexivity|]. split; [lia|]. split; [now apply Hodd|]. split; [unfold m; lia|].
    split; [|split].
    + rewrite (Hodd v). split; [unfold m; lia|]. intros [H1 H2].
      assert (Hmv : m = v) by (unfold m; lia). rewrite Hmv in E. lia.
    + lia.
    + replace (Z.max (m + 1) 3) with (m + 1) by lia.
      rewrite (Hrem (m + 1)) by lia. rewrite E'. reflexivity.
  - assert (E' : m mod 2 = 1) by lia.
    split; [reflexivity|]. split; [lia|]. split; [now apply Hodd|]. split; [unfold m; lia|].
    split; [|split].
    + rewrite (Hodd v). split; [intros H; rewrite <- H; split; [lia | exact E'] | unfold m; lia].
    + reflexivity.
    + replace (Z.max m 3) with m by lia.
      rewrite (Hrem m Hm), E'. reflexivity.
Qed.

Lemma handleTextInputChange_size_witness :
  12 < 2 ^ 53 /\
  let v' := size_value (handleTextInputChange (SizeChange BlurKernelSize 12)) in
  handleTextInputChange (SizeChange BlurKernelSize 12) = SizeChange BlurKernelSize v' /\
  3 <= v' /\ Z.odd v' = true /\ 12 <= v' <= Z.max 12 3 + 1 /\
  (v' = 12 <-> 3 <= 12 /\ Z.odd 12 = true) /\
  v' / 2 = Z.max 12 3 / 2 /\
  handleTextInputChange (SizeChange BlurKernelSize v') = SizeChange BlurKernelSize v'.
Proof.
  split; [reflexivity|].
  apply (handleTextInputChange_size BlurKernelSize 12). reflexivity.
Defined.

(** X20. A threshold typed into a text input is passed on within 0..100:
    NaN stays NaN; any other number becomes a number between 0 and 100 that
    is not the zero of negative sign, namely 0 below 0, 100 above 100, and a
    number equal to the one typed in between. *)
Theorem handleTextInputChange_threshold (name : ThresholdName) (v : number) :
  let v' := threshold_value (handleTextInputChange (ThresholdChange name v)) in
  handleTextInputChange (ThresholdChange name v) = ThresholdChange name v' /\
  (PrimFloat.is_nan v = true -> PrimFloat.is_nan v' = true) /\
  (PrimFloat.is_nan v = false ->
     (0 <=? v')%float = true /\ (v' <=? 100)%float = true /\
     PrimFloat.classify v' <> FloatClass.NZero) /\
  ((v <? 0)%float = true -> v' = 0%float) /\
  ((100 <? v)%float = true -> v' = 100%float) /\
  ((0 <=? v)%float = true -> (v <=? 100)%float = true -> (v' =? v)%float = true).
Proof.
  cbv zeta. cbn [handleTextInputChange threshold_value].
  split; [reflexivity|]. split.
  { intros Hn. unfold Math_max_zeros. rewrite Hn. reflexivity. }
  assert (N0 : PrimFloat.is_nan 0 = false) by reflexivity.
  assert (N100 : PrimFloat.is_nan 100 = false) by reflexivity.
  assert (Hbounds : PrimFloat.is_nan v = false ->
            let y := Math_max_zeros v 0%float in
            PrimFloat.is_nan y = false /\ (0 <=? y)%float = true /\
            PrimFloat.classify y <> FloatClass.NZero).
  { intros Hv y.
    destruct (Math_max_zeros_spec v 0%float Hv N0) as (Hy & _ & Hy0 & _). fold y in Hy, Hy0.
    split; [destruct Hy as [-> | ->]; assumption|]. split; [exact Hy0|].
    unfold y, Math_max_zeros. rewrite Hv, N0. cbn [orb].
    destruct (v <? 0)%float eqn:E1; [vm_compute; discriminate|].
    destruct (0 <? v)%float eqn:E2; [now apply ltb_zero_not_NZero|].
    destruct (PrimFloat.classify v) eqn:C; rewrite ?C; discriminate. }
  split; [|split; [|split]].
  - intros Hv. destruct (Hbounds Hv) as (Ny & Hy0 & Cy). cbv zeta in Ny, Hy0, Cy.
    set (y := Math_max_zeros v 0%float) in *.
    destruct (Math_min_zeros_spec y 100%float Ny N100) as (Hr & _ & Hr100 & _).
    split; [|split; [exact Hr100|]].
    + destruct Hr as [-> | ->]; [exact Hy0 | reflexivity].
    + destruct Hr as [-> | ->]; [exact Cy | discriminate].
  - intros Hlt. destruct (ltb_is_nan _ _ Hlt) as [Hv _].
    destruct (Math_max_zeros_spec v 0%float Hv N0) as (_ & _ & _ & _ & H). rewrite (H Hlt).
    reflexivity.
  - intros Hlt. destruct (ltb_is_nan _ _ Hlt) as [_ Hv].
    destruct (Hbounds Hv) as (Ny & Hy0 & Cy). cbv zeta in Ny, Hy0, Cy.
    destruct (Math_max_zeros_spec v 0%float Hv N0) as (_ & Hvy & _).
    set (y := Math_max_zeros v 0%float) in *.
    destruct (Math_min_zeros_spec y 100%float Ny N100) as (_ & _ & _ & _ & H). apply H.
    now apply (ltb_leb_trans _ v).
  - intros H0 H100. destruct (leb_is_nan _ _ H0) as [_ Hv].
    destruct (Hbounds Hv) as (Ny & Hy0 & Cy). cbv zeta in Ny, Hy0, Cy.
    destruct (Math_max_zeros_spec v 0%float Hv N0) as (_ & _ & _ & Hy & _).
    specialize (Hy H0).
    set (y := Math_max_zeros v 0%float) in *.
    destruct (Math_min_zeros_spec y 100%float Ny N100) as (_ & _ & _ & Hr & _).
    apply (eqb_trans _ y); [|exact Hy].
    apply Hr. now apply (eqb_leb_trans _ v).
Qed.



(** ** Colours under transparent pixels *)

Lemma fold_left_same_in {A S : Type} (f g : S -> A -> S) (l : list A) :
  (forall s a, In a l -> f s a = g s a) ->
  forall s : S, fold_left f l s = fold_left g l s.
Proof.
  induction l as [|a l IH]; intros H s; [reflexivity|].
  cbn [fold_left]. rewrite H by now left. apply IH. intros s' a' Hin. apply H. now right.
Qed.

Section SameVisible.
Variables a b : ImageData.
Variable params : ProcessingParams.
Hypothesis Ha : well_formed a.
Hypothesis Hb : well_formed b.
Hypothesis Hsame : same_visible a b.

Lemma same_visible_transparent (p : Z) :
  0 <= p < height a * width a ->
  transparent_at (data a) p = transparent_at (data b) p.
Proof.
  intros Hp. destruct Hsame as (_ & _ & H). unfold transparent_at.
  now rewrite (proj1 (H p Hp)).
Qed.

Lemma same_visible_hsv (p : Z) :
  0 <= p < height a * width a ->
  transparent_at (data a) p = false ->
  hsv_get (hsvValues_of a) p = hsv_get (hsvValues_of b) p.
Proof.
  intros Hp Ht. destruct Hsame as (Ew & Eh & H).
  rewrite (proj2 (pipe_hsv a Ha) p Hp).
  rewrite (proj2 (pipe_hsv b Hb) p) by (rewrite <- Ew, <- Eh; exact Hp).
  destruct (H p Hp) as [_ Hc]. specialize (Hc Ht). unfold pixel_hsv.
  pose proof (Hc 0 ltac:(lia)) as H0. rewrite Z.add_0_r in H0.
  now rewrite H0, (Hc 1), (Hc 2) by lia.
Qed.

Lemma same_visible_black :
  blackPixelsMask_of a params = blackPixelsMask_of b params.
Proof.
  pose proof Hsame as (Ew & Eh & _).
  destruct (pipe_black a params Ha) as (La & Ga & _).
  destruct (pipe_black b params Hb) as (Lb & Gb & _).
  apply arr_ext; [rewrite La, Lb, Ew, Eh; reflexivity|]. intros i Hi.
  assert (Hp : 0 <= i < height a * width a).
  { unfold len in Hi. rewrite La in Hi. pose proof (proj1 Ha). pose proof (proj1 (proj2 Ha)).
    nia. }
  rewrite (Ga i Hp), (Gb i) by (rewrite <- Ew, <- Eh; exact Hp).
  unfold is_black. rewrite <- (same_visible_transparent i Hp).
  destruct (transparent_at (data a) i) eqn:T; [reflexivity|].
  now rewrite (same_visible_hsv i Hp T).
Qed.

Lemma same_visible_mean (x y : Z) :
  calculateLocalMeanSaturation (data a) (hsvValues_of a) (width a) (height a) x y
    (blurKernelSize params) =
  calculateLocalMeanSaturation (data b) (hsvValues_of b) (width a) (height a) x y
    (blurKernelSize params).
Proof.
  rewrite !calculateLocalMeanSaturation_clipped. unfold clipped_mean. cbv zeta.
  assert (E : saturation_sum (data a) (hsvValues_of a) (width a)
                (window_cells (width a) (height a) x y (blurKernelSize params / 2)) =
              saturation_sum (data b) (hsvValues_of b) (width a)
                (window_cells (width a) (height a) x y (blurKernelSize params / 2))).
  { unfold saturation_sum. apply fold_left_same_in. intros s [kx ky] Hin.
    apply In_window_cells, in_window_bounds in Hin. destruct Hin as [Hkx Hky].
    pose proof (raster_index_bound (width a) (height a) kx ky Hkx Hky) as Hp.
    destruct Hsame as (_ & _ & H). rewrite <- (proj1 (H _ Hp)).
    destruct (ta_get (data a) ((ky * width a + kx) * 4 + 3)) as [v|] eqn:A;
      [|reflexivity].
    cbn [sample_is_pos]. destruct (Z.ltb_spec 0 v); [|reflexivity].
    rewrite (same_visible_hsv _ Hp); [reflexivity|].
    unfold transparent_at. rewrite A. cbn [sample_is_zero]. now apply Z.eqb_neq; lia. }
  now rewrite E.
Qed.

Lemma same_visible_initial :
  initialMask_of a params = initialMask_of b params.
Proof.
  pose proof Hsame as (Ew & Eh & _).
  destruct (pipe_initial a params Ha) as (La & Ga & _).
  destruct (pipe_initial b params Hb) as (Lb & Gb & _).
  apply arr_ext; [rewrite La, Lb, Ew, Eh; reflexivity|]. intros i Hi.
  rewrite (pipe_initial_len a params Ha) in Hi.
  destruct (pixel_coords _ _ i (proj1 Ha) Hi) as (x & y & Hx & Hy & ->).
  rewrite (Ga x y Hx Hy).
  assert (Gb' := Gb x y). rewrite <- Ew, <- Eh in Gb'. rewrite (Gb' Hx Hy).
  unfold is_initial. rewrite <- (same_visible_transparent _ Hi).
  destruct (transparent_at (data a) (y * width a + x)) eqn:T; [reflexivity|].
  unfold is_bright, is_low_saturation, is_low_saturation_area.
  now rewrite (same_visible_hsv _ Hi T), same_visible_mean.
Qed.

Lemma same_visible_final :
  finalMask_of a params = finalMask_of b params.
Proof.
  pose proof Hsame as (Ew & Eh & _).
  destruct (pipe_final a params Ha) as (La & Ga & _).
  destruct (pipe_final b params Hb) as (Lb & Gb & _).
  apply arr_ext; [rewrite La, Lb, Ew, Eh; reflexivity|]. intros i Hi.
  rewrite (pipe_final_len a params Ha) in Hi.
  destruct (pixel_coords _ _ i (proj1 Ha) Hi) as (x & y & Hx & Hy & ->).
  rewrite (Ga x y Hx Hy).
  assert (Gb' := Gb x y). rewrite <- Ew, <- Eh in Gb'. rewrite (Gb' Hx Hy).
  now rewrite same_visible_initial, same_visible_black.
Qed.

Lemma same_visible_opened :
  openedMask_of a params = openedMask_of b params.
Proof.
  pose proof Hsame as (Ew & Eh & _).
  unfold openedMask_of. now rewrite same_visible_final, Ew, Eh.
Qed.

Lemma same_visible_counters :
  counters (stats (processImage a params)) = counters (stats (processImage b params)).
Proof.
  pose proof Hsame as (Ew & Eh & _).
  destruct (pipe_counters a params Ha) as (P1 & P2 & P3 & P4 & P5 & _).
  destruct (pipe_counters b params Hb) as (Q1 & Q2 & Q3 & Q4 & Q5 & _).
  destruct (pipe_final a params Ha) as (_ & _ & _ & _ & PB & PR).
  destruct (pipe_final b params Hb) as (_ & _ & _ & _ & QB & QR).
  cbv zeta in *. cbn [processImage stats] in *.
  rewrite <- Ew, <- Eh in Q1, Q2, Q3.
  assert (Hn : forall i, 0 <= i < Z.of_nat (Z.to_nat (height a * width a)) ->
            0 <= i < height a * width a) by (intros i Hi; lia).
  assert (E1 : brightPixels (snd (final_stage a params)) =
               brightPixels (snd (final_stage b params))).
  { rewrite P1, Q1. apply count_upto_ext. intros i Hi. apply Hn in Hi.
    unfold opaque_bright, is_bright. rewrite <- (same_visible_transparent i Hi).
    destruct (transparent_at (data a) i) eqn:T; [reflexivity|].
    now rewrite (same_visible_hsv i Hi T). }
  assert (E2 : lowSaturationPixels (snd (final_stage a params)) =
               lowSaturationPixels (snd (final_stage b params))).
  { rewrite P2, Q2. apply count_upto_ext. intros i Hi. apply Hn in Hi.
    unfold opaque_low_saturation, is_low_saturation.
    rewrite <- (same_visible_transparent i Hi).
    destruct (transparent_at (data a) i) eqn:T; [reflexivity|].
    now rewrite (same_visible_hsv i Hi T). }
  assert (E3 : candidateArtifacts (snd (final_stage a params)) =
               candidateArtifacts (snd (final_stage b params))).
  { rewrite P3, Q3. apply count_upto_ext. intros i Hi. apply Hn in Hi.
    unfold is_candidate, is_bright, is_low_saturation.
    rewrite <- (same_visible_transparent i Hi).
    destruct (transparent_at (data a) i) eqn:T; [reflexivity|].
    now rewrite (same_visible_hsv i Hi T). }
  assert (E4 : lowSaturationAreas (snd (final_stage a params)) =
               lowSaturationAreas (snd (final_stage b params)))
    by (rewrite P4, Q4; now rewrite same_visible_initial).
  assert (E6 : replacedPixels (snd (final_stage a params)) =
               replacedPixels (snd (final_stage b params)))
    by (rewrite PR, QR; now rewrite same_visible_final).
  assert (E7 : blackPixels (snd (final_stage a params)) =
               blackPixels (snd (final_stage b params)))
    by (rewrite PB, QB; now rewrite same_visible_black).
  assert (E5 : nearBlackPixels (snd (final_stage a params)) =
               nearBlackPixels (snd (final_stage b params)))
    by (rewrite same_visible_initial in P5; lia).
  unfold counters. now rewrite E1, E2, E3, E4, E5, E6, E7.
Qed.

End SameVisible.

(** X26. The colour of a transparent pixel never matters: two rasters of
    one size with the same alpha everywhere and the same colour on every
    pixel that is not transparent get the same four masks and the same
    counters, and their cleaned rasters and their visualizations again have
    the same alpha everywhere and the same colour on every pixel that is not
    transparent. *)
Theorem hidden_colours_do_not_matter (a b : ImageData) (params : ProcessingParams) :
  well_formed a -> well_formed b -> same_visible a b ->
  blackPixelsMask_of a params = blackPixelsMask_of b params /\
  initialMask_of a params = initialMask_of b params /\
  finalMask_of a params = finalMask_of b params /\
  openedMask_of a params = openedMask_of b params /\
  counters (stats (processImage a params)) = counters (stats (processImage b params)) /\
  same_visible (processedImage (processImage a params))
    (processedImage (processImage b params)) /\
  same_visible (visualizationImage (processImage a params))
    (visualizationImage (processImage b params)).
Proof.
  intros Ha Hb Hsame. pose proof Hsame as (Ew & Eh & H).
  pose proof (same_visible_black a b params Ha Hb Hsame) as EB.
  pose proof (same_visible_initial a b params Ha Hb Hsame) as EI.
  pose proof (same_visible_opened a b params Ha Hb Hsame) as EO.
  split; [exact EB|]. split; [exact EI|].
  split; [now apply same_visible_final|]. split; [exact EO|].
  split; [now apply same_visible_counters|].
  pose proof (proj1 Ha) as Hw.
  assert (Hcoords : forall p, 0 <= p < height a * width a ->
            exists x y, 0 <= x < width a /\ 0 <= y < height a /\ p = y * width a + x)
    by (intros p Hp; now apply pixel_coords).
  split.
  - split; [exact Ew|]. split; [exact Eh|].
    cbn [processImage processedImage width height data]. intros p Hp.
    destruct (Hcoords p Hp) as (x & y & Hx & Hy & ->).
    assert (Ca := fun c Hc => cleaned_get a params Ha x y Hx Hy c Hc).
    assert (Cb := fun c Hc => cleaned_get b params Hb x y ltac:(lia) ltac:(lia) c Hc).
    cbn [processImage processedImage data] in Ca, Cb.
    rewrite <- Ew, <- EO in Cb.
    destruct (H _ Hp) as [Halpha Hcol].
    split.
    + rewrite Ca, Cb by lia. now rewrite Halpha.
    + intros T c Hc. unfold transparent_at in T. rewrite Ca in T by lia.
      rewrite Ca, Cb by lia.
      destruct (arr_get (openedMask_of a params) (y * width a + x)); [reflexivity|].
      apply Hcol; [exact T | exact Hc].
  - split; [exact Ew|]. split; [exact Eh|].
    cbn [processImage visualizationImage width height data]. intros p Hp.
    destruct (Hcoords p Hp) as (x & y & Hx & Hy & ->).
    assert (Va := fun c Hc => visualization_get a params Ha x y Hx Hy c Hc).
    assert (Vb := fun c Hc => visualization_get b params Hb x y ltac:(lia) ltac:(lia) c Hc).
    cbn [processImage visualizationImage data] in Va, Vb.
    unfold green_rule, blue_rule, red_rule in Va, Vb.
    rewrite <- Ew, <- Eh, <- EO, <- EI, <- EB in Vb.
    destruct (H _ Hp) as [Halpha Hcol].
    split.
    + rewrite Va, Vb by lia. cbn. exact Halpha.
    + intros T c Hc. unfold transparent_at in T. rewrite Va in T by lia. cbn in T.
      rewrite Va, Vb by lia.
      destruct (Z.ltb_spec c 3); [|lia].
      rewrite (Hcol T c Hc). reflexivity.
Qed.

Lemma well_formed_veiled : well_formed veiled_black_2x1 /\ well_formed veiled_red_2x1.
Proof. unfold well_formed, len. cbn. lia. Qed.

Lemma same_visible_veiled : same_visible veiled_black_2x1 veiled_red_2x1.
Proof.
  split; [reflexivity|]. split; [reflexivity|]. cbn [veiled_black_2x1 width height data].
  intros p Hp. assert (E : p = 0 \/ p = 1) by lia.
  destruct E as [-> | ->]; (split; [reflexivity|]).
  - intros T. vm_compute in T. discriminate.
  - intros _ c Hc. assert (E : c = 0 \/ c = 1 \/ c = 2) by lia.
    destruct E as [-> | [-> | ->]]; reflexivity.
Qed.

Lemma hidden_colours_do_not_matter_witness :
  well_formed veiled_black_2x1 /\ well_formed veiled_red_2x1 /\
  same_visible veiled_black_2x1 veiled_red_2x1 /\
  (blackPixelsMask_of veiled_black_2x1 defaultParams =
     blackPixelsMask_of veiled_red_2x1 defaultParams /\
   initialMask_of veiled_black_2x1 defaultParams =
     initialMask_of veiled_red_2x1 defaultParams /\
   finalMask_of veiled_black_2x1 defaultParams = finalMask_of veiled_red_2x1 defaultParams /\
   openedMask_of veiled_black_2x1 defaultParams =
     openedMask_of veiled_red_2x1 defaultParams /\
   counters (stats (processImage veiled_black_2x1 defaultParams)) =
     counters (stats (processImage veiled_red_2x1 defaultParams)) /\
   same_visible (processedImage (processImage veiled_black_2x1 defaultParams))
     (processedImage (processImage veiled_red_2x1 defaultParams)) /\
   same_visible (visualizationImage (processImage veiled_black_2x1 defaultParams))
     (visualizationImage (processImage veiled_red_2x1 defaultParams))).
Proof.
  split; [apply well_formed_veiled|]. split; [apply well_formed_veiled|].
  split; [exact same_visible_veiled|].
  apply (hidden_colours_do_not_matter veiled_black_2x1 veiled_red_2x1 defaultParams);
    [apply well_formed_veiled | apply well_formed_veiled | exact same_visible_veiled].
Defined.

(** ** The history of the whitelist brush *)

Section History.
Import ImageDisplay.

Lemma item_in_range {A : Type} (a : list A) (i : Z) :
  0 <= i < len a -> exists v, item a i = Some v.
Proof.
  unfold item, len. intros H. destruct (Z.ltb_spec i 0); [lia|].
  destruct (nth_error a (Z.to_nat i)) as [v|] eqn:E; [now exists v|].
  apply nth_error_None in E. lia.
Qed.

Lemma item_bound {A : Type} (a : list A) (i : Z) (v : A) :
  item a i = Some v -> 0 <= i < len a.
Proof.
  unfold item, len. destruct (Z.ltb_spec i 0); [discriminate|]. intros E.
  assert (Z.to_nat i < length a)%nat by (apply nth_error_Some; congruence). lia.
Qed.

Lemma slice0_len {A : Type} (a : list A) (e : Z) :
  0 <= e <= len a -> len (slice0 a e) = e.
Proof.
  unfold slice0, len. intros H. destruct (Z.ltb_spec e 0); [lia|].
  rewrite length_firstn. lia.
Qed.

Lemma slice0_item {A : Type} (a : list A) (e i : Z) :
  0 <= i < e -> item (slice0 a e) i = item a i.
Proof.
  unfold slice0, item. intros H.
  destruct (Z.ltb_spec e 0); [lia|]. destruct (Z.ltb_spec i 0); [lia|].
  rewrite nth_error_firstn.
  destruct (Nat.ltb_spec (Z.to_nat i) (Z.to_nat e)); [reflexivity | lia].
Qed.

Lemma item_app_last {A : Type} (a : list A) (v : A) : item (a ++ [v]) (len a) = Some v.
Proof.
  unfold item, len. destruct (Z.ltb_spec (Z.of_nat (length a)) 0); [lia|].
  rewrite Nat2Z.id, nth_error_app2, Nat.sub_diag by lia. reflexivity.
Qed.

Lemma item_app_first {A : Type} (a b : list A) (i : Z) :
  0 <= i < len a -> item (a ++ b) i = item a i.
Proof.
  unfold item, len. intros H. destruct (Z.ltb_spec i 0); [lia|].
  apply nth_error_app1. lia.
Qed.

Lemma len_app_one {A : Type} (a : list A) (v : A) : len (a ++ [v]) = len a + 1.
Proof. unfold len. rewrite length_app. cbn [length]. lia. Qed.


Lemma applyBrushAtPosition_frame (brush : list bool -> list bool) (s s' : State) :
  let r := applyBrushAtPosition brush s s' in
  imageDimensions r = imageDimensions s' /\
  isWhitelistBrushActive r = isWhitelistBrushActive s' /\
  isDrawing r = isDrawing s' /\ history r = history s' /\
  historyIndex r = historyIndex s' /\ hasUnsavedChanges r = hasUnsavedChanges s'.
Proof.
  unfold applyBrushAtPosition. destruct (imageDimensions s) as [w h].
  destruct ((w =? 0) || (h =? 0)); cbn; repeat split.
Qed.

Lemma fold_brush_frame (c : State) (steps : list (list bool -> list bool)) :
  forall s' : State,
  let r := fold_left (fun s' brush => applyBrushAtPosition brush c s') steps s' in
  imageDimensions r = imageDimensions s' /\
  isWhitelistBrushActive r = isWhitelistBrushActive s' /\
  isDrawing r = isDrawing s' /\ history r = history s' /\
  historyIndex r = historyIndex s' /\ hasUnsavedChanges r = hasUnsavedChanges s'.
Proof.
  induction steps as [|b steps IH]; intros s'; [cbn; repeat split|].
  cbn [fold_left]. cbv zeta.
  destruct (applyBrushAtPosition_frame b c s') as (E1 & E2 & E3 & E4 & E5 & E6).
  cbv zeta in E1, E2, E3, E4, E5, E6.
  rewrite <- E1, <- E2, <- E3, <- E4, <- E5, <- E6. apply IH.
Qed.

Lemma handleCanvasMouseMove_frame (p : Props) (steps : list (list bool -> list bool))
    (s : State) :
  let r := handleCanvasMouseMove p steps s in
  imageDimensions r = imageDimensions s /\
  isWhitelistBrushActive r = isWhitelistBrushActive s /\
  isDrawing r = isDrawing s /\ history r = history s /\
  historyIndex r = historyIndex s /\ hasUnsavedChanges r = hasUnsavedChanges s.
Proof.
  unfold handleCanvasMouseMove.
  destruct (negb (isDrawing s) || negb (isWhitelistBrushActive s) || isProcessing p);
    [cbn; repeat split|].
  apply fold_brush_frame.
Qed.

Lemma handleCanvasMouseDown_cases (p : Props) (brush : list bool -> list bool) (s : State) :
  let r := handleCanvasMouseDown p brush s in
  (negb (isWhitelistBrushActive s) || isProcessing p = true /\ r = s) \/
  (negb (isWhitelistBrushActive s) || isProcessing p = false /\
   imageDimensions r = imageDimensions s /\
   isWhitelistBrushActive r = isWhitelistBrushActive s /\
   history r = history s /\ historyIndex r = historyIndex s /\
   isDrawing r = true /\ hasUnsavedChanges r = true).
Proof.
  unfold handleCanvasMouseDown.
  destruct (negb (isWhitelistBrushActive s) || isProcessing p) eqn:G; cbv zeta;
    [left; split; reflexivity | right].
  destruct (applyBrushAtPosition_frame brush s
              (setHasUnsavedChanges true (setIsDrawing true s)))
    as (E1 & E2 & E3 & E4 & E5 & E6).
  cbv zeta in E1, E2, E3, E4, E5, E6. rewrite E1, E2, E3, E4, E5, E6.
  cbn. repeat split.
Qed.

(** The handlers keep the history and the mask fitted together. *)
Lemma handle_ok (p : Props) (e : Event) (s : State) :
  history_ok s ->
  (forall w h, e = ImageLoaded w h -> isDrawing s = false) ->
  exists s' out, handle p e s = Some (s', out) /\ history_ok s' /\
    (forall m, In m out -> m = manualWhitelistMask s').
Proof.
  intros (Hi & Hne & Hd & Hm) Himg.
  destruct e as [w h | | brush | steps | | | | | ]; cbn [handle].
  - (* ImageLoaded *)
    eexists _, _. split; [reflexivity|]. split; [|intros m []].
    specialize (Himg w h eq_refl).
    unfold initializeMask, history_ok. cbn.
    destruct ((0 <? w) && (0 <? h)); cbn.
    + unfold len. cbn. repeat split; try lia; try discriminate.
      rewrite Himg. discriminate.
    + repeat split; try lia; auto.
  - (* BrushToggle *)
    eexists _, _. split; [reflexivity|]. split; [|intros m []].
    unfold history_ok. cbn. auto.
  - (* MouseDown *)
    eexists _, _. split; [reflexivity|]. split; [|intros m []].
    destruct (handleCanvasMouseDown_cases p brush s)
      as [[_ E] | (_ & _ & _ & E3 & E4 & D & U)]; cbv zeta in *.
    + rewrite E. unfold history_ok. auto.
    + unfold history_ok. rewrite E3, E4, U. repeat split; auto; try lia.
  - (* MouseMove *)
    eexists _, _. split; [reflexivity|]. split; [|intros m []].
    destruct (handleCanvasMouseMove_frame p steps s) as (E1 & E2 & E3 & E4 & E5 & E6).
    cbv zeta in E1, E2, E3, E4, E5, E6. unfold history_ok.
    rewrite E3, E4, E5, E6. repeat split; auto; try lia.
    intros U I. unfold handleCanvasMouseMove.
    destruct (isDrawing s) eqn:D; [rewrite Hd in U by reflexivity; discriminate|].
    cbn [negb orb]. auto.
  - (* MouseUp *)
    eexists _, _. split; [reflexivity|]. split; [|intros m []].
    unfold handleCanvasMouseUp, history_ok.
    destruct (isDrawing s) eqn:D; cbn; repeat split; auto; try lia; try discriminate.
    congruence.
  - (* MouseLeave *)
    eexists _, _. split; [reflexivity|]. split; [|intros m []].
    unfold handleCanvasMouseLeave, handleCanvasMouseUp, history_ok.
    destruct (isDrawing s) eqn:D; cbn; repeat split; auto; try lia; try discriminate.
    congruence.
  - (* Undo *)
    unfold handleUndo.
    destruct ((0 <? historyIndex s) && negb (isDrawing s) && negb (isProcessing p)) eqn:G.
    + apply andb_true_iff in G. destruct G as [G _].
      apply andb_true_iff in G. destruct G as [G D].
      apply Z.ltb_lt in G. apply negb_true_iff in D.
      destruct (item_in_range (history s) (historyIndex s - 1) ltac:(lia)) as [m E].
      rewrite E. eexists _, _. split; [reflexivity|]. split.
      * unfold history_ok. cbn. rewrite D. repeat split; try lia; try discriminate.
        intros _ _. exact E.
      * unfold notify. cbn. destruct (onManualWhitelist p); cbn; intuition.
    + exists s, []. split; [reflexivity|]. split; [unfold history_ok; auto|intros m []].
  - (* Redo *)
    unfold handleRedo.
    destruct ((historyIndex s <? len (history s) - 1) && negb (isDrawing s) &&
              negb (isProcessing p)) eqn:G.
    + apply andb_true_iff in G. destruct G as [G _].
      apply andb_true_iff in G. destruct G as [G D].
      apply Z.ltb_lt in G. apply negb_true_iff in D.
      destruct (item_in_range (history s) (historyIndex s + 1) ltac:(lia)) as [m E].
      rewrite E. eexists _, _. split; [reflexivity|]. split.
      * unfold history_ok. cbn. rewrite D. repeat split; try lia; try discriminate.
        intros _ _. exact E.
      * unfold notify. cbn. destruct (onManualWhitelist p); cbn; intuition.
    + exists s, []. split; [reflexivity|]. split; [unfold history_ok; auto|intros m []].
  - (* Clear *)
    unfold handleClearWhitelist. destruct (imageDimensions s) as [w h].
    destruct ((0 <? w) && (0 <? h) && negb (isProcessing p)).
    + eexists _, _. split; [reflexivity|]. split.
      * unfold history_ok. cbn.
        assert (L : len (slice0 (history s) (historyIndex s + 1)) = historyIndex s + 1)
          by (apply slice0_len; lia).
        rewrite len_app_one, L.
        replace (historyIndex s + 1 + 1 - 1) with
          (len (slice0 (history s) (historyIndex s + 1))) by lia.
        rewrite item_app_last. repeat split; auto; lia.
      * unfold notify. cbn. destruct (onManualWhitelist p); cbn; intuition.
    + exists s, []. split; [reflexivity|]. split; [unfold history_ok; auto|intros m []].
Qed.

Lemma saveChanges_ok (p : Props) (s : State) :
  history_ok s ->
  let '(s', out) := saveChanges p s in
  history_ok s' /\ manualWhitelistMask s' = manualWhitelistMask s /\
  (forall m, In m out -> m = manualWhitelistMask s').
Proof.
  intros (Hi & Hne & Hd & Hm). unfold saveChanges.
  destruct (hasUnsavedChanges s && negb (isDrawing s) && onManualWhitelist p) eqn:G.
  - apply andb_true_iff in G. destruct G as [G _].
    apply andb_true_iff in G. destruct G as [_ D]. apply negb_true_iff in D.
    assert (L : len (slice0 (history s) (historyIndex s + 1)) = historyIndex s + 1)
      by (apply slice0_len; lia).
    split; [|split; [reflexivity | cbn; intuition]].
    unfold history_ok. cbn. rewrite D, len_app_one, L.
    replace (historyIndex s + 1 + 1 - 1) with
      (len (slice0 (history s) (historyIndex s + 1))) by lia.
    rewrite item_app_last. repeat split; try lia; try discriminate.
  - split; [unfold history_ok; auto|]. split; [reflexivity | intros m []].
Qed.

(** The handlers that the listener calls are the handlers of the buttons
    when the listener is the one of the present render. *)
Lemma handleUndoOf_same (p : Props) (s : State) :
  handleUndoOf p (isDrawing s) s s = handleUndo p s.
Proof. reflexivity. Qed.

Lemma handleRedoOf_same (p : Props) (s : State) :
  handleRedoOf p (isDrawing s) s s = handleRedo p s.
Proof. reflexivity. Qed.

Lemma stepInput_Pointer (p : Props) (e : Event) (s : State) :
  stepInput p (Pointer e) s = step p e s.
Proof. reflexivity. Qed.

(** A state that differs from a fitted one in the mask and the index only,
    where these are an entry of the history and its index, is fitted. *)
Lemma history_ok_moved (s s' : State) (j : Z) (m : list bool) :
  history_ok s ->
  history s' = history s -> isDrawing s' = isDrawing s ->
  hasUnsavedChanges s' = hasUnsavedChanges s ->
  item (history s) j = Some m ->
  history_ok (setHistoryIndex j (setManualWhitelistMask m s')).
Proof.
  intros (Hi & Hne & Hd & Hm) Eh Ed Eu Ej. pose proof (item_bound _ _ _ Ej) as Hj.
  unfold history_ok. cbn. rewrite Eh, Ed, Eu.
  repeat split; try lia; auto.
Qed.

Lemma handleUndoOf_ok (p : Props) (drawing : bool) (s s' : State) :
  history_ok s ->
  exists r, handleUndoOf p drawing s s' = Some r /\
    (r = (s', []) \/
     exists m, item (history s) (historyIndex s - 1) = Some m /\
       r = (setHistoryIndex (historyIndex s - 1) (setManualWhitelistMask m s'),
            notify p m)).
Proof.
  intros (Hi & _). unfold handleUndoOf.
  destruct ((0 <? historyIndex s) && negb drawing && negb (isProcessing p)) eqn:G;
    [|eexists; split; [reflexivity | now left]].
  apply andb_true_iff in G. destruct G as [G _].
  apply andb_true_iff in G. destruct G as [G _]. apply Z.ltb_lt in G.
  destruct (item_in_range (history s) (historyIndex s - 1) ltac:(lia)) as [m E].
  rewrite E. eexists. split; [reflexivity|]. right. now exists m.
Qed.

Lemma handleRedoOf_ok (p : Props) (drawing : bool) (s s' : State) :
  history_ok s ->
  exists r, handleRedoOf p drawing s s' = Some r /\
    (r = (s', []) \/
     exists m, item (history s) (historyIndex s + 1) = Some m /\
       r = (setHistoryIndex (historyIndex s + 1) (setManualWhitelistMask m s'),
            notify p m)).
Proof.
  intros (Hi & _). unfold handleRedoOf.
  destruct ((historyIndex s <? len (history s) - 1) && negb drawing &&
            negb (isProcessing p)) eqn:G;
    [|eexists; split; [reflexivity | now left]].
  apply andb_true_iff in G. destruct G as [G _].
  apply andb_true_iff in G. destruct G as [G _]. apply Z.ltb_lt in G.
  destruct (item_in_range (history s) (historyIndex s + 1) ltac:(lia)) as [m E].
  rewrite E. eexists. split; [reflexivity|]. right. now exists m.
Qed.

Lemma notify_cases (p : Props) (m : list bool) : notify p m = [] \/ notify p m = [m].
Proof. unfold notify. destruct (onManualWhitelist p); auto. Qed.

Lemma all_are_last_is (x : list bool) (out : list (list bool)) :
  all_are x out -> last_is x out.
Proof.
  intros H. destruct out as [|a out] using rev_ind; [now left|].
  right. exists out. rewrite (H a) by (apply in_or_app; right; now left). reflexivity.
Qed.

Lemma last_is_app (x : list bool) (a b : list (list bool)) :
  last_is x a -> last_is x b -> last_is x (a ++ b).
Proof.
  intros Ha [-> | (pre & ->)]; [now rewrite app_nil_r|].
  right. exists (a ++ pre). now rewrite app_assoc.
Qed.

Lemma all_are_app (x : list bool) (a b : list (list bool)) :
  all_are x a -> all_are x b -> all_are x (a ++ b).
Proof. intros Ha Hb m Hin. apply in_app_or in Hin. destruct Hin; auto. Qed.

Lemma all_are_notify (p : Props) (m : list bool) : all_are m (notify p m).
Proof. destruct (notify_cases p m) as [-> | ->]; intros x []; [now subst | contradiction]. Qed.

(** The listener keeps the history and the mask fitted together, whatever
    render it is of. *)
Lemma handleKeyDown_ok (p : Props) (drawing : bool) (e : KeyboardEvent) (s : State) :
  history_ok s ->
  exists s' out, handleKeyDown p drawing e s = Some (s', out) /\ history_ok s' /\
    last_is (manualWhitelistMask s') out /\
    (ctrlKey e && shiftKey e && is_z (key e) = false ->
     all_are (manualWhitelistMask s') out).
Proof.
  intros Hok. unfold handleKeyDown.
  destruct (negb (isWhitelistBrushActive s) || isProcessing p);
    [exists s, []; split; [reflexivity|]; split; [exact Hok|];
     split; [now left | intros _ m []]|].
  cbv zeta.
  destruct (ctrlKey e && is_z (key e)) eqn:U.
  - destruct (handleUndoOf_ok p drawing s s Hok) as (r1 & E1 & K1). rewrite E1.
    destruct K1 as [-> | (m1 & I1 & ->)].
    + (* undo did nothing *)
      destruct ((ctrlKey e && is_y (key e)) || (ctrlKey e && shiftKey e && is_z (key e))).
      * destruct (handleRedoOf_ok p drawing s s Hok) as (r2 & E2 & K2). rewrite E2.
        destruct K2 as [-> | (m2 & I2 & ->)].
        -- exists s, []. split; [reflexivity|]. split; [exact Hok|].
           split; [now left | intros _ m []].
        -- eexists _, _. split; [reflexivity|].
           split; [now apply (history_ok_moved s s _ m2)|]. cbn.
           split; [apply all_are_last_is|intros _]; apply all_are_notify.
      * exists s, []. split; [reflexivity|]. split; [exact Hok|].
        split; [now left | intros _ m []].
    + (* undo moved back *)
      destruct ((ctrlKey e && is_y (key e)) || (ctrlKey e && shiftKey e && is_z (key e)))
        eqn:R.
      * destruct (handleRedoOf_ok p drawing s
                    (setHistoryIndex (historyIndex s - 1) (setManualWhitelistMask m1 s)) Hok)
          as (r2 & E2 & K2). rewrite E2.
        destruct K2 as [-> | (m2 & I2 & ->)].
        -- eexists _, _. split; [reflexivity|].
           split; [now apply (history_ok_moved s s _ m1)|]. cbn. rewrite app_nil_r.
           split; [apply all_are_last_is|intros _]; apply all_are_notify.
        -- eexists _, _. split; [reflexivity|].
           split; [now apply (history_ok_moved s _ _ m2)|]. cbn.
           split.
           ++ unfold notify. destruct (onManualWhitelist p); [right; now exists [m1] | now left].
           ++ intros B. exfalso.
              destruct (ctrlKey e), (shiftKey e), (key e); cbn in U, R, B; discriminate.
      * eexists _, _. split; [reflexivity|].
        split; [now apply (history_ok_moved s s _ m1)|]. cbn. rewrite app_nil_r.
        split; [apply all_are_last_is|intros _]; apply all_are_notify.
  - destruct ((ctrlKey e && is_y (key e)) || (ctrlKey e && shiftKey e && is_z (key e))).
    + destruct (handleRedoOf_ok p drawing s s Hok) as (r2 & E2 & K2). rewrite E2.
      destruct K2 as [-> | (m2 & I2 & ->)].
      * exists s, []. split; [reflexivity|]. split; [exact Hok|].
        split; [now left | intros _ m []].
      * eexists _, _. split; [reflexivity|].
        split; [now apply (history_ok_moved s s _ m2)|]. cbn.
        split; [apply all_are_last_is|intros _]; apply all_are_notify.
    + exists s, []. split; [reflexivity|]. split; [exact Hok|].
      split; [now left | intros _ m []].
Qed.

(** X22. Every event of the page and every key leaves the history and the
    mask fitted together, if they were and no image is loaded in the middle
    of a stroke, whatever render the keydown listener is of: the handlers
    run to their end (undo and redo find the entry they spread), the index
    is the index of an entry of the history, the mask of a component with
    nothing to save is that entry, and the last mask passed to
    [onManualWhitelist] is the mask the component holds afterwards. Every
    mask passed is that mask, except when the listener calls both handlers
    (Ctrl+Shift+Z with the key ['z']). *)
Theorem history_invariant (p : Props) (i : Input) (s : State) :
  history_ok s ->
  (forall w h, i = Pointer (ImageLoaded w h) -> isDrawing s = false) ->
  exists s' out, stepInput p i s = Some (s', out) /\ history_ok s' /\
    last_is (manualWhitelistMask s') out /\
    (callsBoth i = false -> all_are (manualWhitelistMask s') out).
Proof.
  intros Hok Himg. unfold stepInput.
  assert (H : exists s1 out1, handleInput p i s = Some (s1, out1) /\ history_ok s1 /\
                last_is (manualWhitelistMask s1) out1 /\
                (callsBoth i = false -> all_are (manualWhitelistMask s1) out1)).
  { destruct i as [e | drawing e]; cbn [handleInput callsBoth].
    - destruct (handle_ok p e s Hok) as (s1 & out1 & E & Hok1 & Hout1).
      { intros w h ->. now apply (Himg w h). }
      exists s1, out1. split; [exact E|]. split; [exact Hok1|].
      split; [now apply all_are_last_is | intros _; exact Hout1].
    - now apply handleKeyDown_ok. }
  destruct H as (s1 & out1 & E & Hok1 & Hlast & Hall). rewrite E.
  pose proof (saveChanges_ok p s1 Hok1) as H.
  destruct (saveChanges p s1) as [s2 out2]. destruct H as (Hok2 & Em & Hout2).
  exists s2, (out1 ++ out2). split; [reflexivity|]. split; [exact Hok2|].
  rewrite Em. split.
  - apply last_is_app; [exact Hlast|]. apply all_are_last_is. now rewrite <- Em.
  - intros B. apply all_are_app; [now apply Hall | now rewrite <- Em].
Qed.

Lemma history_ok_one_undone : history_ok one_undone.
Proof.
  unfold history_ok, one_undone, len. cbn. repeat split; try lia; discriminate.
Qed.

Lemma history_invariant_witness :
  history_ok one_undone /\
  (forall w h, KeyDown false ctrl_shift_z = Pointer (ImageLoaded w h) ->
     isDrawing one_undone = false) /\
  exists s' out, stepInput idle (KeyDown false ctrl_shift_z) one_undone = Some (s', out) /\
    history_ok s' /\ last_is (manualWhitelistMask s') out /\
    (callsBoth (KeyDown false ctrl_shift_z) = false ->
     all_are (manualWhitelistMask s') out).
Proof.
  split; [exact history_ok_one_undone|]. split; [discriminate|].
  apply (history_invariant idle (KeyDown false ctrl_shift_z) one_undone
           history_ok_one_undone).
  discriminate.
Defined.

(** In the middle of a stroke the undo button does nothing, and Ctrl+Z
    undoes: the listener is still the one of the render before the stroke,
    in which nothing was being drawn. *)
Example ctrl_z_in_a_stroke :
  let s := handleCanvasMouseDown idle first_pixel one_stroke in
  isDrawing s = true /\ step idle Undo s = Some (s, []) /\
  exists s', stepInput idle (KeyDown false ctrl_z) s = Some (s', [[false; false]]) /\
    historyIndex s' = 0 /\ manualWhitelistMask s' = [false; false] /\
    isDrawing s' = true.
Proof.
  cbv zeta. split; [reflexivity|]. split; [reflexivity|].
  eexists. split; [reflexivity|]. repeat split.
Qed.

(** Ctrl+Shift+Z with the key ['z'] undoes and redoes from one render: the
    parent is told the entry before and then the entry after, and the
    component ends on the entry after. *)
Example ctrl_shift_z_calls_both :
  exists s', stepInput idle (KeyDown false ctrl_shift_z) one_undone =
               Some (s', [[false; false]; [true; true]]) /\
    historyIndex s' = 2 /\ manualWhitelistMask s' = [true; true].
Proof. eexists. split; [reflexivity|]. split; reflexivity. Qed.

Lemma history_ok_one_stroke : history_ok one_stroke.
Proof.
  unfold history_ok, one_stroke, len. cbn. repeat split; try lia; discriminate.
Qed.


Lemma history_ok_initialState : history_ok initialState.
Proof.
  unfold history_ok, initialState, len. cbn. repeat split; try lia; discriminate.
Qed.

(** X23. Undo and redo are inverse to each other on a component at rest
    that is not processing: after an undo that had an entry to go back to,
    redo restores the state, and after a redo that had an entry to go
    forward to, undo restores it; each passes to [onManualWhitelist] the
    entry of the history it moves to. *)
Theorem undo_redo_round_trip (p : Props) (s : State) :
  history_ok s -> at_rest s -> isProcessing p = false ->
  (0 < historyIndex s ->
   exists s1 m, item (history s) (historyIndex s - 1) = Some m /\
     handleUndo p s = Some (s1, notify p m) /\ manualWhitelistMask s1 = m /\
     handleRedo p s1 = Some (s, notify p (manualWhitelistMask s))) /\
  (historyIndex s < len (history s) - 1 ->
   exists s1 m, item (history s) (historyIndex s + 1) = Some m /\
     handleRedo p s = Some (s1, notify p m) /\ manualWhitelistMask s1 = m /\
     handleUndo p s1 = Some (s, notify p (manualWhitelistMask s))).
Proof.
  intros (Hi & Hne & Hd & Hm) [D U] P.
  destruct s as [dims act mask drw hist idx uns]. cbn in *. subst drw uns.
  specialize (Hm eq_refl). split; intros G.
  - destruct (item_in_range hist (idx - 1) ltac:(lia)) as [m E].
    exists {| imageDimensions := dims; isWhitelistBrushActive := act;
              manualWhitelistMask := m; isDrawing := false; history := hist;
              historyIndex := idx - 1; hasUnsavedChanges := false |}, m.
    split; [exact E|]. unfold handleUndo, handleRedo. cbn. rewrite P. cbn.
    destruct (Z.ltb_spec 0 idx); [|lia]. cbn. rewrite E.
    split; [reflexivity|]. split; [reflexivity|].
    destruct (Z.ltb_spec (idx - 1) (len hist - 1)); [|lia]. cbn.
    replace (idx - 1 + 1) with idx by lia. rewrite Hm by lia. reflexivity.
  - assert (0 <= idx) by lia.
    destruct (item_in_range hist (idx + 1) ltac:(lia)) as [m E].
    exists {| imageDimensions := dims; isWhitelistBrushActive := act;
              manualWhitelistMask := m; isDrawing := false; history := hist;
              historyIndex := idx + 1; hasUnsavedChanges := false |}, m.
    split; [exact E|]. unfold handleUndo, handleRedo. cbn. rewrite P. cbn.
    destruct (Z.ltb_spec idx (len hist - 1)); [|lia]. cbn. rewrite E.
    split; [reflexivity|]. split; [reflexivity|].
    destruct (Z.ltb_spec 0 (idx + 1)); [|lia]. cbn.
    replace (idx + 1 - 1) with idx by lia. rewrite Hm by lia. reflexivity.
Qed.

Lemma undo_redo_round_trip_witness :
  history_ok one_stroke /\ at_rest one_stroke /\ isProcessing idle = false /\
  (0 < historyIndex one_stroke ->
   exists s1 m, item (history one_stroke) (historyIndex one_stroke - 1) = Some m /\
     handleUndo idle one_stroke = Some (s1, notify idle m) /\ manualWhitelistMask s1 = m /\
     handleRedo idle s1 = Some (one_stroke, notify idle (manualWhitelistMask one_stroke))) /\
  (historyIndex one_stroke < len (history one_stroke) - 1 ->
   exists s1 m, item (history one_stroke) (historyIndex one_stroke + 1) = Some m /\
     handleRedo idle one_stroke = Some (s1, notify idle m) /\ manualWhitelistMask s1 = m /\
     handleUndo idle s1 = Some (one_stroke, notify idle (manualWhitelistMask one_stroke))).
Proof.
  split; [exact history_ok_one_stroke|]. split; [split; reflexivity|].
  split; [reflexivity|].
  apply (undo_redo_round_trip idle one_stroke history_ok_one_stroke);
    [split; reflexivity | reflexivity].
Defined.

(** X24. A stroke is one entry of the history. On a component at rest
    with an image, an active brush and its callback, not processing, pressing
    the mouse, moving it and releasing it saves the mask once: the history is
    cut after the current entry (what could be redone is dropped) and the new
    mask appended, the index points to it, the parent is told the new mask,
    and redo does nothing. An undo then gives back the mask and the index
    from before the stroke, and tells the parent the old mask. *)
Theorem stroke_then_undo (p : Props) (brush : list bool -> list bool)
    (steps : list (list bool -> list bool)) (s : State) :
  history_ok s -> at_rest s -> 0 <= historyIndex s ->
  isProcessing p = false -> onManualWhitelist p = true ->
  isWhitelistBrushActive s = true ->
  let m' := manualWhitelistMask
              (handleCanvasMouseMove p steps (handleCanvasMouseDown p brush s)) in
  exists s2 s3,
    run p [MouseDown brush; MouseMove steps; MouseUp] s = Some (s2, [m']) /\
    at_rest s2 /\ manualWhitelistMask s2 = m' /\
    history s2 = slice0 (history s) (historyIndex s + 1) ++ [m'] /\
    historyIndex s2 = historyIndex s + 1 /\
    handleRedo p s2 = Some (s2, []) /\
    step p Undo s2 = Some (s3, [manualWhitelistMask s]) /\
    manualWhitelistMask s3 = manualWhitelistMask s /\
    historyIndex s3 = historyIndex s /\ history s3 = history s2 /\ at_rest s3.
Proof.
  intros (Hi & Hne & Hd & Hm) [D U] Hidx P C A m'.
  specialize (Hm U Hidx).
  destruct (handleCanvasMouseDown_cases p brush s)
    as [[G _] | (_ & D1 & D2 & D3 & D4 & D5 & D6)];
    [rewrite A, P in G; discriminate|]. cbv zeta in *.
  set (s1 := handleCanvasMouseDown p brush s) in *.
  destruct (handleCanvasMouseMove_frame p steps s1) as (M1 & M2 & M3 & M4 & M5 & M6).
  cbv zeta in *.
  set (s1' := handleCanvasMouseMove p steps s1) in *.
  assert (L : len (slice0 (history s) (historyIndex s + 1)) = historyIndex s + 1)
    by (apply slice0_len; lia).
  set (h2 := slice0 (history s) (historyIndex s + 1) ++ [m']).
  set (s2 := {| imageDimensions := imageDimensions s1';
                isWhitelistBrushActive := isWhitelistBrushActive s1';
                manualWhitelistMask := m'; isDrawing := false; history := h2;
                historyIndex := historyIndex s + 1; hasUnsavedChanges := false |}).
  set (s3 := {| imageDimensions := imageDimensions s1';
                isWhitelistBrushActive := isWhitelistBrushActive s1';
                manualWhitelistMask := manualWhitelistMask s; isDrawing := false;
                history := h2; historyIndex := historyIndex s;
                hasUnsavedChanges := false |}).
  exists s2, s3.
  assert (Hlen : len h2 = historyIndex s + 2) by (unfold h2; rewrite len_app_one; lia).
  split; [|split; [split; reflexivity|]; split; [reflexivity|]; split; [reflexivity|];
           split; [reflexivity|]; split; [|split; [|split; [reflexivity|];
           split; [reflexivity|]; split; [reflexivity|]; split; reflexivity]]].
  - cbn [run step handle]. fold s1.
    assert (S1 : saveChanges p s1 = (s1, [])).
    { unfold saveChanges. rewrite D5. cbn [negb andb]. now rewrite andb_false_r. }
    rewrite S1. fold s1'.
    assert (S2 : saveChanges p s1' = (s1', [])).
    { unfold saveChanges. rewrite M3, D5. cbn [negb andb]. now rewrite andb_false_r. }
    rewrite S2. unfold handleCanvasMouseUp. rewrite M3, D5.
    unfold saveChanges. cbn. rewrite M6, D6, C. cbn.
    rewrite M4, M5, D3, D4. fold m'. fold h2. rewrite Hlen.
    replace (historyIndex s + 2 - 1) with (historyIndex s + 1) by lia.
    reflexivity.
  - unfold handleRedo. cbn. rewrite Hlen.
    destruct (Z.ltb_spec (historyIndex s + 1) (historyIndex s + 2 - 1)); [lia|].
    reflexivity.
  - unfold step, handle, handleUndo. cbn. rewrite P. cbn.
    destruct (Z.ltb_spec 0 (historyIndex s + 1)); [|lia]. cbn.
    replace (historyIndex s + 1 - 1) with (historyIndex s) by lia.
    unfold h2. rewrite item_app_first by lia. rewrite slice0_item by lia. rewrite Hm.
    unfold saveChanges, notify. cbn. rewrite C. reflexivity.
Qed.

Lemma stroke_then_undo_witness :
  history_ok one_stroke /\ at_rest one_stroke /\ 0 <= historyIndex one_stroke /\
  isProcessing idle = false /\ onManualWhitelist idle = true /\
  isWhitelistBrushActive one_stroke = true /\
  let m' := manualWhitelistMask
              (handleCanvasMouseMove idle [first_pixel]
                 (handleCanvasMouseDown idle first_pixel one_stroke)) in
  exists s2 s3,
    run idle [MouseDown first_pixel; MouseMove [first_pixel]; MouseUp] one_stroke =
      Some (s2, [m']) /\
    at_rest s2 /\ manualWhitelistMask s2 = m' /\
    history s2 = slice0 (history one_stroke) (historyIndex one_stroke + 1) ++ [m'] /\
    historyIndex s2 = historyIndex one_stroke + 1 /\
    handleRedo idle s2 = Some (s2, []) /\
    step idle Undo s2 = Some (s3, [manualWhitelistMask one_stroke]) /\
    manualWhitelistMask s3 = manualWhitelistMask one_stroke /\
    historyIndex s3 = historyIndex one_stroke /\ history s3 = history s2 /\ at_rest s3.
Proof.
  split; [exact history_ok_one_stroke|]. split; [split; reflexivity|].
  split; [cbn; lia|]. split; [reflexivity|]. split; [reflexivity|].
  split; [reflexivity|].
  apply (stroke_then_undo idle first_pixel [first_pixel] one_stroke history_ok_one_stroke);
    try reflexivity; [split; reflexivity | cbn; lia].
Defined.

(** X25. Of the brush applications of one mouse move only the last
    counts: each starts from the mask of the render, not from the mask the
    one before it has queued, so that a move with several applications
    leaves the state that its last application alone would leave; a move
    without an application leaves the state as it is. *)
Theorem mouse_move_keeps_last_application (p : Props)
    (steps : list (list bool -> list bool)) (brush : list bool -> list bool) (s : State) :
  handleCanvasMouseMove p (steps ++ [brush]) s = handleCanvasMouseMove p [brush] s /\
  handleCanvasMouseMove p [] s = s.
Proof.
  unfold handleCanvasMouseMove.
  destruct (negb (isDrawing s) || negb (isWhitelistBrushActive s) || isProcessing p);
    [split; reflexivity|].
  split; [|reflexivity]. rewrite fold_left_app. cbn [fold_left].
  destruct (fold_brush_frame s steps s) as (E1 & E2 & E3 & E4 & E5 & E6).
  cbv zeta in *.
  set (t := fold_left (fun s' b => applyBrushAtPosition b s s') steps s) in *.
  unfold applyBrushAtPosition at 1 2. destruct (imageDimensions s) as [w h] eqn:Dm.
  destruct ((w =? 0) || (h =? 0)) eqn:Z.
  - unfold t. clear - Dm Z. induction steps as [|b steps IH] using rev_ind; [reflexivity|].
    rewrite fold_left_app. cbn [fold_left]. unfold applyBrushAtPosition at 1.
    rewrite Dm, Z. exact IH.
  - unfold setManualWhitelistMask. f_equal; congruence.
Qed.
End History.
